(** * Rainbond application export: a shallow embedding of
      [monitor/callback/mq.go] (the discovery callback [Mq] and the
      [ExportApp] worker with its [dockerCompose] helper) and the
      properties of its specification. *)

From Stdlib Require Import ZArith Ascii String List Lia Bool.
From stdpp Require Import base option list strings gmap.

Local Open Scope Z_scope.

(** ** Go strings

    A Go [string] is a sequence of bytes; it is modelled as a Rocq
    [string], each [ascii] being one byte.  The functions below are the
    ones of Go's standard library that the source calls. *)

Module Go.

Definition byte_val (c : ascii) : Z := Z.of_N (N_of_ascii c).
Definition byte_of (z : Z) : ascii := ascii_of_N (Z.to_N (z mod 256)).

Fixpoint bytes (s : string) : list Z :=
  match s with
  | EmptyString => []
  | String c s' => byte_val c :: bytes s'
  end.

Fixpoint of_bytes (l : list Z) : string :=
  match l with
  | [] => EmptyString
  | b :: l' => String (byte_of b) (of_bytes l')
  end.

(** [len(s)], in bytes. *)
Definition len (s : string) : nat := String.length s.

(** [s[:n]] and [s[n:]] for [n <= len(s)]. *)
Fixpoint take (n : nat) (s : string) : string :=
  match n, s with
  | S k, String c s' => String c (take k s')
  | _, _ => EmptyString
  end.

Fixpoint drop (n : nat) (s : string) : string :=
  match n, s with
  | S k, String _ s' => drop k s'
  | _, _ => s
  end.

Fixpoint concat (l : list string) : string :=
  match l with
  | [] => EmptyString
  | s :: l' => s +:+ concat l'
  end.

Fixpoint has_prefix (p s : string) : bool :=
  match p, s with
  | EmptyString, _ => true
  | String a p', String b s' => if Ascii.eqb a b then has_prefix p' s' else false
  | String _ _, EmptyString => false
  end.

(** [strings.Split(s, sep)] for a non-empty [sep]: the pieces between the
    non-overlapping occurrences of [sep], found from the left.  [skip]
    counts the bytes of an occurrence still to be passed over and [cur]
    holds the bytes of the current piece, last one first. *)
Fixpoint split_from (sep : string) (skip : nat) (cur : list ascii) (s : string)
  : list string :=
  match s with
  | EmptyString => [string_of_list_ascii (rev cur)]
  | String c s' =>
      match skip with
      | S k => split_from sep k cur s'
      | O =>
          if has_prefix sep s
          then string_of_list_ascii (rev cur) :: split_from sep (len sep - 1) [] s'
          else split_from sep 0 (c :: cur) s'
      end
  end.

Definition Split (s sep : string) : list string := split_from sep 0 [] s.

(** *** UTF-8 ([unicode/utf8]) *)

Definition RuneError : Z := 0xFFFD.
Definition MaxRune : Z := 0x10FFFF.

Definition valid_rune (r : Z) : bool :=
  (0 <=? r) && (r <=? MaxRune) && negb ((0xD800 <=? r) && (r <=? 0xDFFF)).

(** [utf8.AppendRune]: a rune out of range or a surrogate half is written
    as [RuneError]. *)
Definition EncodeRune (r0 : Z) : string :=
  let r := if valid_rune r0 then r0 else RuneError in
  if r <=? 0x7F then of_bytes [r]
  else if r <=? 0x7FF then
    of_bytes [Z.lor 0xC0 (Z.shiftr r 6); Z.lor 0x80 (Z.land r 0x3F)]
  else if r <=? 0xFFFF then
    of_bytes [Z.lor 0xE0 (Z.shiftr r 12);
              Z.lor 0x80 (Z.land (Z.shiftr r 6) 0x3F);
              Z.lor 0x80 (Z.land r 0x3F)]
  else
    of_bytes [Z.lor 0xF0 (Z.shiftr r 18);
              Z.lor 0x80 (Z.land (Z.shiftr r 12) 0x3F);
              Z.lor 0x80 (Z.land (Z.shiftr r 6) 0x3F);
              Z.lor 0x80 (Z.land r 0x3F)].

(** The table [first] of the decoder: for a leading byte, the length of
    the sequence and the range accepted for its second byte. *)
Definition first (b : Z) : option (nat * Z * Z) :=
  if b <? 0xC2 then None
  else if b <=? 0xDF then Some (2%nat, 0x80, 0xBF)
  else if b =? 0xE0 then Some (3%nat, 0xA0, 0xBF)
  else if b <=? 0xEC then Some (3%nat, 0x80, 0xBF)
  else if b =? 0xED then Some (3%nat, 0x80, 0x9F)
  else if b <=? 0xEF then Some (3%nat, 0x80, 0xBF)
  else if b =? 0xF0 then Some (4%nat, 0x90, 0xBF)
  else if b <=? 0xF3 then Some (4%nat, 0x80, 0xBF)
  else if b =? 0xF4 then Some (4%nat, 0x80, 0x8F)
  else None.

Definition cont (b : Z) : bool := (0x80 <=? b) && (b <=? 0xBF).

(** [utf8.DecodeRuneInString] on the bytes of a non-empty string: the rune
    and its width; a byte that starts no valid sequence is [RuneError] of
    width 1. *)
Definition DecodeRune (l : list Z) : Z * nat :=
  match l with
  | [] => (RuneError, 0%nat)
  | s0 :: t =>
      if s0 <? 0x80 then (s0, 1%nat)
      else match first s0 with
      | None => (RuneError, 1%nat)
      | Some (sz, lo, hi) =>
          match t with
          | s1 :: t1 =>
              if negb ((lo <=? s1) && (s1 <=? hi)) then (RuneError, 1%nat)
              else if (sz <=? 2)%nat then
                (Z.lor (Z.shiftl (Z.land s0 0x1F) 6) (Z.land s1 0x3F), 2%nat)
              else match t1 with
              | s2 :: t2 =>
                  if negb (cont s2) then (RuneError, 1%nat)
                  else if (sz <=? 3)%nat then
                    (Z.lor (Z.shiftl (Z.land s0 0x0F) 12)
                       (Z.lor (Z.shiftl (Z.land s1 0x3F) 6) (Z.land s2 0x3F)), 3%nat)
                  else match t2 with
                  | s3 :: _ =>
                      if negb (cont s3) then (RuneError, 1%nat)
                      else
                        (Z.lor (Z.shiftl (Z.land s0 0x07) 18)
                           (Z.lor (Z.shiftl (Z.land s1 0x3F) 12)
                              (Z.lor (Z.shiftl (Z.land s2 0x3F) 6) (Z.land s3 0x3F))),
                         4%nat)
                  | [] => (RuneError, 1%nat)
                  end
              | [] => (RuneError, 1%nat)
              end
          | [] => (RuneError, 1%nat)
          end
      end
  end.

(** The runes of a string with the bytes each one was read from, as a
    [for _, r := range s] loop meets them.  A step consumes at least one
    byte, so [len s] steps are enough. *)
Fixpoint chunks_fuel (fuel : nat) (s : string) : list (Z * string) :=
  match fuel with
  | O => []
  | S f =>
      match s with
      | EmptyString => []
      | _ =>
          let '(r, n) := DecodeRune (bytes s) in
          (r, take n s) :: chunks_fuel f (drop n s)
      end
  end.

Definition chunks (s : string) : list (Z * string) := chunks_fuel (len s) s.
Definition runes (s : string) : list Z := map fst (chunks s).

(** [unicode.IsSpace]. *)
Definition IsSpace (r : Z) : bool :=
  ((0x09 <=? r) && (r <=? 0x0D)) || (r =? 0x20) || (r =? 0x85) || (r =? 0xA0)
  || (r =? 0x1680) || ((0x2000 <=? r) && (r <=? 0x200A))
  || (r =? 0x2028) || (r =? 0x2029) || (r =? 0x202F) || (r =? 0x205F)
  || (r =? 0x3000).

Fixpoint drop_space (l : list (Z * string)) : list (Z * string) :=
  match l with
  | (r, c) :: l' => if IsSpace r then drop_space l' else l
  | [] => []
  end.

(** [strings.TrimSpace]: the white-space runes at both ends removed.  A
    white-space rune at the end of a string is a valid sequence, whose
    first byte no earlier sequence can take in, so reading the runes from
    the left finds it as [utf8.DecodeLastRuneInString] does. *)
Definition TrimSpace (s : string) : string :=
  concat (map snd (rev (drop_space (rev (drop_space (chunks s)))))).

(** *** [strconv.ParseInt(s, 16, 32)] *)

Definition hex_digit (b : Z) : option Z :=
  if (48 <=? b) && (b <=? 57) then Some (b - 48)
  else if (97 <=? b) && (b <=? 102) then Some (b - 97 + 10)
  else if (65 <=? b) && (b <=? 70) then Some (b - 65 + 10)
  else None.

Fixpoint hex_value (acc : Z) (l : list Z) : option Z :=
  match l with
  | [] => Some acc
  | b :: l' =>
      match hex_digit b with
      | Some d => hex_value (16 * acc + d) l'
      | None => None
      end
  end.

(** An optional sign, then at least one hexadecimal digit; [None] stands
    for a non-nil [err] (bad syntax or a value outside [int32]). *)
Definition ParseInt16 (s : string) : option Z :=
  let digits (neg : bool) (l : list Z) : option Z :=
    match l with
    | [] => None
    | _ =>
        match hex_value 0 l with
        | Some u =>
            if neg then (if u <=? 2 ^ 31 then Some (- u) else None)
            else (if u <? 2 ^ 31 then Some u else None)
        | None => None
        end
    end in
  match bytes s with
  | [] => None
  | b :: l =>
      if b =? 43 then digits false l
      else if b =? 45 then digits true l
      else digits false (b :: l)
  end.

(** [fmt.Sprintf("%c", z)] for an integer [z]. *)
Definition Sprintf_c (z : Z) : string :=
  EncodeRune (if (0 <=? z) && (z <=? MaxRune) then z else RuneError).

(** *** [path.Clean] and [path.Join] *)

Fixpoint join_with (sep : string) (l : list string) : string :=
  match l with
  | [] => EmptyString
  | [x] => x
  | x :: l' => x +:+ sep +:+ join_with sep l'
  end.

(** One element of a path met by [Clean]; [st] holds the elements kept so
    far, last one first. *)
Definition clean_step (rooted : bool) (st : list string) (c : string) : list string :=
  if String.eqb c "" || String.eqb c "." then st
  else if String.eqb c ".." then
    match st with
    | top :: st' => if String.eqb top ".." then c :: st else st'
    | [] => if rooted then [] else [c]
    end
  else c :: st.

(** [path.Clean]: the elements between slashes with the empty ones and
    [.] dropped and each [..] taking away the element before it, if there
    is one; a rooted path starts with a slash and an empty result is
    [.]. *)
Definition Clean (p : string) : string :=
  if String.eqb p "" then "."
  else
    let rooted := has_prefix "/" p in
    let body := join_with "/" (rev (fold_left (clean_step rooted) (Split p "/") [])) in
    if rooted then "/" +:+ body
    else if String.eqb body "" then "." else body.

(** The loop of [path.Join] over its elements: an element is written,
    after a slash, once [buf] holds something or the element is not empty. *)
Fixpoint join_buf (buf : string) (elem : list string) : string :=
  match elem with
  | [] => buf
  | e :: rest =>
      if negb (String.eqb buf "") then join_buf (buf +:+ "/" +:+ e) rest
      else if negb (String.eqb e "") then join_buf e rest
      else join_buf buf rest
  end.

Definition Join (elem : list string) : string :=
  if String.eqb (concat elem) "" then "" else Clean (join_buf "" elem).

(** *** [unicode.Is(unicode.Han, r)]: the ranges of the Han script in the
    tables of Unicode 13, which Go has shipped since version 1.16. *)
Definition between (lo hi r : Z) : bool := (lo <=? r) && (r <=? hi).

Definition IsHan (r : Z) : bool :=
  between 0x2E80 0x2E99 r || between 0x2E9B 0x2EF3 r || between 0x2F00 0x2FD5 r
  || (r =? 0x3005) || (r =? 0x3007) || between 0x3021 0x3029 r
  || between 0x3038 0x303B r || between 0x3400 0x4DBF r
  || between 0x4E00 0x9FFC r || between 0xF900 0xFA6D r
  || between 0xFA70 0xFAD9 r || between 0x16FF0 0x16FF1 r
  || between 0x20000 0x2A6DD r || between 0x2A700 0x2B734 r
  || between 0x2B740 0x2B81D r || between 0x2B820 0x2CEA1 r
  || between 0x2CEB0 0x2EBE0 r || between 0x2F800 0x2FA1D r
  || between 0x30000 0x3134A r.

End Go.

(** ** The manifest [metadata.json]

    [parseApps] reads the array [apps] of the manifest through [gjson] and
    [parseApp] unmarshals the same array into the [Components] of a
    [RainbondApplicationConfig]; both views are the list of records
    below, with the fields the export reads. *)

Record ComponentVolume := {
  VolumeName : string;
  VolumeMountPath : string;
  VolumeType : string;
  FileConent : string }.

Record ComponentVolumeDep := {
  ShareServiceUUID : string;
  DepVolumeName : string;
  VolumeMountDir : string }.

Record EnvItem := { attr_name : string; attr_value : string }.

Record Component := {
  ServiceCname : string;
  ServiceShareID : string;
  ShareImage : string;
  Memory : Z;
  Cmd : string;
  PortMapList : list string;
  ServiceEnvMapList : list EnvItem;
  ServiceConnectInfoMapList : list EnvItem;
  DepServiceMapList : list string;
  ServiceVolumeMapList : list ComponentVolume;
  MntReleationList : list ComponentVolumeDep }.

Record RainbondApplicationConfig := {
  AppName : string;
  Components : list Component }.

(** A Go map read at a key it does not hold gives the zero value. *)
Definition at_key (m : gmap string string) (k : string) : string :=
  default "" (m !! k).

(** ** Name sanitizer *)

(** The body of the loop of [unicode2zh] for the piece of index [i]. *)
Definition unicode2zh_step (i : nat) (context char : string) : string :=
  if (i <? 1)%nat then char
  else
    let length := Go.len char in
    if (3 <? length)%nat then
      let pre := Go.take 4 char in
      match Go.ParseInt16 pre with
      | None => context +:+ char
      | Some zh =>
          let context := context +:+ Go.Sprintf_c zh in
          if (4 <? length)%nat then context +:+ Go.drop 4 char else context
      end
    else context.

Fixpoint unicode2zh_loop (i : nat) (context : string) (pieces : list string) : string :=
  match pieces with
  | [] => context
  | char :: rest => unicode2zh_loop (S i) (unicode2zh_step i context char) rest
  end.

Definition unicode2zh (uText : string) : string :=
  Go.TrimSpace (unicode2zh_loop 0 "" (Go.Split uText "\\u")).

(** [regexp.Match("[a-zA-Z0-9._-]", []byte{b})] for one byte [b]. *)
Definition matched (b : Z) : bool :=
  Go.between 97 122 b || Go.between 65 90 b || Go.between 48 57 b
  || (b =? 46) || (b =? 95) || (b =? 45).

Section Sanitizer.

(** [pinyin.LazyConvert(s, nil)] of the library go-pinyin. *)
Variable LazyConvert : string -> list string.

(** One rune of the loop of [composeName]; the pattern is matched against
    [byte(runeValue)], the low eight bits of the rune. *)
Definition composeName_step (res : string) (runeValue : Z) : string :=
  if Go.IsHan runeValue then
    res +:+ Go.concat (LazyConvert (Go.EncodeRune runeValue))
  else if negb (matched (runeValue mod 256)) then res +:+ "_"
  else res +:+ Go.EncodeRune runeValue.

Definition composeName (uText : string) : string :=
  fold_left composeName_step (Go.runes (unicode2zh uText)) "".

End Sanitizer.

(** ** Environment rendering *)

(** Modelled from the spec: [util.ParseVariable] is not among the sources.
    Every [${KEY}] of [s] whose [KEY] is bound in [configs] is replaced by
    the value bound to it; a reference to an unbound key, or one that is
    never closed, stays as written.  [ref] holds the bytes of the key
    being read, last one first. *)
Fixpoint ParseVariable_from (configs : gmap string string) (ref : option (list ascii))
    (s : string) : string :=
  match s with
  | EmptyString =>
      match ref with
      | None => EmptyString
      | Some k => "${" +:+ string_of_list_ascii (rev k)
      end
  | String c s' =>
      match ref with
      | Some k =>
          if Ascii.eqb c "}" then
            let key := string_of_list_ascii (rev k) in
            default ("${" +:+ key +:+ "}") (configs !! key)
              +:+ ParseVariable_from configs None s'
          else ParseVariable_from configs (Some (c :: k)) s'
      | None =>
          if Ascii.eqb c "$" then
            match s' with
            | String c' s'' =>
                if Ascii.eqb c' "{" then ParseVariable_from configs (Some []) s''
                else String c (ParseVariable_from configs None s')
            | EmptyString => String c EmptyString
            end
          else String c (ParseVariable_from configs None s')
      end
  end.

Definition ParseVariable (source : string) (configs : gmap string string) : string :=
  ParseVariable_from configs None source.

(** The loop [for key, value := range envs { envs[key] =
    util.ParseVariable(value, envs) }]; [order] is the order in which the
    Go runtime enumerates the keys of the map, which the language leaves
    open. *)
Definition render_step (envs : gmap string string) (key : string) : gmap string string :=
  match envs !! key with
  | Some value => <[key := ParseVariable value envs]> envs
  | None => envs
  end.

Definition renderEnvs (order : list string) (envs : gmap string string)
  : gmap string string :=
  fold_left render_step order envs.

(** ** The compose descriptor *)

Record GlobalVolume := { External : bool }.

Record Logging := { Driver : string; MaxSize : string; MaxFile : string }.

Record Service := {
  Image : string;
  ContainerName : string;
  Restart : string;
  NetworkMode : string;
  Volumes : list string;
  Command : string;
  Environment : gmap string string;
  DependsOn : list string;
  Loggin : Logging }.

Record DockerComposeYaml := {
  Version : string;
  ComposeVolumes : gmap string GlobalVolume;
  Services : gmap string Service }.

Record dockerCompose := {
  ram : RainbondApplicationConfig;
  globalVolumes : list string;
  serviceVolumes : gmap string (list string);
  serviceNames : gmap string string }.

(** [GetServiceName] and [GetServiceVolumes]. *)
Definition GetServiceName (names : gmap string string) (shareServiceUUID : string) : string :=
  at_key names shareServiceUUID.

Definition GetServiceVolumes (d : dockerCompose) (shareServiceUUID : string) : list string :=
  default [] (serviceVolumes d !! shareServiceUUID).

Definition GetGlobalVolumes (d : dockerCompose) : gmap string GlobalVolume :=
  fold_left (fun m vol => <[vol := {| External := false |}]> m) (globalVolumes d) ∅.

Definition buildVolume (serviceName : string) (volume : ComponentVolume)
  : string * string * bool :=
  let volumePath := VolumeMountPath volume in
  if String.eqb (VolumeType volume) "config-file" then
    let configFilePath := "./" +:+ Go.Join [serviceName; VolumeMountPath volume] in
    (configFilePath +:+ ":" +:+ volumePath, configFilePath, true)
  else
    let volumeName := serviceName +:+ "_" +:+ VolumeName volume in
    (volumeName +:+ ":" +:+ volumePath, volumeName, false).

(** What [buildVolumes] has gathered: the binds of each component, the
    global volume list, the volume found under each key
    [ServiceShareID+VolumeName], and the warnings logged. *)
Record VolumeState := {
  componentVolumes : gmap string (list string);
  volumeList : list string;
  volumeMaps : gmap string string;
  warnings : list string }.

(** One volume of a component's own, inside the first loop. *)
Definition own_volume (id serviceName : string)
    (acc : list string * list string * gmap string string) (vol : ComponentVolume)
  : list string * list string * gmap string string :=
  let '(volumes, vlist, vmaps) := acc in
  let '(svolume, composeVolume, isConfig) := buildVolume serviceName vol in
  let volumes := volumes ++ [svolume] in
  if negb (String.eqb composeVolume "") then
    (volumes,
     if negb isConfig then vlist ++ [composeVolume] else vlist,
     <[id +:+ VolumeName vol := composeVolume]> vmaps)
  else (volumes, vlist, vmaps).

Definition own_volumes (names : gmap string string) (st : VolumeState) (cpt : Component)
  : VolumeState :=
  let serviceName := GetServiceName names (ServiceShareID cpt) in
  let '(volumes, vlist, vmaps) :=
    fold_left (own_volume (ServiceShareID cpt) serviceName)
      (ServiceVolumeMapList cpt) ([], volumeList st, volumeMaps st) in
  {| componentVolumes := <[ServiceShareID cpt := volumes]> (componentVolumes st);
     volumeList := vlist;
     volumeMaps := vmaps;
     warnings := warnings st |}.

(** The warning for a dependent volume that is not found. *)
Definition not_found (dvol : ComponentVolumeDep) : string :=
  "[dockerCompose] [buildVolumes] dependent volume(" +:+ ShareServiceUUID dvol
    +:+ "/" +:+ DepVolumeName dvol +:+ ") not found".

(** One dependent volume, inside the second loop. *)
Definition dep_volume (id : string) (st : VolumeState) (dvol : ComponentVolumeDep)
  : VolumeState :=
  let vol := at_key (volumeMaps st) (ShareServiceUUID dvol +:+ DepVolumeName dvol) in
  if String.eqb vol "" then
    {| componentVolumes := componentVolumes st;
       volumeList := volumeList st;
       volumeMaps := volumeMaps st;
       warnings := warnings st ++ [not_found dvol] |}
  else
    {| componentVolumes :=
         <[id := default [] (componentVolumes st !! id) ++ [vol +:+ ":" +:+ VolumeMountDir dvol]]>
           (componentVolumes st);
       volumeList := volumeList st;
       volumeMaps := volumeMaps st;
       warnings := warnings st |}.

Definition dep_volumes (st : VolumeState) (cpt : Component) : VolumeState :=
  fold_left (dep_volume (ServiceShareID cpt)) (MntReleationList cpt) st.

Definition buildVolumes (names : gmap string string) (cpts : list Component) : VolumeState :=
  let st := fold_left (own_volumes names) cpts
      {| componentVolumes := ∅; volumeList := []; volumeMaps := ∅; warnings := [] |} in
  fold_left dep_volumes cpts st.

(** [getPublicEnvByKey] and [getDependedService]: the first app whose
    share identifier is the key decides. *)
Fixpoint getPublicEnvByKey (serviceKey : string) (apps : list Component)
  : gmap string string :=
  match apps with
  | [] => ∅
  | app :: rest =>
      if String.eqb (ServiceShareID app) serviceKey then
        fold_left (fun envs item => <[attr_name item := attr_value item]> envs)
          (ServiceConnectInfoMapList app) ∅
      else getPublicEnvByKey serviceKey rest
  end.

Fixpoint getDependedService (key : string) (apps : list Component) : string :=
  match apps with
  | [] => ""
  | app :: rest =>
      if String.eqb key (ServiceShareID app) then ServiceCname app
      else getDependedService key rest
  end.

Section ComposeExport.

(** [pinyin.LazyConvert(s, nil)]. *)
Variable LazyConvert : string -> list string.
(** The result of the [n]-th call of [util.NewUUID] in a run. *)
Variable NewUUID : nat -> string.
(** [envutil.GetMemoryType] and [sources.GenSaveImageName]. *)
Variable GetMemoryType : Z -> string.
Variable GenSaveImageName : string -> string.
(** The order in which [range] enumerates the keys of a map. *)
Variable keyOrder : gmap string string -> list string.

(** One component of the loop of [buildServiceNames]; [n] counts the
    calls of [NewUUID] made so far. *)
Definition name_step (acc : gmap string string * gset string * nat) (cpt : Component)
  : gmap string string * gset string * nat :=
  let '(names, set, n) := acc in
  let name := composeName LazyConvert (ServiceCname cpt) in
  let '(name, n) :=
    if bool_decide (name ∈ set)
    then (name +:+ "-" +:+ Go.take 4 (NewUUID n), S n)
    else (name, n) in
  (<[ServiceShareID cpt := name]> names, {[name]} ∪ set, n).

Definition buildServiceNames (cpts : list Component) (n : nat)
  : gmap string string * nat :=
  let '(names, _, n') := fold_left name_step cpts (∅, ∅, n) in (names, n').

(** [newDockerCompose]: the names first, then the volumes. *)
Definition newDockerCompose (r : RainbondApplicationConfig) (n : nat)
  : dockerCompose * list string * nat :=
  let '(names, n') := buildServiceNames (Components r) n in
  let st := buildVolumes names (Components r) in
  ({| ram := r;
      globalVolumes := volumeList st;
      serviceVolumes := componentVolumes st;
      serviceNames := names |}, warnings st, n').

(** The environment of an app before rendering. *)
Definition seedEnvs (app : Component) : gmap string string :=
  let envs : gmap string string :=
    match PortMapList app with
    | port :: _ => <["PORT" := port]> ∅
    | [] => ∅
    end in
  <["MEMORY_SIZE" := GetMemoryType (Memory app)]> envs.

Definition private_step (acc : gmap string string * nat) (item : EnvItem)
  : gmap string string * nat :=
  let '(envs, n) := acc in
  let envs := <[attr_name item := attr_value item]> envs in
  if String.eqb (at_key envs (attr_name item)) "**None**"
  then (<[attr_name item := Go.take 8 (NewUUID n)]> envs, S n)
  else (envs, n).

Definition public_step (envs : gmap string string) (item : EnvItem) : gmap string string :=
  <[attr_name item := attr_value item]> envs.

(** One dependency edge: the public environment of the app it names is
    written over [envs], and its name joins [depServices]. *)
Definition dep_step (apps : list Component)
    (acc : gmap string string * list string) (serviceKey : string)
  : gmap string string * list string :=
  let '(envs, depServices) := acc in
  let depEnvs := getPublicEnvByKey serviceKey apps in
  let envs := map_fold (fun k v acc => <[k := v]> acc) envs depEnvs in
  let svc := getDependedService serviceKey apps in
  if negb (String.eqb svc "")
  then (envs, depServices ++ [composeName LazyConvert svc])
  else (envs, depServices).

Definition mergeEnvs (apps : list Component) (app : Component) (n : nat)
  : gmap string string * list string * nat :=
  let '(envs, n') := fold_left private_step (ServiceEnvMapList app) (seedEnvs app, n) in
  let envs := fold_left public_step (ServiceConnectInfoMapList app) envs in
  let '(envs, depServices) := fold_left (dep_step apps) (DepServiceMapList app) (envs, []) in
  (envs, depServices, n').

Definition resolveEnvs (apps : list Component) (app : Component) (n : nat)
  : gmap string string :=
  let envs := (mergeEnvs apps app n).1.1 in renderEnvs (keyOrder envs) envs.

(** One app of the loop of [buildDockerComposeYaml]. *)
Definition service_step (d : dockerCompose) (apps : list Component)
    (acc : gmap string Service * nat) (app : Component) : gmap string Service * nat :=
  let '(services, n) := acc in
  let appName := GetServiceName (serviceNames d) (ServiceShareID app) in
  let volumes := GetServiceVolumes d (ServiceShareID app) in
  let '(envs, depServices, n') := mergeEnvs apps app n in
  let envs := renderEnvs (keyOrder envs) envs in
  let service :=
    {| Image := GenSaveImageName (ShareImage app);
       ContainerName := appName;
       Restart := "always";
       NetworkMode := "host";
       Volumes := volumes;
       Command := Cmd app;
       Environment := envs;
       DependsOn := depServices;
       Loggin := {| Driver := "json-file"; MaxSize := "5m"; MaxFile := "2" |} |} in
  (<[appName := service]> services, n').

(** The descriptor [buildDockerComposeYaml] marshals, for the manifest
    [r] read both as [apps] and as [ram]. *)
Definition composeYaml (r : RainbondApplicationConfig) (n : nat) : DockerComposeYaml :=
  let '(d, _, n') := newDockerCompose r n in
  let '(services, _) := fold_left (service_step d (Components r)) (Components r) (∅, n') in
  {| Version := "2.1";
     ComposeVolumes := GetGlobalVolumes d;
     Services := services |}.

End ComposeExport.

(** ** The export worker *)

Definition error := string.

Record ExportApp := { EventID : string; Format : string; SourceDir : string }.

(** The outcomes of [os.Stat]: no error, an error for which
    [os.IsNotExist] holds, any other error. *)
Inductive StatResult := StatFound | StatNotExist | StatFailed.

(** The stages of an export, each a method of [ExportApp] that returns an
    error or [nil]. *)
Inductive Step :=
  | DoCleanSourceDir
  | DoSaveApps
  | DoSavePlugins
  | DoSaveComponents
  | DoBuildDockerComposeYaml
  | DoBuildStartScript
  | DoZip
  | DoUpdateStatus (status : string).

(** What a run observes of the machine: the file system, the exit status
    of [md5sum -c], and the error, if any, each stage returns. *)
Record Host := {
  Stat : string -> StatResult;
  Md5sumCheck : string -> bool;
  ReadFile : string -> string + error;
  StepError : Step -> option error }.

(** [isLatest], with the lines it logs. *)
Definition isLatest (h : Host) (i : ExportApp) : bool * list string :=
  let md5File := SourceDir i +:+ "/metadata.json.md5" in
  match Stat h md5File with
  | StatNotExist => (false, ["The export app md5 file is not found: " +:+ md5File])
  | _ =>
      if negb (Md5sumCheck h md5File) then
        let tarFile := SourceDir i +:+ ".tar" in
        match Stat h tarFile with
        | StatNotExist => (false, ["The export app tar file is not found. "])
        | _ => (false, ["The export app tar file is not latest."])
        end
      else (true, ["The export app tar file is latest."])
  end.

(** The stages run in order; the first error ends the run.  The result is
    the error returned and the stages entered. *)
Fixpoint run_steps (h : Host) (steps trace : list Step) : option error * list Step :=
  match steps with
  | [] => (None, trace)
  | s :: rest =>
      match StepError h s with
      | Some err => (Some err, trace ++ [s])
      | None => run_steps h rest (trace ++ [s])
      end
  end.

Definition exportRainbondAPP (h : Host) (i : ExportApp) : option error * list Step :=
  if (isLatest h i).1 then (None, [DoUpdateStatus "success"])
  else run_steps h
         [DoCleanSourceDir; DoSaveApps; DoSavePlugins; DoZip; DoUpdateStatus "success"] [].

Definition exportDockerCompose (h : Host) (i : ExportApp) : option error * list Step :=
  if (isLatest h i).1 then (None, [DoUpdateStatus "success"])
  else run_steps h
         [DoCleanSourceDir; DoSaveComponents; DoBuildDockerComposeYaml;
          DoBuildStartScript; DoZip; DoUpdateStatus "success"] [].

Definition on_error (r : option error * list Step) : option error * list Step :=
  match r.1 with
  | Some _ => (r.1, r.2 ++ [DoUpdateStatus "failed"])
  | None => r
  end.

Definition Run (h : Host) (i : ExportApp) : option error * list Step :=
  if String.eqb (Format i) "rainbond-app" then on_error (exportRainbondAPP h i)
  else if String.eqb (Format i) "docker-compose" then on_error (exportDockerCompose h i)
  else (Some ("Unsupported the format: " +:+ Format i), []).

Section ManifestReader.

(** A [gjson.Result], and [gjson.GetBytes(data, path).Array()]. *)
Variable Result : Type.
Variable gjson_Array : string -> string -> list Result.

(** [parseApps]: the apps of the manifest, or the error returned. *)
Definition parseApps (h : Host) (i : ExportApp) : list Result + error :=
  match ReadFile h (SourceDir i +:+ "/metadata.json") with
  | inr err => inr err
  | inl data =>
      let arr := gjson_Array data "apps" in
      if (length arr <? 1)%nat then inr "Not found app in the metadata"
      else inl arr
  end.

End ManifestReader.

(** ** The discovery callback [Mq] *)

Module Callback.

(** Modelled from the spec: [config.Endpoint] is declared outside the
    sources; an endpoint carries a name and the address discovered. *)
Record Endpoint := { EndpointName : string; URL : string }.

Record Group := { Targets : list string; Labels : list (string * string) }.

(** Durations in seconds. *)
Record ScrapeConfig := {
  JobName : string;
  ScrapeInterval : Z;
  ScrapeTimeout : Z;
  MetricsPath : string;
  HonorLabels : bool;
  StaticConfigs : list Group }.

Record Mq := { sortedEndpoints : list string }.

Definition Name : string := "mq".

Definition toScrape (m : Mq) : ScrapeConfig :=
  let ts := fold_left (fun ts e => ts ++ [e]) (sortedEndpoints m) [] in
  {| JobName := Name;
     ScrapeInterval := 60;
     ScrapeTimeout := 30;
     MetricsPath := "/metrics";
     HonorLabels := true;
     StaticConfigs :=
       [{| Targets := ts;
           Labels := [("service_name", Name); ("component", Name)] |}] |}.

(** Modelled from the spec: [utils.ArrCompare] is not among the sources;
    it tells whether the endpoint list is unchanged. *)
Definition ArrCompare (arr1 arr2 : list string) : bool := bool_decide (arr1 = arr2).

Section Discover.

(** [gjson.Get(json, path).String()] and [utils.TrimAndSort]. *)
Variable gjson_Get : string -> string -> string.
Variable TrimAndSort : list Endpoint -> list string.

(** The copies of the endpoints, each [URL] replaced by the [Addr] field
    of the JSON document it holds. *)
Definition addrEndpoints (endpoints : list Endpoint) : list Endpoint :=
  map (fun e => {| EndpointName := EndpointName e; URL := gjson_Get (URL e) "Addr" |})
    endpoints.

(** [UpdateEndpoints]: the callback afterwards and the scrape
    configurations handed to [Prometheus.UpdateScrape]. *)
Definition UpdateEndpoints (m : Mq) (endpoints : list Endpoint) : Mq * list ScrapeConfig :=
  let newArr := TrimAndSort (addrEndpoints endpoints) in
  if ArrCompare (sortedEndpoints m) newArr then (m, [])
  else
    let m' := {| sortedEndpoints := newArr |} in
    (m', [toScrape m']).

End Discover.

End Callback.

(** ** Reading of the specification and sample inputs *)

(** The text that the specification gives a piece following the marker:
    nothing for a piece of at most three bytes, otherwise the character
    its first four bytes spell in hexadecimal followed by the rest, or
    the piece as it stands when they spell none. *)
Definition piece_text (char : string) : string :=
  if (Go.len char <=? 3)%nat then ""
  else
    match Go.ParseInt16 (Go.take 4 char) with
    | Some zh => Go.Sprintf_c zh +:+ Go.drop 4 char
    | None => char
    end.

(** A host on which the checksum sidecar verifies and no archive is left. *)
Definition stale_host : Host :=
  {| Stat := fun f =>
       if String.eqb f "/grdata/app/demo/metadata.json.md5" then StatFound
       else StatNotExist;
     Md5sumCheck := fun _ => true;
     ReadFile := fun _ => inr "no such file or directory";
     StepError := fun _ => None |}.

Definition compose_task : ExportApp :=
  {| EventID := "e1"; Format := "docker-compose"; SourceDir := "/grdata/app/demo" |}.

(** Three variables, each referring to the next. *)
Definition chain_envs : gmap string string :=
  <["A" := "${B}"]> (<["B" := "${C}"]> (<["C" := "x"]> ∅)).

(** The named volumes the specification gives a component: one per
    volume that is not a config file, called after the service and the
    volume. *)
Definition named_volume (serviceName : string) (vol : ComponentVolume) : list string :=
  if String.eqb (VolumeType vol) "config-file" then []
  else [serviceName +:+ "_" +:+ VolumeName vol].

Definition named_volumes (names : gmap string string) (cpt : Component) : list string :=
  flat_map (named_volume (GetServiceName names (ServiceShareID cpt)))
    (ServiceVolumeMapList cpt).

(** A component of a sample manifest. *)
Definition sample (cname id : string) (private public : list EnvItem)
    (deps : list string) (vols : list ComponentVolume) (mnt : list ComponentVolumeDep)
  : Component :=
  {| ServiceCname := cname;
     ServiceShareID := id;
     ShareImage := "goodrain.me/" +:+ cname;
     Memory := 512;
     Cmd := "";
     PortMapList := [];
     ServiceEnvMapList := private;
     ServiceConnectInfoMapList := public;
     DepServiceMapList := deps;
     ServiceVolumeMapList := vols;
     MntReleationList := mnt |}.

(** Component [b] asks for the volume [bc] of component [a], which
    declares none; component [ab] declares a volume [c]. *)
Definition mount_manifest : RainbondApplicationConfig :=
  {| AppName := "demo";
     Components :=
       [sample "x" "ab" [] [] []
          [{| VolumeName := "c"; VolumeMountPath := "/data";
              VolumeType := "share-file"; FileConent := "" |}] [];
        sample "a" "a" [] [] [] [] [];
        sample "b" "b" [] [] [] []
          [{| ShareServiceUUID := "a"; DepVolumeName := "bc"; VolumeMountDir := "/mnt" |}]] |}.

(** Component [web] depends on the second of two components that are
    both called [db]; the two differ in their start command. *)
Definition with_cmd (cmd : string) (c : Component) : Component :=
  {| ServiceCname := ServiceCname c;
     ServiceShareID := ServiceShareID c;
     ShareImage := ShareImage c;
     Memory := Memory c;
     Cmd := cmd;
     PortMapList := PortMapList c;
     ServiceEnvMapList := ServiceEnvMapList c;
     ServiceConnectInfoMapList := ServiceConnectInfoMapList c;
     DepServiceMapList := DepServiceMapList c;
     ServiceVolumeMapList := ServiceVolumeMapList c;
     MntReleationList := MntReleationList c |}.

(** A component with other dependent volumes. *)
Definition with_mnt (mnt : list ComponentVolumeDep) (c : Component) : Component :=
  {| ServiceCname := ServiceCname c;
     ServiceShareID := ServiceShareID c;
     ShareImage := ShareImage c;
     Memory := Memory c;
     Cmd := Cmd c;
     PortMapList := PortMapList c;
     ServiceEnvMapList := ServiceEnvMapList c;
     ServiceConnectInfoMapList := ServiceConnectInfoMapList c;
     DepServiceMapList := DepServiceMapList c;
     ServiceVolumeMapList := ServiceVolumeMapList c;
     MntReleationList := mnt |}.

Definition twin_manifest : RainbondApplicationConfig :=
  {| AppName := "demo";
     Components :=
       [sample "web" "3" [] [] ["2"] [] [];
        with_cmd "mysqld --server-id=1" (sample "db" "1" [] [] [] [] []);
        with_cmd "mysqld --server-id=2" (sample "db" "2" [] [] [] [] [])] |}.

(** Three components of one name, and a generator whose results all
    start with the same four characters. *)
Definition triple_manifest : RainbondApplicationConfig :=
  {| AppName := "demo";
     Components :=
       [sample "db" "1" [] [] [] [] [];
        sample "db" "2" [] [] [] [] [];
        sample "db" "3" [] [] [] [] []] |}.

Definition stuck_uuid (_ : nat) : string := "5f3a9c0e7b1d4a68b2c4d6e8f0a1b3c5".

(** A component whose name holds letters outside ASCII. *)
Definition lodz_manifest : RainbondApplicationConfig :=
  {| AppName := "demo"; Components := [sample "Łódź" "1" [] [] [] [] []] |}.

(** A full match of [[A-Za-z0-9._-]+]. *)
Definition valid_name (s : string) : bool :=
  negb (String.eqb s "") && forallb matched (Go.bytes s).

(** Component [web] sets [MYSQL_HOST] itself and depends on [mysql],
    which publishes [MYSQL_HOST] too. *)
Definition override_manifest : RainbondApplicationConfig :=
  {| AppName := "demo";
     Components :=
       [sample "mysql" "1" []
          [{| attr_name := "MYSQL_HOST"; attr_value := "10.0.0.5" |}] [] [] [];
        sample "web" "2"
          [{| attr_name := "MYSQL_HOST"; attr_value := "localhost" |}] [] ["1"] [] []] |}.

(** Parameters of a sample run: no pinyin table, one memory class, image
    names kept, keys enumerated in the order of the map's list. *)
Definition no_pinyin (_ : string) : list string := [].
Definition small_memory (_ : Z) : string := "small".
Definition same_image (image : string) : string := image.
Definition listed_order (m : gmap string string) : list string := (map_to_list m).*1.

(** A value that holds no [$], hence no reference to a variable. *)
Definition plain (v : string) : bool :=
  forallb (λ c, negb (Ascii.eqb c "$")) (list_ascii_of_string v).

(** Component [b] asks for two volumes of component [a], which declares
    the second only. *)
Definition logs_edge : ComponentVolumeDep :=
  {| ShareServiceUUID := "1"; DepVolumeName := "logs"; VolumeMountDir := "/mnt/logs" |}.

Definition data_edge : ComponentVolumeDep :=
  {| ShareServiceUUID := "1"; DepVolumeName := "data"; VolumeMountDir := "/mnt/a-data" |}.

Definition data_owner : Component :=
  sample "a" "1" [] [] []
    [{| VolumeName := "data"; VolumeMountPath := "/var/lib/data";
        VolumeType := "share-file"; FileConent := "" |}] [].

Definition data_user : Component := sample "b" "2" [] [] [] [] [logs_edge; data_edge].

(** [st] is [st'] with one more warning, [line]. *)
Definition one_more_warning (line : string) (st st' : VolumeState) : Prop :=
  componentVolumes st = componentVolumes st' ∧
  volumeList st = volumeList st' ∧
  volumeMaps st = volumeMaps st' ∧
  ∃ w1 w2, warnings st' = w1 ++ w2 ∧ warnings st = w1 ++ line :: w2.

(** An element of a clean path: not empty, not [.] or [..], without a
    slash. *)
Definition no_slash (x : string) : bool :=
  forallb (λ c, negb (Ascii.eqb c "/")) (list_ascii_of_string x).

Definition element (x : string) : bool :=
  negb (String.eqb x "") && negb (String.eqb x ".") && negb (String.eqb x "..")
  && no_slash x.

(** The names the loop of [buildDockerComposeYaml] lists under
    [depends_on] for the edges [deps]: the sanitized [service_cname] of
    each app found, unless it is empty. *)
Definition depended_names (LazyConvert : string → list string) (apps : list Component)
    (deps : list string) : list string :=
  flat_map (λ key,
    let svc := getDependedService key apps in
    if String.eqb svc "" then [] else [composeName LazyConvert svc]) deps.

(** Stand-ins for the libraries in the examples: a document whose apps
    are its comma-separated fields, endpoints whose address is their URL,
    and a list of addresses left in the order given. *)
Definition fields_of (data path : string) : list string :=
  if String.eqb data "" then [] else Go.Split data ",".

Definition readable_host (data : string) : Host :=
  {| Stat := fun _ => StatFound;
     Md5sumCheck := fun _ => false;
     ReadFile := fun f =>
       if String.eqb f "/grdata/app/demo/metadata.json" then inl data
       else inr "no such file or directory";
     StepError := fun _ => None |}.

Definition addr_of (json path : string) : string := json.

Definition urls_of (endpoints : list Callback.Endpoint) : list string :=
  map Callback.URL endpoints.

(** A component [nginx] with the volumes given, and a manifest of it with
    a config file and a volume for its logs. *)
Definition nginx_conf : ComponentVolume :=
  {| VolumeName := "conf"; VolumeMountPath := "/etc/nginx/nginx.conf";
     VolumeType := "config-file"; FileConent := "worker_processes 1;" |}.

Definition nginx_logs : ComponentVolume :=
  {| VolumeName := "logs"; VolumeMountPath := "/var/log/nginx";
     VolumeType := "share-file"; FileConent := "" |}.

Definition nginx_with (vols : list ComponentVolume) : Component :=
  sample "nginx" "1" [] [] [] vols [].

Definition config_manifest : RainbondApplicationConfig :=
  {| AppName := "demo"; Components := [nginx_with [nginx_conf; nginx_logs]] |}.

(** Config files whose mount path climbs out of the root, or is empty. *)
Definition dotdot_conf : ComponentVolume :=
  {| VolumeName := "conf"; VolumeMountPath := "/../x.conf";
     VolumeType := "config-file"; FileConent := "x" |}.

Definition empty_conf : ComponentVolume :=
  {| VolumeName := "conf"; VolumeMountPath := "";
     VolumeType := "config-file"; FileConent := "x" |}.

(** ** File names of exported images *)

Module GoStrings.

(** [strings.Replace(s, old, new, -1)] for a non-empty [old]: the pieces
    between the occurrences of [old], joined by [new]. *)
Definition Replace (s old new : string) : string :=
  Go.join_with new (Go.Split s old).

(** [strings.TrimRight(s, cutset)] for a cutset of one ASCII byte [c]: the
    bytes [c] at the end of [s] removed. *)
Fixpoint TrimRightByte (c : ascii) (s : string) : string :=
  match s with
  | EmptyString => EmptyString
  | String a s' =>
      let t := TrimRightByte c s' in
      if String.eqb t "" && Ascii.eqb a c then EmptyString else String a t
  end.

(** [strings.Contains]. *)
Fixpoint Contains (s substr : string) : bool :=
  Go.has_prefix substr s ||
  match s with
  | EmptyString => false
  | String _ s' => Contains s' substr
  end.

(** The bytes the pattern [\s] matches: tab, line feed, form feed,
    carriage return and space. *)
Definition is_space_byte (a : ascii) : bool :=
  let b := Go.byte_val a in
  (b =? 9) || (b =? 10) || (b =? 12) || (b =? 13) || (b =? 32).

(** [re.ReplaceAllString(s, "")] for [re = regexp.MustCompile(`\s`)]:
    every byte the pattern matches removed. *)
Fixpoint remove_spaces (s : string) : string :=
  match s with
  | EmptyString => EmptyString
  | String a s' =>
      if is_space_byte a then remove_spaces s' else String a (remove_spaces s')
  end.

End GoStrings.

(** [buildToLinuxFileName]: the part behind the last slash, or the whole
    name with slashes replaced when nothing follows the last slash; colons
    replaced and white space removed. *)
Definition buildToLinuxFileName (fileName : string) : string :=
  if String.eqb fileName "" then fileName
  else
    let arr := Go.Split fileName "/" in
    let str := List.last arr "" in
    let fileName :=
      if String.eqb str "" then GoStrings.Replace fileName "/" "---" else str in
    let fileName := GoStrings.Replace fileName ":" "--" in
    GoStrings.remove_spaces fileName.

(** A string without the byte [c]. *)
Definition no_char (c : ascii) (x : string) : bool :=
  forallb (λ a, negb (Ascii.eqb a c)) (list_ascii_of_string x).

Definition no_space (x : string) : bool :=
  forallb (λ a, negb (GoStrings.is_space_byte a)) (list_ascii_of_string x).

(** The escape of a code point below [0x10000] as the manifest writes
    it: the marker and four hexadecimal digits. *)
Definition hex_char (d : Z) : ascii :=
  Go.byte_of (if d <? 10 then 48 + d else 87 + d).

Definition hex4 (r : Z) : string :=
  String (hex_char (r / 4096 mod 16))
    (String (hex_char (r / 256 mod 16))
       (String (hex_char (r / 16 mod 16))
          (String (hex_char (r mod 16)) EmptyString))).

Definition escape (r : Z) : string := "\\u" +:+ hex4 r.

(** What [unicode2zh] is to make of the escape of [r]. *)
Definition escape_decoded (r : Z) : bool :=
  String.eqb (unicode2zh (escape r))
    (if Go.IsSpace r then "" else Go.EncodeRune r).

(** [f] holds of the [n] integers from [z] on. *)
Fixpoint all_from (f : Z → bool) (z : Z) (n : nat) : bool :=
  match n with
  | O => true
  | S n' => f z && all_from f (z + 1) n'
  end.

(** Every byte of [s] matches [[a-zA-Z0-9._-]]. *)
Definition valid_bytes (s : string) : bool := forallb matched (Go.bytes s).

(** ** Readings of the registry and of the volumes *)

(** The sanitized name of a component. *)
Definition sanitized (LazyConvert : string → list string) (cpt : Component) : string :=
  composeName LazyConvert (ServiceCname cpt).

(** The left side [buildVolume] gives a volume of a component, the binds
    of a component's own volumes, and the binds of its dependent volumes
    that are found in [vmaps]. *)
Definition composeVolume (names : gmap string string) (cpt : Component)
    (vol : ComponentVolume) : string :=
  (buildVolume (GetServiceName names (ServiceShareID cpt)) vol).1.2.

Definition own_binds (names : gmap string string) (cpt : Component) : list string :=
  map (λ vol, (buildVolume (GetServiceName names (ServiceShareID cpt)) vol).1.1)
    (ServiceVolumeMapList cpt).

Definition missing (vmaps : gmap string string) (dvol : ComponentVolumeDep) : bool :=
  String.eqb (at_key vmaps (ShareServiceUUID dvol +:+ DepVolumeName dvol)) "".

Definition dep_bind (vmaps : gmap string string) (dvol : ComponentVolumeDep) : list string :=
  if missing vmaps dvol then []
  else [at_key vmaps (ShareServiceUUID dvol +:+ DepVolumeName dvol)
          +:+ ":" +:+ VolumeMountDir dvol].

Definition dep_binds (vmaps : gmap string string) (cpt : Component) : list string :=
  flat_map (dep_bind vmaps) (MntReleationList cpt).

(** ** Readings of the environment and of a run *)

(** The private entries that ask for a generated value. *)
Definition placeholders (items : list EnvItem) : list EnvItem :=
  List.filter (λ item, String.eqb (attr_value item) "**None**") items.

(** The formats [Run] knows. *)
Definition supported (format : string) : bool :=
  String.eqb format "rainbond-app" || String.eqb format "docker-compose".

(** The stages of the two exports on a workspace that is not up to date. *)
Definition compose_stages : list Step :=
  [DoCleanSourceDir; DoSaveComponents; DoBuildDockerComposeYaml;
   DoBuildStartScript; DoZip; DoUpdateStatus "success"].

Definition rainbond_stages : list Step :=
  [DoCleanSourceDir; DoSaveApps; DoSavePlugins; DoZip; DoUpdateStatus "success"].

(** A run of [stages] that returned [err] after entering [trace]: every
    stage was entered and none failed, or the stages up to the first
    failing one were entered and its error returned. *)
Definition ran (h : Host) (stages : list Step) (err : option error) (trace : list Step)
  : Prop :=
  match err with
  | None => trace = stages ∧ ∀ s, s ∈ stages → StepError h s = None
  | Some e =>
      ∃ before s after,
        stages = before ++ s :: after ∧ trace = before ++ [s] ∧
        StepError h s = Some e ∧ ∀ s', s' ∈ before → StepError h s' = None
  end.

(** A host on which the sidecar is missing and zipping fails. *)
Definition failing_host : Host :=
  {| Stat := fun _ => StatNotExist;
     Md5sumCheck := fun _ => false;
     ReadFile := fun _ => inr "no such file or directory";
     StepError := fun s =>
       match s with
       | DoZip => Some "zip: no space left on device"
       | _ => None
       end |}.

(** ** Staging of the components *)

(** [findDepVolume]: the first volume called [volumeName] among the
    volumes filed under [key], [None] standing for [nil]. *)
Fixpoint find_volume (volumeName : string) (vols : list ComponentVolume)
  : option ComponentVolume :=
  match vols with
  | [] => None
  | vol :: rest =>
      if String.eqb (VolumeName vol) volumeName then Some vol
      else find_volume volumeName rest
  end.

Definition findDepVolume (allVolumes : gmap string (list ComponentVolume))
    (key volumeName : string) : option ComponentVolume :=
  find_volume volumeName (default [] (allVolumes !! key)).

(** The first part of [path.Split]: the path up to its last slash, the
    slash included. *)
Fixpoint dir_part (p : string) : string :=
  match p with
  | EmptyString => EmptyString
  | String a p' =>
      let t := dir_part p' in
      if Ascii.eqb a "/" || negb (String.eqb t "") then String a t else EmptyString
  end.

(** [path.Dir]. *)
Definition Dir (p : string) : string := Go.Clean (dir_part p).

(** The file [exportComponentConfigFile] writes for a volume. *)
Definition configFileName (serviceDir : string) (v : ComponentVolume) : string :=
  GoStrings.TrimRightByte "/" serviceDir +:+ VolumeMountPath v.

(** What staging does to the file system and to the image service. *)
Inductive Effect :=
  | MkdirAll (dir : string)
  | WriteFile (filename content : string)
  | ImagePull (image user password : string)
  | ImageTag (source target : string)
  | ImageSave (image file : string)
  | MultiImageSave (file : string) (images : list string).

Section Staging.

Variable LazyConvert : string -> list string.
Variable NewUUID : nat -> string.
Variable GenSaveImageName : string -> string.
(** The fields [AppImage.HubUser] and [AppImage.HubPassword] of a
    component. *)
Variable HubUser HubPassword : Component -> string.
(** The error, if any, with which an operation ends.  The result of
    [os.MkdirAll] is not looked at. *)
Variable fails : Effect -> option error.

Definition exportComponentConfigFile (serviceDir : string) (v : ComponentVolume)
  : option error * list Effect :=
  let filename := configFileName serviceDir v in
  (fails (WriteFile filename (FileConent v)),
   [MkdirAll (Dir filename); WriteFile filename (FileConent v)]).

(** [pullImage]: pull, then tag under the name to save. *)
Definition pullImage (component : Component) : (string + error) * list Effect :=
  let pull :=
    ImagePull (ShareImage component) (HubUser component) (HubPassword component) in
  match fails pull with
  | Some err => (inr err, [pull])
  | None =>
      let saveImageName := GenSaveImageName (ShareImage component) in
      let tag := ImageTag (ShareImage component) saveImageName in
      match fails tag with
      | Some err => (inr err, [pull; tag])
      | None => (inl saveImageName, [pull; tag])
      end
  end.

(** The inner loop of [saveComponents] over the volumes of a component. *)
Fixpoint export_config_files (serviceDir : string) (volumes : list ComponentVolume)
  : option error * list Effect :=
  match volumes with
  | [] => (None, [])
  | v :: rest =>
      if String.eqb (VolumeType v) "config-file" then
        match exportComponentConfigFile serviceDir v with
        | (Some err, effects) => (Some err, effects)
        | (None, effects) =>
            let '(err, effects') := export_config_files serviceDir rest in
            (err, effects ++ effects')
        end
      else export_config_files serviceDir rest
  end.

(** The loop of [saveComponents] over the components. *)
Fixpoint save_loop (sourceDir : string) (names : gmap string string)
    (components : list Component) (componentImageNames : list string)
  : (list string + error) * list Effect :=
  match components with
  | [] => (inl componentImageNames, [])
  | component :: rest =>
      let componentEnName := GetServiceName names (ServiceShareID component) in
      let serviceDir := sourceDir +:+ "/" +:+ componentEnName in
      match export_config_files serviceDir (ServiceVolumeMapList component) with
      | (Some err, effects) => (inr err, MkdirAll serviceDir :: effects)
      | (None, effects) =>
          if negb (String.eqb (ShareImage component) "") then
            match pullImage component with
            | (inr err, pulled) => (inr err, MkdirAll serviceDir :: effects ++ pulled)
            | (inl localImageName, pulled) =>
                let '(r, later) :=
                  save_loop sourceDir names rest (componentImageNames ++ [localImageName]) in
                (r, MkdirAll serviceDir :: effects ++ pulled ++ later)
            end
          else
            let '(r, later) := save_loop sourceDir names rest componentImageNames in
            (r, MkdirAll serviceDir :: effects ++ later)
      end
  end.

Definition saveComponentImages (sourceDir : string) (images : list string)
  : option error * list Effect :=
  let save := MultiImageSave (sourceDir +:+ "/component-images.tar") images in
  (fails save, [save]).

(** [saveComponents], for the manifest [parseApp] returned or its error. *)
Definition saveComponents (i : ExportApp) (app : RainbondApplicationConfig + error)
    (n : nat) : option error * list Effect :=
  match app with
  | inr err => (Some err, [])
  | inl r =>
      let '(dockerCompose, _, _) := newDockerCompose LazyConvert NewUUID r n in
      match save_loop (SourceDir i) (serviceNames dockerCompose) (Components r) [] with
      | (inr err, effects) => (Some err, effects)
      | (inl componentImageNames, effects) =>
          let '(err, saved) := saveComponentImages (SourceDir i) componentImageNames in
          (err, effects ++ saved)
      end
  end.

End Staging.



(** An image service and a file system on which nothing fails. *)
Definition never_fails (_ : Effect) : option error := None.
Definition no_credentials (_ : Component) : string := "".

(** A manifest of a component with a config file and an image, and one
    with neither. *)
Definition staging_manifest : RainbondApplicationConfig :=
  {| AppName := "demo";
     Components :=
       [sample "nginx" "1" [] [] []
          [{| VolumeName := "conf"; VolumeMountPath := "/etc/nginx/nginx.conf";
              VolumeType := "config-file"; FileConent := "worker_processes 1;" |};
           {| VolumeName := "logs"; VolumeMountPath := "/var/log/nginx";
              VolumeType := "share-file"; FileConent := "" |}] [];
        {| ServiceCname := "job"; ServiceShareID := "2"; ShareImage := ""; Memory := 128;
           Cmd := ""; PortMapList := []; ServiceEnvMapList := [];
           ServiceConnectInfoMapList := []; DepServiceMapList := [];
           ServiceVolumeMapList := []; MntReleationList := [] |}] |}.


(** What a write of [saveComponents] is: the content of a config-file
    volume of a component, at the path of that volume below the directory
    of the component. *)
Definition config_write (sourceDir : string) (names : gmap string string)
    (components : list Component) (e : Effect) : Prop :=
  match e with
  | WriteFile filename content =>
      ∃ c vol, c ∈ components ∧ vol ∈ ServiceVolumeMapList c ∧
        VolumeType vol = "config-file" ∧
        filename = configFileName
                     (sourceDir +:+ "/" +:+ GetServiceName names (ServiceShareID c)) vol ∧
        content = FileConent vol
  | _ => True
  end.


(** ** Staging of the apps, the plugins and the runner image *)

Section Attachments.

(** A [gjson.Result], with [gjson.GetBytes(data, path).Array()],
    [r.Get(path).String()] and [r.Get(path).Array()]. *)
Variable Result : Type.
Variable gjson_Array : string -> string -> list Result.
Variable get : Result -> string -> string.
Variable array : Result -> string -> list Result.
(** [builder.GetImageUserInfo], [sources.GenSaveImageName] and the
    constants [builder.RUNNERIMAGENAME], [builder.REGISTRYUSER] and
    [builder.REGISTRYPASS]. *)
Variable GetImageUserInfo : string -> string -> string * string.
Variable GenSaveImageName : string -> string.
Variable RUNNERIMAGENAME REGISTRYUSER REGISTRYPASS : string.
Variable fails : Effect -> option error.
Variable h : Host.

Definition checkIsRunner (image : string) : bool :=
  GoStrings.Contains image RUNNERIMAGENAME.

Definition exportConfigFile (serviceDir : string) (v : Result)
  : option error * list Effect :=
  let serviceDir := GoStrings.TrimRightByte "/" serviceDir in
  let fc := get v "file_content" in
  let vp := get v "volume_path" in
  let filename := serviceDir +:+ vp in
  (fails (WriteFile filename fc), [MkdirAll (Dir filename); WriteFile filename fc]).

(** [exportImage]: pull, tag and save the image of an app, unless it is
    the runner image. *)
Definition exportImage (serviceDir : string) (app : Result) : option error * list Effect :=
  let mkdir := MkdirAll serviceDir in
  let image := get app "share_image" in
  let tarFileName := buildToLinuxFileName image in
  let '(user, pass) :=
    GetImageUserInfo (get app "service_image.hub_user")
      (get app "service_image.hub_password") in
  if checkIsRunner image then (None, [mkdir])
  else
    let pull := ImagePull image user pass in
    match fails pull with
    | Some err => (Some err, [mkdir; pull])
    | None =>
        let saveImageName := GenSaveImageName image in
        let tag := ImageTag image saveImageName in
        match fails tag with
        | Some err => (Some err, [mkdir; pull; tag])
        | None =>
            let save :=
              ImageSave saveImageName
                (serviceDir +:+ "/" +:+ tarFileName +:+ ".image.tar") in
            (fails save, [mkdir; pull; tag; save])
        end
    end.

(** The inner loop of [saveApps] over the volumes of an app. *)
Fixpoint export_volumes (serviceDir : string) (volumes : list Result)
  : option error * list Effect :=
  match volumes with
  | [] => (None, [])
  | v :: rest =>
      match exportConfigFile serviceDir v with
      | (Some err, effects) => (Some err, effects)
      | (None, effects) =>
          let '(err, later) := export_volumes serviceDir rest in
          (err, effects ++ later)
      end
  end.

(** The loop of [saveApps] over the apps. *)
Fixpoint save_apps (sourceDir : string) (apps : list Result) : option error * list Effect :=
  match apps with
  | [] => (None, [])
  | app :: rest =>
      let serviceName := unicode2zh (get app "service_cname") in
      let serviceDir := sourceDir +:+ "/" +:+ serviceName in
      let shareImage := get app "share_image" in
      match export_volumes serviceDir (array app "service_volume_map_list") with
      | (Some err, effects) => (Some err, MkdirAll serviceDir :: effects)
      | (None, effects) =>
          if negb (String.eqb shareImage "") then
            match exportImage serviceDir app with
            | (Some err, exported) => (Some err, MkdirAll serviceDir :: effects ++ exported)
            | (None, exported) =>
                let '(err, later) := save_apps sourceDir rest in
                (err, MkdirAll serviceDir :: effects ++ exported ++ later)
            end
          else
            let '(err, later) := save_apps sourceDir rest in
            (err, MkdirAll serviceDir :: effects ++ later)
      end
  end.

Definition saveApps (i : ExportApp) : option error * list Effect :=
  match parseApps Result gjson_Array h i with
  | inr err => (Some err, [])
  | inl apps => save_apps (SourceDir i) apps
  end.

(** The loop of [savePlugins]. *)
Fixpoint save_plugins (sourceDir : string) (plugins : list Result)
  : option error * list Effect :=
  match plugins with
  | [] => (None, [])
  | plugin :: rest =>
      let pluginName := unicode2zh (get plugin "plugin_name") in
      let pluginDir := sourceDir +:+ "/" +:+ pluginName in
      let mkdir := MkdirAll pluginDir in
      let image := get plugin "share_image" in
      let tarFileName := buildToLinuxFileName image in
      let '(user, pass) :=
        GetImageUserInfo (get plugin "plugin_image.hub_user")
          (get plugin "plugin_image.hub_password") in
      let pull := ImagePull image user pass in
      match fails pull with
      | Some err => (Some err, [mkdir; pull])
      | None =>
          let saveImageName := GenSaveImageName image in
          let tag := ImageTag image saveImageName in
          match fails tag with
          | Some err => (Some err, [mkdir; pull; tag])
          | None =>
              let save :=
                ImageSave saveImageName
                  (pluginDir +:+ "/" +:+ tarFileName +:+ ".image.tar") in
              match fails save with
              | Some err => (Some err, [mkdir; pull; tag; save])
              | None =>
                  let '(err, later) := save_plugins sourceDir rest in
                  (err, mkdir :: pull :: tag :: save :: later)
              end
          end
      end
  end.

Definition savePlugins (i : ExportApp) : option error * list Effect :=
  match ReadFile h (SourceDir i +:+ "/metadata.json") with
  | inr err => (Some err, [])
  | inl data => save_plugins (SourceDir i) (gjson_Array data "plugins")
  end.

(** Whether the loop of [exportRunnerImage] stops at an app. *)
Definition uses_runner (app : Result) : bool :=
  negb (String.eqb (get app "language") "dockerfile") && checkIsRunner (get app "image").

(** The loop of [exportRunnerImage]: the image at which it breaks. *)
Fixpoint find_runner (apps : list Result) : option string :=
  match apps with
  | [] => None
  | app :: rest => if uses_runner app then Some (get app "image") else find_runner rest
  end.

(** [exportRunnerImage]: a pull that fails is logged, and the image is
    saved all the same. *)
Definition exportRunnerImage (i : ExportApp) : option error * list Effect :=
  match parseApps Result gjson_Array h i with
  | inr err => (Some err, [])
  | inl apps =>
      match find_runner apps with
      | None => (None, [])
      | Some image =>
          let tarFileName := buildToLinuxFileName image in
          let pull := ImagePull image REGISTRYUSER REGISTRYPASS in
          let save :=
            ImageSave image (SourceDir i +:+ "/" +:+ tarFileName +:+ ".image.tar") in
          (fails save, [pull; save])
      end
  end.

(** What staging an app is to do when nothing fails. *)
Definition volume_plan (serviceDir : string) (v : Result) : list Effect :=
  let filename := GoStrings.TrimRightByte "/" serviceDir +:+ get v "volume_path" in
  [MkdirAll (Dir filename); WriteFile filename (get v "file_content")].

Definition image_plan (dir image user pass : string) : list Effect :=
  [ImagePull image user pass;
   ImageTag image (GenSaveImageName image);
   ImageSave (GenSaveImageName image)
     (dir +:+ "/" +:+ buildToLinuxFileName image +:+ ".image.tar")].

Definition app_plan (sourceDir : string) (app : Result) : list Effect :=
  let serviceDir := sourceDir +:+ "/" +:+ unicode2zh (get app "service_cname") in
  let image := get app "share_image" in
  let login :=
    GetImageUserInfo (get app "service_image.hub_user")
      (get app "service_image.hub_password") in
  MkdirAll serviceDir
  :: flat_map (volume_plan serviceDir) (array app "service_volume_map_list")
  ++ (if String.eqb image "" then []
      else MkdirAll serviceDir
           :: (if checkIsRunner image then []
               else image_plan serviceDir image login.1 login.2)).

Definition plugin_plan (sourceDir : string) (plugin : Result) : list Effect :=
  let pluginDir := sourceDir +:+ "/" +:+ unicode2zh (get plugin "plugin_name") in
  let image := get plugin "share_image" in
  let login :=
    GetImageUserInfo (get plugin "plugin_image.hub_user")
      (get plugin "plugin_image.hub_password") in
  MkdirAll pluginDir :: image_plan pluginDir image login.1 login.2.

(** Operations carried out in order up to the first that fails; the
    outcome of [MkdirAll] is not looked at. *)
Fixpoint perform (plan : list Effect) : option error * list Effect :=
  match plan with
  | [] => (None, [])
  | e :: rest =>
      match (match e with MkdirAll _ => None | _ => fails e end) with
      | Some err => (Some err, [e])
      | None => let '(err, later) := perform rest in (err, e :: later)
      end
  end.

End Attachments.

(** A manifest entry as the fields it holds; none of them is an array. *)
Definition Fields := list (string * string).

Fixpoint field (r : Fields) (path : string) : string :=
  match r with
  | [] => ""
  | (k, v) :: rest => if String.eqb k path then v else field rest path
  end.

Definition no_array (_ : Fields) (_ : string) : list Fields := [].
Definition same_login (user pass : string) : string * string := (user, pass).

(** Two apps built on the runner image, the first from a Dockerfile. *)
Definition runner_apps : list Fields :=
  [[("service_cname", "built"); ("language", "dockerfile");
    ("image", "goodrain.me/runner:latest"); ("share_image", "goodrain.me/built:v1")];
   [("service_cname", "web"); ("language", "Python");
    ("image", "goodrain.me/runner:latest"); ("share_image", "goodrain.me/runner:latest")];
   [("service_cname", "db"); ("language", "");
    ("image", "goodrain.me/mysql:5.7"); ("share_image", "goodrain.me/mysql:5.7")]].

Definition runner_host : Host :=
  {| Stat := λ _, StatNotExist;
     Md5sumCheck := λ _, false;
     ReadFile := λ _, inl "{}";
     StepError := λ _, None |}.

(** A registry that cannot be reached: every pull fails. *)
Definition pull_fails (e : Effect) : option error :=
  match e with
  | ImagePull _ _ _ => Some "pull failed"
  | _ => None
  end.

(** The error, if any, that ends the staging at an operation. *)
Definition outcome (fails : Effect → option error) (e : Effect) : option error :=
  match e with
  | MkdirAll _ => None
  | _ => fails e
  end.

(** A plan carried out up to its first failure: without an error all of
    it was done and nothing failed; with an error, what was done is the
    plan up to the operation that gave the error, and nothing before it
    failed. *)
Definition carried_out (fails : Effect → option error) (plan : list Effect)
    (result : option error * list Effect) : Prop :=
  match result with
  | (None, done) => done = plan ∧ Forall (λ e, outcome fails e = None) plan
  | (Some err, done) =>
      ∃ before e after, plan = before ++ e :: after ∧ done = before ++ [e] ∧
        outcome fails e = Some err ∧ Forall (λ e, outcome fails e = None) before
  end.

Definition runner_array (_ path : string) : list Fields :=
  if String.eqb path "apps" then runner_apps else [].

(** What [saveApps] may do with an image: pull and tag only images that
    are not the runner image, and save only the image of such an app,
    under its name to save, into the directory of the app. *)
Definition spares_runner {Result : Type} (get : Result → string → string)
    (GenSaveImageName : string → string) (RUNNERIMAGENAME sourceDir : string)
    (apps : list Result) (e : Effect) : Prop :=
  match e with
  | ImagePull image _ _ | ImageTag image _ => checkIsRunner RUNNERIMAGENAME image = false
  | ImageSave name file =>
      ∃ app, app ∈ apps ∧
        checkIsRunner RUNNERIMAGENAME (get app "share_image") = false ∧
        name = GenSaveImageName (get app "share_image") ∧
        file = (sourceDir +:+ "/" +:+ unicode2zh (get app "service_cname")) +:+ "/"
               +:+ buildToLinuxFileName (get app "share_image") +:+ ".image.tar"
  | MultiImageSave _ _ => False
  | _ => True
  end.

(** A service of the compose file that stands for a component: its key
    is its container name and the registered name of the component, and
    it takes the image, the command and the volumes of the component. *)
Definition describes (GenSaveImageName : string → string) (d : dockerCompose)
    (cpts : list Component) (key : string) (svc : Service) : Prop :=
  ContainerName svc = key ∧
  ∃ c, c ∈ cpts ∧ key = GetServiceName (serviceNames d) (ServiceShareID c) ∧
    Image svc = GenSaveImageName (ShareImage c) ∧ Command svc = Cmd c ∧
    Volumes svc = GetServiceVolumes d (ServiceShareID c).

(** A generator whose first call and later calls differ, and a manifest
    of two components called [db], the second with a config file. *)
Definition two_uuids (n : nat) : string :=
  match n with
  | O => "aaaa0000000000000000000000000000"
  | S _ => "bbbb1111111111111111111111111111"
  end.

Definition twin_conf_manifest : RainbondApplicationConfig :=
  {| AppName := "demo";
     Components :=
       [sample "db" "1" [] [] [] [] [];
        sample "db" "2" [] [] []
          [{| VolumeName := "conf"; VolumeMountPath := "/etc/my.cnf";
              VolumeType := "config-file"; FileConent := "[mysqld]" |}] []] |}.

(** * Properties *)

(** Membership in a list through its head or its tail. *)
Ltac in_head := apply elem_of_cons; by left.
Ltac in_tail := apply elem_of_cons; by right.

(** ** Strings *)

Lemma append_cons (c : ascii) (s t : string) : String c s +:+ t = String c (s +:+ t).
Proof. reflexivity. Qed.

Lemma append_nil_r (s : string) : s +:+ "" = s.
Proof. induction s as [|c s IH]; [done | by rewrite append_cons, IH]. Qed.

Lemma append_assoc (a b c : string) : (a +:+ b) +:+ c = a +:+ (b +:+ c).
Proof. induction a as [|x a IH]; [done | by rewrite !append_cons, IH]. Qed.

Lemma drop_len (s : string) (n : nat) : (Go.len s <= n)%nat → Go.drop n s = "".
Proof.
  revert n. induction s as [|c s IH]; intros [|n] H; simpl in *; try done; try lia.
  apply IH. unfold Go.len in *. lia.
Qed.

Lemma split_from_cons sep skip cur s :
  ∃ first rest, Go.split_from sep skip cur s = first :: rest.
Proof.
  revert skip cur. induction s as [|c s IH]; intros skip cur; simpl; [eauto |].
  destruct skip; [destruct (Go.has_prefix sep (String c s)) |]; eauto.
Qed.

(** ** The name decoder [unicode2zh] *)

Lemma unicode2zh_step_piece i context char :
  (1 <= i)%nat → unicode2zh_step i context char = context +:+ piece_text char.
Proof.
  intros Hi. unfold unicode2zh_step, piece_text.
  destruct (i <? 1)%nat eqn:E; [apply Nat.ltb_lt in E; lia |].
  destruct (3 <? Go.len char)%nat eqn:E3.
  - apply Nat.ltb_lt in E3.
    destruct (Go.len char <=? 3)%nat eqn:E3'; [apply Nat.leb_le in E3'; lia |].
    destruct (Go.ParseInt16 (Go.take 4 char)) as [zh|]; [| done].
    destruct (4 <? Go.len char)%nat eqn:E4.
    + by rewrite append_assoc.
    + apply Nat.ltb_ge in E4. rewrite (drop_len char 4 E4).
      by rewrite append_nil_r.
  - apply Nat.ltb_ge in E3.
    destruct (Go.len char <=? 3)%nat eqn:E3'; [| apply Nat.leb_gt in E3'; lia].
    by rewrite append_nil_r.
Qed.

Lemma unicode2zh_loop_pieces rest : ∀ i context,
  (1 <= i)%nat →
  unicode2zh_loop i context rest = context +:+ Go.concat (map piece_text rest).
Proof.
  induction rest as [|char rest IH]; intros i context Hi; simpl.
  - by rewrite append_nil_r.
  - rewrite IH by lia. rewrite unicode2zh_step_piece by done.
    by rewrite append_assoc.
Qed.

(** C10. Every piece that follows a marker and has at most three bytes
    leaves nothing in the result of [unicode2zh]; a longer piece gives the
    character spelled by its first four bytes and then its other bytes,
    or itself when the four bytes are no hexadecimal number. *)
Theorem unicode2zh_drops_short_pieces (uText : string) :
  ∃ first rest,
    Go.Split uText "\\u" = first :: rest ∧
    unicode2zh uText = Go.TrimSpace (first +:+ Go.concat (map piece_text rest)) ∧
    Forall (λ char,
      ((Go.len char <= 3)%nat → piece_text char = "") ∧
      (∀ zh, (4 <= Go.len char)%nat → Go.ParseInt16 (Go.take 4 char) = Some zh →
         piece_text char = Go.Sprintf_c zh +:+ Go.drop 4 char) ∧
      ((4 <= Go.len char)%nat → Go.ParseInt16 (Go.take 4 char) = None →
         piece_text char = char)) rest.
Proof.
  destruct (split_from_cons "\\u" 0 [] uText) as (first & rest & Hs).
  exists first, rest. split; [exact Hs |]. split.
  - unfold unicode2zh. unfold Go.Split in *. rewrite Hs. simpl.
    by rewrite unicode2zh_loop_pieces by lia.
  - apply Forall_forall. intros char _. unfold piece_text. repeat split.
    + intros H. by apply Nat.leb_le in H as ->.
    + intros zh H Hp. destruct (Go.len char <=? 3)%nat eqn:E.
      * apply Nat.leb_le in E. lia.
      * by rewrite Hp.
    + intros H Hp. destruct (Go.len char <=? 3)%nat eqn:E.
      * apply Nat.leb_le in E. lia.
      * by rewrite Hp.
Qed.

Example unicode2zh_decodes : unicode2zh "2048\\u5e94\\u7528" = "2048应用".
Proof. reflexivity. Qed.

Example unicode2zh_short_piece : unicode2zh "ab\\u12\\u0041c\\uzzzzz" = "abAczzzzz".
Proof. reflexivity. Qed.

(** ** The manifest reader [parseApps] *)

(** C8. [parseApps] returns the error of the read when the manifest
    cannot be read, an error of its own when the document holds no app,
    and the apps, never an empty list, otherwise. *)
Theorem parseApps_zero_apps_is_error {Result : Type}
    (gjson_Array : string → string → list Result) (h : Host) (i : ExportApp) :
  let file := SourceDir i +:+ "/metadata.json" in
  (∀ err, ReadFile h file = inr err → parseApps Result gjson_Array h i = inr err) ∧
  (∀ data, ReadFile h file = inl data → gjson_Array data "apps" = [] →
     parseApps Result gjson_Array h i = inr "Not found app in the metadata") ∧
  (∀ data, ReadFile h file = inl data → gjson_Array data "apps" ≠ [] →
     parseApps Result gjson_Array h i = inl (gjson_Array data "apps")) ∧
  (∀ arr, parseApps Result gjson_Array h i = inl arr → arr ≠ []).
Proof.
  intros file. unfold parseApps. fold file.
  destruct (ReadFile h file) as [data|err]; repeat split; try congruence.
  - intros d [= <-] Hnil. by rewrite Hnil.
  - intros d [= <-] Hne. destruct (gjson_Array data "apps"); [done | reflexivity].
  - intros arr. destruct (gjson_Array data "apps") as [|x l]; simpl; congruence.
Qed.

Example parseApps_unreadable :
  parseApps string fields_of stale_host compose_task = inr "no such file or directory".
Proof. reflexivity. Qed.

Example parseApps_no_app :
  parseApps string fields_of (readable_host "") compose_task
  = inr "Not found app in the metadata".
Proof. reflexivity. Qed.

Example parseApps_two_apps :
  parseApps string fields_of (readable_host "mysql,web") compose_task
  = inl ["mysql"; "web"].
Proof. reflexivity. Qed.

(** ** The discovery callback *)

(** C9. [UpdateEndpoints] compares the stored list with the list
    [TrimAndSort] makes of the endpoints, each with its [URL] replaced by
    the [Addr] field of the JSON document that [URL] holds.  It hands a
    scrape configuration to Prometheus exactly when the two differ, and
    then stores the new list; a further call whose endpoints give the
    same list publishes nothing and leaves the callback as it is. *)
Theorem UpdateEndpoints_republishes_on_change
    (gjson_Get : string → string → string)
    (TrimAndSort : list Callback.Endpoint → list string)
    (m : Callback.Mq) (endpoints : list Callback.Endpoint) :
  let addresses (ends : list Callback.Endpoint) : list Callback.Endpoint :=
    map (λ e, {| Callback.EndpointName := Callback.EndpointName e;
                 Callback.URL := gjson_Get (Callback.URL e) "Addr" |}) ends in
  let newArr := TrimAndSort (addresses endpoints) in
  let r := Callback.UpdateEndpoints gjson_Get TrimAndSort m endpoints in
  (newArr ≠ Callback.sortedEndpoints m →
     r = ({| Callback.sortedEndpoints := newArr |},
          [Callback.toScrape {| Callback.sortedEndpoints := newArr |}])) ∧
  (newArr = Callback.sortedEndpoints m → r = (m, [])) ∧
  Callback.sortedEndpoints r.1 = newArr ∧
  (∀ endpoints',
     TrimAndSort (addresses endpoints') = newArr →
     Callback.UpdateEndpoints gjson_Get TrimAndSort r.1 endpoints' = (r.1, [])).
Proof.
  intros addresses newArr r. subst r.
  unfold Callback.UpdateEndpoints, Callback.ArrCompare, Callback.addrEndpoints.
  fold (addresses endpoints). fold newArr. destruct m as [stored]. simpl.
  case_bool_decide as Hc; simpl.
  - subst stored. split; [done | split; [done | split; [done |]]].
    intros endpoints' Hsame. fold (addresses endpoints'). rewrite Hsame.
    by rewrite bool_decide_eq_true_2.
  - split; [done | split; [congruence | split; [done |]]].
    intros endpoints' Hsame. fold (addresses endpoints'). rewrite Hsame.
    by rewrite bool_decide_eq_true_2.
Qed.

Example toScrape_targets :
  Callback.Targets <$> Callback.StaticConfigs
      (Callback.toScrape {| Callback.sortedEndpoints := ["10.0.0.1:6301"; "10.0.0.2:6301"] |})
  = [["10.0.0.1:6301"; "10.0.0.2:6301"]].
Proof. reflexivity. Qed.

Example UpdateEndpoints_twice :
  let e := {| Callback.EndpointName := "mq"; Callback.URL := "10.0.0.1:6301" |} in
  let first := Callback.UpdateEndpoints addr_of urls_of {| Callback.sortedEndpoints := [] |} [e] in
  let second := Callback.UpdateEndpoints addr_of urls_of first.1 [e] in
  first.2 = [Callback.toScrape {| Callback.sortedEndpoints := ["10.0.0.1:6301"] |}] ∧
  second = (first.1, []).
Proof. by vm_compute. Qed.

(** ** The freshness check *)

Lemma isLatest_true_iff (h : Host) (i : ExportApp) :
  (isLatest h i).1 = true ↔
  Stat h (SourceDir i +:+ "/metadata.json.md5") ≠ StatNotExist ∧
  Md5sumCheck h (SourceDir i +:+ "/metadata.json.md5") = true.
Proof.
  unfold isLatest.
  destruct (Stat h (SourceDir i +:+ "/metadata.json.md5")),
    (Md5sumCheck h (SourceDir i +:+ "/metadata.json.md5")),
    (Stat h (SourceDir i +:+ ".tar")); simpl;
    (split; [intros ?; split; congruence | intros [? ?]; congruence]).
Qed.

Lemma export_skips_when_latest (h : Host) (i : ExportApp) :
  (isLatest h i).1 = true →
  exportDockerCompose h i = (None, [DoUpdateStatus "success"]) ∧
  exportRainbondAPP h i = (None, [DoUpdateStatus "success"]).
Proof. intros H. unfold exportDockerCompose, exportRainbondAPP. by rewrite H. Qed.

Lemma export_cleans_when_not_latest (h : Host) (i : ExportApp) :
  (isLatest h i).1 = false →
  ∃ rest, (exportDockerCompose h i).2 = DoCleanSourceDir :: rest.
Proof.
  intros H. unfold exportDockerCompose. rewrite H. simpl.
  destruct (StepError h DoCleanSourceDir); simpl; [eauto |].
  destruct (StepError h DoSaveComponents); simpl; [eauto |].
  destruct (StepError h DoBuildDockerComposeYaml); simpl; [eauto |].
  destruct (StepError h DoBuildStartScript); simpl; [eauto |].
  destruct (StepError h DoZip); simpl; [eauto |].
  destruct (StepError h (DoUpdateStatus "success")); simpl; eauto.
Qed.

(** C2. On a host where the sidecar verifies and neither [.tar] nor
    [.zip] archive exists, [isLatest] is true and the export reports
    success after a status update alone: no stage of the pipeline runs. *)
Theorem isLatest_ignores_missing_archive :
  Stat stale_host (SourceDir compose_task +:+ ".tar") = StatNotExist ∧
  Stat stale_host (SourceDir compose_task +:+ ".zip") = StatNotExist ∧
  (isLatest stale_host compose_task).1 = true ∧
  Run stale_host compose_task = (None, [DoUpdateStatus "success"]).
Proof. repeat split. Qed.

(** ** Rendering of the environment *)

(** C3. The rendering loop gives variable [A] of [chain_envs] the value
    ["${C}"] when the keys come in the order A, B, C and the value ["x"]
    when they come in the order B, A, C; both orders enumerate the keys of
    the map. *)
Theorem renderEnvs_depends_on_order :
  list_to_set ["A"; "B"; "C"] = dom chain_envs ∧
  ["B"; "A"; "C"] ≡ₚ ["A"; "B"; "C"] ∧
  renderEnvs ["A"; "B"; "C"] chain_envs !! "A" = Some "${C}" ∧
  renderEnvs ["B"; "A"; "C"] chain_envs !! "A" = Some "x".
Proof.
  split; [| split; [| split]].
  - unfold chain_envs. rewrite !dom_insert_L, dom_empty_L. set_solver.
  - apply perm_swap.
  - by vm_compute.
  - by vm_compute.
Qed.

(** ** Paths *)

Lemma string_of_list_ascii_app (a b : list ascii) :
  string_of_list_ascii (a ++ b) = string_of_list_ascii a +:+ string_of_list_ascii b.
Proof. induction a as [|c a IH]; [done | simpl; by rewrite IH]. Qed.

Lemma split_from_element (x : string) : ∀ cur rest,
  no_slash x = true →
  Go.split_from "/" 0 cur (x +:+ rest)
  = Go.split_from "/" 0 (rev (list_ascii_of_string x) ++ cur) rest.
Proof.
  induction x as [|c x IH]; intros cur rest Hx; [done |].
  unfold no_slash in Hx. simpl in Hx. apply andb_prop in Hx as [Hc Hx].
  apply negb_true_iff in Hc. rewrite append_cons. cbn -[Ascii.eqb String.append].
  rewrite Ascii.eqb_sym, Hc. rewrite IH by done. by rewrite <- app_assoc.
Qed.

Lemma split_join (l : list string) : ∀ x cur,
  Forall (λ y, no_slash y = true) (x :: l) →
  Go.split_from "/" 0 cur (Go.join_with "/" (x :: l))
  = (string_of_list_ascii (rev cur) +:+ x) :: l.
Proof.
  induction l as [|y l IH]; intros x cur Hl.
  - simpl. rewrite <- (append_nil_r x) at 1.
    rewrite split_from_element by (by inversion Hl). simpl.
    by rewrite rev_app_distr, rev_involutive, string_of_list_ascii_app,
      string_of_list_ascii_of_string.
  - inversion Hl as [|? ? Hx Hl']; subst.
    change (Go.join_with "/" (x :: y :: l)) with (x +:+ "/" +:+ Go.join_with "/" (y :: l)).
    rewrite split_from_element by done.
    change ("/" +:+ Go.join_with "/" (y :: l)) with (String "/" (Go.join_with "/" (y :: l))).
    cbn -[String.append Go.join_with]. rewrite IH by done. simpl.
    by rewrite rev_app_distr, rev_involutive, string_of_list_ascii_app,
      string_of_list_ascii_of_string.
Qed.

Lemma clean_fold_elements rooted (comps : list string) : ∀ st,
  Forall (λ y, element y = true) comps →
  fold_left (Go.clean_step rooted) comps st = rev comps ++ st.
Proof.
  induction comps as [|c comps IH]; intros st Hc; simpl; [done |].
  inversion Hc as [|? ? Hel Hc']; subst. rewrite IH by done.
  unfold element in Hel.
  apply andb_prop in Hel as [[[H1 H2]%andb_prop H3]%andb_prop _].
  apply negb_true_iff in H1, H2, H3.
  unfold Go.clean_step. rewrite H1, H2, H3. simpl. by rewrite <- app_assoc.
Qed.

Lemma element_no_slash (x : string) : element x = true → no_slash x = true.
Proof. unfold element. by intros [_ ?]%andb_prop. Qed.

Lemma element_not_rooted (x rest : string) :
  element x = true → Go.has_prefix "/" (x +:+ rest) = false.
Proof.
  intros H. pose proof (element_no_slash x H) as Hs. unfold element in H.
  destruct x as [|c x]; [done |].
  unfold no_slash in Hs. simpl in Hs. apply andb_prop in Hs as [Hc _].
  apply negb_true_iff in Hc. rewrite append_cons. cbn -[Ascii.eqb String.append].
  by rewrite Ascii.eqb_sym, Hc.
Qed.

(** [path.Join] of a service name and a clean absolute path puts the
    path behind the name. *)
Lemma Join_clean_absolute (serviceName : string) (comps : list string) :
  element serviceName = true →
  Forall (λ y, element y = true) comps →
  Go.Join [serviceName; "/" +:+ Go.join_with "/" comps]
  = Go.join_with "/" (serviceName :: comps).
Proof.
  intros Hs Hc. unfold Go.Join.
  assert (String.eqb serviceName "" = false) as Hne.
  { unfold element in Hs.
    apply andb_prop in Hs as [[[H1 _]%andb_prop _]%andb_prop _].
    by apply negb_true_iff in H1. }
  assert (∀ t, String.eqb (serviceName +:+ t) "" = false) as Hne'.
  { intros t. destruct serviceName; [done | by rewrite append_cons]. }
  change (Go.concat [serviceName; "/" +:+ Go.join_with "/" comps])
    with (serviceName +:+ ("/" +:+ Go.join_with "/" comps) +:+ "").
  rewrite Hne'. cbn -[String.append String.eqb Go.Clean Go.join_with].
  rewrite Hne. cbn -[String.append String.eqb Go.Clean Go.join_with].
  rewrite String.eqb_refl. cbn [negb].
  unfold Go.Clean. rewrite Hne', element_not_rooted by done.
  assert (Go.Split (serviceName +:+ "/" +:+ "/" +:+ Go.join_with "/" comps) "/"
          = serviceName :: "" :: match comps with [] => [""] | _ => comps end) as ->.
  { unfold Go.Split. rewrite split_from_element by by apply element_no_slash.
    change ("/" +:+ "/" +:+ Go.join_with "/" comps)
      with (String "/" (String "/" (Go.join_with "/" comps))).
    cbn -[String.append Go.join_with].
    rewrite app_nil_r, rev_involutive, string_of_list_ascii_of_string.
    do 2 f_equal. destruct comps as [|c comps]; [done |].
    rewrite split_join; [done |].
    eapply Forall_impl; [exact Hc |]. apply element_no_slash. }
  cbn -[String.append String.eqb Go.join_with Go.clean_step].
  change (Go.clean_step false [] serviceName)
    with (fold_left (Go.clean_step false) [serviceName] []).
  rewrite (clean_fold_elements false [serviceName] []) by (by constructor).
  change (Go.clean_step false (rev [serviceName] ++ []) "") with [serviceName].
  destruct comps as [|c comps].
  - cbn -[String.eqb].
    change (Go.clean_step false [serviceName] "") with [serviceName].
    cbn -[String.eqb]. by rewrite Hne.
  - rewrite clean_fold_elements by done. rewrite rev_app_distr, rev_involutive.
    change (Go.join_with "/" (rev [serviceName] ++ c :: comps))
      with (serviceName +:+ "/" +:+ Go.join_with "/" (c :: comps)).
    by rewrite Hne'.
Qed.

(** ** Volumes *)

Lemma append_not_empty (a b : string) : b ≠ "" → String.eqb (a +:+ b) "" = false.
Proof.
  intros Hb. apply String.eqb_neq. destruct a; [done | by rewrite append_cons].
Qed.

Lemma own_volume_list id sn acc vol :
  (own_volume id sn acc vol).1.2 = acc.1.2 ++ named_volume sn vol.
Proof.
  destruct acc as [[volumes vlist] vmaps].
  unfold own_volume, buildVolume, named_volume.
  destruct (String.eqb (VolumeType vol) "config-file"); simpl.
  - by rewrite app_nil_r.
  - by rewrite append_not_empty.
Qed.

Lemma own_volume_fold_list id sn vols : ∀ acc,
  (fold_left (own_volume id sn) vols acc).1.2 = acc.1.2 ++ flat_map (named_volume sn) vols.
Proof.
  induction vols as [|vol vols IH]; intros acc; simpl.
  - by rewrite app_nil_r.
  - by rewrite IH, own_volume_list, <- app_assoc.
Qed.

Lemma own_volumes_list names st cpt :
  volumeList (own_volumes names st cpt) = volumeList st ++ named_volumes names cpt.
Proof.
  unfold own_volumes, named_volumes.
  pose proof (own_volume_fold_list (ServiceShareID cpt)
                (GetServiceName names (ServiceShareID cpt))
                (ServiceVolumeMapList cpt) ([], volumeList st, volumeMaps st)) as H.
  destruct (fold_left _ _ _) as [[volumes vlist] vmaps]. simpl in *. exact H.
Qed.

Lemma own_volumes_fold_list names cpts : ∀ st,
  volumeList (fold_left (own_volumes names) cpts st)
  = volumeList st ++ flat_map (named_volumes names) cpts.
Proof.
  induction cpts as [|cpt cpts IH]; intros st; simpl.
  - by rewrite app_nil_r.
  - by rewrite IH, own_volumes_list, <- app_assoc.
Qed.

Lemma dep_volume_list id st dvol : volumeList (dep_volume id st dvol) = volumeList st.
Proof. unfold dep_volume. by destruct (String.eqb _ _). Qed.

Lemma dep_volumes_fold_list cpts : ∀ st,
  volumeList (fold_left dep_volumes cpts st) = volumeList st.
Proof.
  induction cpts as [|cpt cpts IH]; intros st; simpl; [done |].
  rewrite IH. unfold dep_volumes. generalize (MntReleationList cpt) st.
  intros l. induction l as [|dvol l IHl]; intros st'; simpl; [done |].
  by rewrite IHl, dep_volume_list.
Qed.

Lemma buildVolumes_list names cpts :
  volumeList (buildVolumes names cpts) = flat_map (named_volumes names) cpts.
Proof.
  unfold buildVolumes. by rewrite dep_volumes_fold_list, own_volumes_fold_list.
Qed.

Lemma global_volumes_lookup (l : list string) : ∀ (m : gmap string GlobalVolume) g,
  fold_left (λ m vol, <[vol := {| External := false |}]> m) l m !! g
  = if bool_decide (g ∈ l) then Some {| External := false |} else m !! g.
Proof.
  induction l as [|x l IH]; intros m g; cbn [fold_left].
  - case_bool_decide as Hl; [by apply elem_of_nil in Hl | done].
  - rewrite IH. destruct (decide (g = x)) as [->|Hne].
    + rewrite lookup_insert_eq.
      rewrite (bool_decide_eq_true_2 (x ∈ x :: l)); [by case_bool_decide |].
      apply elem_of_cons. by left.
    + rewrite lookup_insert_ne by done.
      apply (f_equal (λ b : bool, if b then Some {| External := false |} else m !! g)).
      apply bool_decide_ext. rewrite elem_of_cons.
      split; [by right | by intros [?|?]].
Qed.

(** C6, amended. For a service name that is one path element and a
    clean absolute mount path [/<relative path>], [buildVolume] binds a
    config-file volume as [./<service>/<relative path>:<mount path>]; it
    binds a volume of any other type as [<service>_<volume>:<mount path>].
    The global volumes of the descriptor are the left sides of the latter
    only, each marked non-external, so a config-file volume adds none,
    whatever its mount path. *)
Theorem config_file_volumes_stay_local
    (LazyConvert : string → list string) (NewUUID : nat → string)
    (r : RainbondApplicationConfig) (n : nat) :
  let d := (newDockerCompose LazyConvert NewUUID r n).1.1 in
  (∀ serviceName c comps vol, VolumeType vol = "config-file" →
     element serviceName = true → Forall (λ y, element y = true) (c :: comps) →
     VolumeMountPath vol = "/" +:+ Go.join_with "/" (c :: comps) →
     buildVolume serviceName vol
     = ("./" +:+ serviceName +:+ "/" +:+ Go.join_with "/" (c :: comps)
          +:+ ":" +:+ VolumeMountPath vol,
        "./" +:+ serviceName +:+ "/" +:+ Go.join_with "/" (c :: comps), true)) ∧
  (∀ serviceName vol, VolumeType vol ≠ "config-file" →
     buildVolume serviceName vol
     = (serviceName +:+ "_" +:+ VolumeName vol +:+ ":" +:+ VolumeMountPath vol,
        serviceName +:+ "_" +:+ VolumeName vol, false)) ∧
  (∀ g, is_Some (GetGlobalVolumes d !! g) ↔
     ∃ cpt vol, cpt ∈ Components r ∧ vol ∈ ServiceVolumeMapList cpt ∧
       VolumeType vol ≠ "config-file" ∧
       g = GetServiceName (serviceNames d) (ServiceShareID cpt) +:+ "_" +:+ VolumeName vol) ∧
  (∀ g v, GetGlobalVolumes d !! g = Some v → External v = false).
Proof.
  intros d. split; [| split; [| split]].
  - intros sn c comps vol Ht Hs Hc Hp. unfold buildVolume. rewrite Ht. simpl.
    rewrite Hp, Join_clean_absolute by done.
    change (Go.join_with "/" (sn :: c :: comps))
      with (sn +:+ "/" +:+ Go.join_with "/" (c :: comps)).
    by rewrite !append_assoc.
  - intros sn vol Ht. unfold buildVolume.
    apply String.eqb_neq in Ht. rewrite Ht. by rewrite !append_assoc.
  - intros g. subst d. unfold newDockerCompose, GetGlobalVolumes.
    destruct (buildServiceNames _ _ _ _) as [names n']. simpl.
    rewrite global_volumes_lookup, lookup_empty, buildVolumes_list.
    case_bool_decide as Hg.
    + split; [intros _ | eauto].
      apply list_elem_of_In, in_flat_map in Hg as (cpt & Hc & Hg).
      apply in_flat_map in Hg as (vol & Hv & Hg).
      unfold named_volume in Hg.
      destruct (String.eqb (VolumeType vol) "config-file") eqn:Ht; [done |].
      apply String.eqb_neq in Ht. destruct Hg as [<-|[]].
      exists cpt, vol. by rewrite <- !list_elem_of_In in *.
    + split; [by intros [? ?] |].
      intros (cpt & vol & Hc & Hv & Ht & ->). destruct Hg.
      apply list_elem_of_In, in_flat_map. exists cpt.
      split; [by apply list_elem_of_In |].
      apply in_flat_map. exists vol. split; [by apply list_elem_of_In |].
      unfold named_volume. apply String.eqb_neq in Ht. rewrite Ht. by left.
  - intros g v. unfold GetGlobalVolumes.
    rewrite global_volumes_lookup, lookup_empty.
    case_bool_decide; [by intros [= <-] | done].
Qed.

(** The theorem at the manifest [config_manifest]: the config file of
    [nginx] is bound below [./nginx], its log volume is bound by name, and
    that name is the one global volume. *)
Lemma config_file_volumes_stay_local_witness :
  let d := (newDockerCompose no_pinyin stuck_uuid config_manifest 0).1.1 in
  buildVolume "nginx" nginx_conf
  = ("./nginx/etc/nginx/nginx.conf:/etc/nginx/nginx.conf",
     "./nginx/etc/nginx/nginx.conf", true) ∧
  buildVolume "nginx" nginx_logs = ("nginx_logs:/var/log/nginx", "nginx_logs", false) ∧
  is_Some (GetGlobalVolumes d !! "nginx_logs") ∧
  GetGlobalVolumes d !! "./nginx/etc/nginx/nginx.conf" = None.
Proof.
  intros d.
  destruct (config_file_volumes_stay_local no_pinyin stuck_uuid config_manifest 0)
    as (Hconf & Hnamed & Hglobal & _).
  split; [| split; [| split]].
  - apply (Hconf "nginx" "etc" ["nginx"; "nginx.conf"] nginx_conf); try reflexivity.
    repeat (constructor; [reflexivity |]). constructor.
  - apply (Hnamed "nginx" nginx_logs). discriminate.
  - apply Hglobal. exists (nginx_with [nginx_conf; nginx_logs]), nginx_logs.
    split; [in_head |]. split; [apply elem_of_cons; right; in_head |].
    split; [discriminate | reflexivity].
  - destruct (GetGlobalVolumes d !! "./nginx/etc/nginx/nginx.conf") as [g|] eqn:E;
      [| reflexivity].
    exfalso.
    destruct (proj1 (Hglobal "./nginx/etc/nginx/nginx.conf")) as (cpt & vol & Hc & _ & _ & Hg);
      [exists g; exact E |].
    apply list_elem_of_singleton in Hc as ->. vm_compute in Hg.
    destruct vol as [name ? ? ?]. discriminate Hg.
Defined.

(** C6, as stated, fails for a mount path that is not a clean absolute
    path: [path.Join] resolves the [..] of [/../x.conf], so the file of
    service [nginx] is bound as [./x.conf], outside [./nginx], and an
    empty mount path gives the bind [./nginx:], which names no path below
    [./nginx]. *)
Lemma config_file_bind_leaves_service_directory :
  VolumeType dotdot_conf = "config-file" ∧ VolumeMountPath dotdot_conf = "/../x.conf" ∧
  buildVolume "nginx" dotdot_conf = ("./x.conf:/../x.conf", "./x.conf", true) ∧
  VolumeType empty_conf = "config-file" ∧ VolumeMountPath empty_conf = "" ∧
  buildVolume "nginx" empty_conf = ("./nginx:", "./nginx", true) ∧
  Go.has_prefix "./nginx/" (buildVolume "nginx" dotdot_conf).1.1 = false ∧
  Go.has_prefix "./nginx/" (buildVolume "nginx" empty_conf).1.1 = false.
Proof. by vm_compute. Qed.

Example buildVolume_config_file :
  buildVolume "nginx"
    {| VolumeName := "conf"; VolumeMountPath := "/etc/nginx/nginx.conf";
       VolumeType := "config-file"; FileConent := "worker_processes 1;" |}
  = ("./nginx/etc/nginx/nginx.conf:/etc/nginx/nginx.conf",
     "./nginx/etc/nginx/nginx.conf", true).
Proof. reflexivity. Qed.

Example buildVolume_share_file :
  buildVolume "mysql"
    {| VolumeName := "data"; VolumeMountPath := "/var/lib/mysql";
       VolumeType := "share-file"; FileConent := "" |}
  = ("mysql_data:/var/lib/mysql", "mysql_data", false).
Proof. reflexivity. Qed.

Lemma dep_volume_unresolved id st dvol :
  at_key (volumeMaps st) (ShareServiceUUID dvol +:+ DepVolumeName dvol) = "" →
  one_more_warning (not_found dvol) (dep_volume id st dvol) st.
Proof.
  intros H. unfold dep_volume. rewrite H. simpl.
  repeat split. exists (warnings st), []. by rewrite app_nil_r.
Qed.

Lemma dep_volume_resolved id st dvol :
  at_key (volumeMaps st) (ShareServiceUUID dvol +:+ DepVolumeName dvol) ≠ "" →
  warnings (dep_volume id st dvol) = warnings st ∧
  componentVolumes (dep_volume id st dvol) !! id
  = Some (default [] (componentVolumes st !! id) ++
          [at_key (volumeMaps st) (ShareServiceUUID dvol +:+ DepVolumeName dvol)
             +:+ ":" +:+ VolumeMountDir dvol]).
Proof.
  intros H. unfold dep_volume. apply String.eqb_neq in H. rewrite H. simpl.
  by rewrite lookup_insert_eq.
Qed.

Lemma dep_volume_maps id st dvol : volumeMaps (dep_volume id st dvol) = volumeMaps st.
Proof. unfold dep_volume. by destruct (String.eqb _ _). Qed.

Lemma dep_volume_fold_maps id (l : list ComponentVolumeDep) : ∀ st,
  volumeMaps (fold_left (dep_volume id) l st) = volumeMaps st.
Proof.
  induction l as [|dvol l IH]; intros st; simpl; [done |].
  by rewrite IH, dep_volume_maps.
Qed.

Lemma dep_volumes_fold_maps cpts : ∀ st,
  volumeMaps (fold_left dep_volumes cpts st) = volumeMaps st.
Proof.
  induction cpts as [|cpt cpts IH]; intros st; simpl; [done |].
  rewrite IH. apply dep_volume_fold_maps.
Qed.

(** The first loop writes under the keys of declared volumes only. *)
Lemma own_volume_fold_frame id sn (k : string) (vols : list ComponentVolume) : ∀ acc,
  (∀ vol, vol ∈ vols → id +:+ VolumeName vol ≠ k) →
  (fold_left (own_volume id sn) vols acc).2 !! k = acc.2 !! k.
Proof.
  induction vols as [|vol vols IH]; intros acc Hk; simpl; [done |].
  rewrite IH by (intros v Hv; apply Hk; in_tail).
  destruct acc as [[volumes vlist] vmaps]. unfold own_volume.
  destruct (buildVolume sn vol) as [[svolume composeVolume] isConfig].
  destruct (negb _); simpl; [| done].
  apply lookup_insert_ne, Hk. in_head.
Qed.

Lemma own_volumes_frame names st cpt (k : string) :
  (∀ vol, vol ∈ ServiceVolumeMapList cpt → ServiceShareID cpt +:+ VolumeName vol ≠ k) →
  volumeMaps (own_volumes names st cpt) !! k = volumeMaps st !! k.
Proof.
  intros Hk. unfold own_volumes.
  pose proof (own_volume_fold_frame (ServiceShareID cpt)
                (GetServiceName names (ServiceShareID cpt)) k
                (ServiceVolumeMapList cpt) ([], volumeList st, volumeMaps st) Hk) as H.
  destruct (fold_left _ _ _) as [[volumes vlist] vmaps]. exact H.
Qed.

Lemma own_volumes_fold_frame names (k : string) cpts : ∀ st,
  (∀ c vol, c ∈ cpts → vol ∈ ServiceVolumeMapList c →
     ServiceShareID c +:+ VolumeName vol ≠ k) →
  volumeMaps (fold_left (own_volumes names) cpts st) !! k = volumeMaps st !! k.
Proof.
  induction cpts as [|cpt cpts IH]; intros st Hk; simpl; [done |].
  rewrite IH by (intros c vol Hc; apply Hk; in_tail).
  apply own_volumes_frame. intros vol. apply Hk. in_head.
Qed.

Lemma own_volumes_fold_with_mnt names mnt cpt pre post st :
  fold_left (own_volumes names) (pre ++ with_mnt mnt cpt :: post) st
  = fold_left (own_volumes names) (pre ++ cpt :: post) st.
Proof. by rewrite !fold_left_app. Qed.

(** The second loop carries a warning along. *)
Lemma dep_volume_one_more line id st st' dvol :
  one_more_warning line st st' →
  one_more_warning line (dep_volume id st dvol) (dep_volume id st' dvol).
Proof.
  intros (Hc & Hl & Hm & w1 & w2 & Hw' & Hw). unfold dep_volume.
  rewrite Hc, Hl, Hm, Hw, Hw'.
  destruct (String.eqb _ _); simpl; repeat split.
  - exists w1, (w2 ++ [not_found dvol]). by rewrite <- !app_assoc.
  - by exists w1, w2.
Qed.

Lemma dep_volume_fold_one_more line id (l : list ComponentVolumeDep) : ∀ st st',
  one_more_warning line st st' →
  one_more_warning line (fold_left (dep_volume id) l st) (fold_left (dep_volume id) l st').
Proof.
  induction l as [|dvol l IH]; intros st st' H; simpl; [done |].
  by apply IH, dep_volume_one_more.
Qed.

Lemma dep_volumes_fold_one_more line cpts : ∀ st st',
  one_more_warning line st st' →
  one_more_warning line (fold_left dep_volumes cpts st) (fold_left dep_volumes cpts st').
Proof.
  induction cpts as [|cpt cpts IH]; intros st st' H; simpl; [done |].
  by apply IH, dep_volume_fold_one_more.
Qed.

(** When no component declares a volume whose share identifier followed
    by its name spells the key of a dependent volume, [buildVolumes] gives
    the binds and global volumes of the manifest without that dependent
    volume, and logs one warning more. *)
Lemma undeclared_volume_is_skipped (names : gmap string string)
    (pre post : list Component) (cpt : Component)
    (d1 d2 : list ComponentVolumeDep) (dvol : ComponentVolumeDep) :
  MntReleationList cpt = d1 ++ dvol :: d2 →
  (∀ c vol, c ∈ pre ++ cpt :: post → vol ∈ ServiceVolumeMapList c →
     ServiceShareID c +:+ VolumeName vol ≠ ShareServiceUUID dvol +:+ DepVolumeName dvol) →
  one_more_warning (not_found dvol)
    (buildVolumes names (pre ++ cpt :: post))
    (buildVolumes names (pre ++ with_mnt (d1 ++ d2) cpt :: post)).
Proof.
  intros Hmnt Hkey. unfold buildVolumes.
  rewrite own_volumes_fold_with_mnt.
  set (st1 := fold_left (own_volumes names) (pre ++ cpt :: post) _).
  assert (volumeMaps st1 !! (ShareServiceUUID dvol +:+ DepVolumeName dvol) = None) as Hnone.
  { subst st1. by rewrite own_volumes_fold_frame. }
  rewrite !fold_left_app. simpl.
  apply dep_volumes_fold_one_more.
  unfold dep_volumes. simpl. rewrite Hmnt, !fold_left_app. simpl.
  apply dep_volume_fold_one_more, dep_volume_unresolved.
  unfold at_key. by rewrite dep_volume_fold_maps, dep_volumes_fold_maps, Hnone.
Qed.

(** The lemma at a manifest whose second component asks for the volumes
    [logs] and [data] of the first, which declares [data]. *)
Lemma undeclared_volume_is_skipped_witness :
  one_more_warning "[dockerCompose] [buildVolumes] dependent volume(1/logs) not found"
    (buildVolumes {["1" := "a"; "2" := "b"]} ([data_owner] ++ data_user :: []))
    (buildVolumes {["1" := "a"; "2" := "b"]}
       ([data_owner] ++ with_mnt ([] ++ [data_edge]) data_user :: [])).
Proof.
  apply (undeclared_volume_is_skipped {["1" := "a"; "2" := "b"]}
           [data_owner] [] data_user [] [data_edge] logs_edge).
  - reflexivity.
  - intros c vol Hc Hvol.
    apply elem_of_cons in Hc as [->|Hc]; [| apply elem_of_cons in Hc as [->|Hc]].
    + apply elem_of_cons in Hvol as [->|Hvol]; [| by apply elem_of_nil in Hvol].
      vm_compute. discriminate.
    + by apply elem_of_nil in Hvol.
    + by apply elem_of_nil in Hc.
Defined.

Example undeclared_volume_binds :
  let st := buildVolumes {["1" := "a"; "2" := "b"]} [data_owner; data_user] in
  warnings st = ["[dockerCompose] [buildVolumes] dependent volume(1/logs) not found"] ∧
  componentVolumes st !! "2" = Some ["a_data:/mnt/a-data"] ∧
  componentVolumes st !! "1" = Some ["a_data:/var/lib/data"] ∧
  volumeList st = ["a_data"].
Proof. by vm_compute. Qed.

(** C7. In [mount_manifest] component [b] asks for volume [bc] of
    component [a], which declares no volume.  [buildVolumes] files the
    volumes under the share identifier followed by the volume name with
    nothing between them, finds the key ["abc"] written for volume [c] of
    component [ab], logs no warning and binds that volume into [b]. *)
Theorem undeclared_volume_bound_by_key_clash :
  let built := newDockerCompose no_pinyin stuck_uuid mount_manifest 0 in
  ServiceVolumeMapList <$> Components mount_manifest !! 1%nat = Some [] ∧
  MntReleationList <$> Components mount_manifest !! 2%nat
  = Some [{| ShareServiceUUID := "a"; DepVolumeName := "bc"; VolumeMountDir := "/mnt" |}] ∧
  built.1.2 = [] ∧
  GetServiceVolumes built.1.1 "b" = ["x_c:/mnt"].
Proof. by vm_compute. Qed.

(** ** Service names *)

(** C4. In [twin_manifest] the component [web] depends on the component
    of share identifier ["2"], whose service key carries a suffix; the
    [depends_on] list of [web] names ["db"], the key of the component of
    share identifier ["1"]. *)
Theorem depends_on_misses_suffixed_name
    (LazyConvert : string → list string) (NewUUID : nat → string)
    (GetMemoryType : Z → string) (GenSaveImageName : string → string)
    (keyOrder : gmap string string → list string) :
  let d := (newDockerCompose LazyConvert NewUUID twin_manifest 0).1.1 in
  let y := composeYaml LazyConvert NewUUID GetMemoryType GenSaveImageName keyOrder
             twin_manifest 0 in
  GetServiceName (serviceNames d) "2" = "db-" +:+ Go.take 4 (NewUUID 0%nat) ∧
  GetServiceName (serviceNames d) "1" = "db" ∧
  DependsOn <$> Services y !! "web" = Some ["db"] ∧
  Command <$> Services y !! "db" = Some "mysqld --server-id=1" ∧
  String.eqb "db" (GetServiceName (serviceNames d) "2") = false.
Proof. by vm_compute. Qed.

Section Registry.

Variable LazyConvert : string → list string.
Variable NewUUID : nat → string.

(** A name once in the set stays, and the name of every component met is
    in the set afterwards, with or without a suffix of its own. *)
Lemma name_step_set acc cpt :
  let acc' := name_step LazyConvert NewUUID acc cpt in
  acc.1.2 ⊆ acc'.1.2 ∧ composeName LazyConvert (ServiceCname cpt) ∈ acc'.1.2.
Proof.
  destruct acc as [[names set] n]. unfold name_step. simpl.
  case_bool_decide as Hin; simpl; set_solver.
Qed.

Lemma name_fold_set (cpts : list Component) : ∀ acc,
  let acc' := fold_left (name_step LazyConvert NewUUID) cpts acc in
  acc.1.2 ⊆ acc'.1.2 ∧
  ∀ c, c ∈ cpts → composeName LazyConvert (ServiceCname c) ∈ acc'.1.2.
Proof.
  induction cpts as [|cpt cpts IH]; intros acc; simpl.
  - split; [done |]. intros c Hc. by apply elem_of_nil in Hc.
  - destruct (IH (name_step LazyConvert NewUUID acc cpt)) as [Hsub Hin].
    destruct (name_step_set acc cpt) as [Hsub' Hin'].
    split; [by etrans |].
    intros c [->|Hc]%elem_of_cons; [by apply Hsub | by apply Hin].
Qed.

(** Of two components with one sanitized name the later is registered
    with a suffix: a hyphen and four characters of a fresh UUID. *)
Lemma later_seen_gets_suffix (pre mid : list Component) (c1 c2 : Component) (n : nat) :
  composeName LazyConvert (ServiceCname c1) = composeName LazyConvert (ServiceCname c2) →
  ∃ k, (buildServiceNames LazyConvert NewUUID (pre ++ c1 :: mid ++ [c2]) n).1
         !! ServiceShareID c2
       = Some (composeName LazyConvert (ServiceCname c2)
                 +:+ "-" +:+ Go.take 4 (NewUUID k)).
Proof.
  intros Heq. unfold buildServiceNames.
  rewrite app_comm_cons, app_assoc, fold_left_app. simpl.
  destruct (name_fold_set (pre ++ c1 :: mid) (∅, ∅, n)) as [_ Hin].
  specialize (Hin c1). rewrite Heq in Hin.
  destruct (fold_left _ (pre ++ c1 :: mid) _) as [[names set] k]. simpl in *.
  exists k. unfold name_step.
  rewrite bool_decide_eq_true_2 by (apply Hin, elem_of_app; right; in_head).
  simpl. apply lookup_insert_eq.
Qed.

End Registry.

(** C5. The registry gives the component called ["Łódź"] a name that
    does not match [[A-Za-z0-9._-]+], and gives the second and the third
    of three components called ["db"] the same name when the generator
    repeats its first four characters. *)
Theorem service_names_invalid_or_repeated (LazyConvert : string → list string)
    (NewUUID : nat → string) :
  let names := (buildServiceNames LazyConvert NewUUID (Components lodz_manifest) 0).1 in
  let names3 :=
    (buildServiceNames LazyConvert stuck_uuid (Components triple_manifest) 0).1 in
  names !! "1" = Some "Ł_dź" ∧
  valid_name "Ł_dź" = false ∧
  names3 !! "1" = Some "db" ∧
  names3 !! "2" = Some "db-5f3a" ∧
  names3 !! "3" = Some "db-5f3a".
Proof. by vm_compute. Qed.

(** ** Environment of a dependent component *)

Lemma map_fold_insert_union (envs depEnvs : gmap string string) :
  map_fold (λ k v acc, <[k := v]> acc) envs depEnvs = depEnvs ∪ envs.
Proof.
  apply (map_fold_weak_ind (λ r m, r = m ∪ envs)).
  - by rewrite (left_id_L ∅ (∪)).
  - intros i x m r _ ->. by rewrite insert_union_l.
Qed.

Lemma public_fold_other (K : string) (l : list EnvItem) : ∀ m : gmap string string,
  (∀ it, it ∈ l → attr_name it ≠ K) →
  fold_left public_step l m !! K = m !! K.
Proof.
  induction l as [|it l IH]; intros m Hl; simpl; [done |].
  rewrite IH.
  - unfold public_step. apply lookup_insert_ne, Hl. in_head.
  - intros it' Hit. apply Hl. in_tail.
Qed.

Lemma public_fold_last (K v : string) (l1 l2 : list EnvItem) (m : gmap string string) :
  (∀ it, it ∈ l2 → attr_name it ≠ K) →
  fold_left public_step (l1 ++ {| attr_name := K; attr_value := v |} :: l2) m !! K = Some v.
Proof.
  intros Hl. rewrite fold_left_app. simpl. rewrite public_fold_other by done.
  unfold public_step at 1. simpl. apply lookup_insert_eq.
Qed.

Lemma getPublicEnvByKey_first (a1 a2 : list Component) (A : Component) :
  (∀ a, a ∈ a1 → ServiceShareID a ≠ ServiceShareID A) →
  getPublicEnvByKey (ServiceShareID A) (a1 ++ A :: a2)
  = fold_left public_step (ServiceConnectInfoMapList A) ∅.
Proof.
  induction a1 as [|a a1 IH]; intros Ha; simpl.
  - by rewrite String.eqb_refl.
  - assert (ServiceShareID a ≠ ServiceShareID A) as Hne
      by (apply Ha; in_head).
    apply String.eqb_neq in Hne. rewrite Hne. apply IH.
    intros a' Ha'. apply Ha. in_tail.
Qed.

Section DependentEnvironment.

Variable LazyConvert : string → list string.
Variable NewUUID : nat → string.
Variable GetMemoryType : Z → string.
Variable keyOrder : gmap string string → list string.

Lemma dep_step_envs apps acc serviceKey :
  (dep_step LazyConvert apps acc serviceKey).1 = getPublicEnvByKey serviceKey apps ∪ acc.1.
Proof.
  destruct acc as [envs depServices]. unfold dep_step.
  rewrite map_fold_insert_union. by destruct (negb _).
Qed.

Lemma dep_step_services apps acc serviceKey :
  (dep_step LazyConvert apps acc serviceKey).2
  = acc.2 ++ depended_names LazyConvert apps [serviceKey].
Proof.
  destruct acc as [envs depServices]. unfold dep_step, depended_names. simpl.
  destruct (String.eqb _ ""); simpl; by rewrite ?app_nil_r.
Qed.

(** The [depends_on] list is computed from the names of the apps, not
    from the registry of service names. *)
Lemma dep_fold_services apps (deps : list string) : ∀ acc,
  (fold_left (dep_step LazyConvert apps) deps acc).2
  = acc.2 ++ depended_names LazyConvert apps deps.
Proof.
  induction deps as [|key deps IH]; intros acc; simpl.
  - by rewrite app_nil_r.
  - rewrite IH, dep_step_services. unfold depended_names. simpl.
    by rewrite app_nil_r, <- app_assoc.
Qed.

Lemma mergeEnvs_services apps app n :
  (mergeEnvs LazyConvert NewUUID GetMemoryType apps app n).1.2
  = depended_names LazyConvert apps (DepServiceMapList app).
Proof.
  unfold mergeEnvs. destruct (fold_left _ (ServiceEnvMapList app) _) as [envs0 n'].
  pose proof (dep_fold_services apps (DepServiceMapList app)
    (fold_left public_step (ServiceConnectInfoMapList app) envs0, [])) as H.
  by destruct (fold_left (dep_step LazyConvert apps) _ _).
Qed.

Lemma dep_fold_other apps (K : string) (deps : list string) : ∀ acc,
  (∀ key, key ∈ deps → getPublicEnvByKey key apps !! K = None) →
  (fold_left (dep_step LazyConvert apps) deps acc).1 !! K = acc.1 !! K.
Proof.
  induction deps as [|key deps IH]; intros acc Hd; simpl; [done |].
  rewrite IH.
  - rewrite dep_step_envs. apply lookup_union_r, Hd. in_head.
  - intros key' Hk. apply Hd. in_tail.
Qed.

Lemma ParseVariable_plain (v : string) (configs : gmap string string) :
  plain v = true → ParseVariable v configs = v.
Proof.
  unfold ParseVariable, plain.
  induction v as [|c v IH]; simpl; [done |].
  intros [Hc Hv]%andb_prop. apply negb_true_iff in Hc. rewrite Hc.
  by rewrite IH.
Qed.

Lemma renderEnvs_plain (K v : string) (order : list string) : ∀ envs,
  plain v = true → envs !! K = Some v → renderEnvs order envs !! K = Some v.
Proof.
  induction order as [|key order IH]; intros envs Hv HK; simpl; [done |].
  apply IH; [done |]. unfold render_step.
  destruct (decide (key = K)) as [->|Hne].
  - rewrite HK, ParseVariable_plain by done. apply lookup_insert_eq.
  - destruct (envs !! key); [by rewrite lookup_insert_ne | done].
Qed.

(** C1, amended. When the last edge of [B] that imports [K] names the
    share identifier of [A] (the first app that carries it), and the
    public environment of [A] binds [K] last to a value [v] that holds no
    [$], the resolved environment of [B] maps [K] to [v], whatever the
    private and public environment of [B] itself say about [K]. *)
Theorem dependency_env_overrides
    (apps a1 a2 : list Component) (A B : Component) (l1 l2 : list EnvItem)
    (d1 d2 : list string) (K v : string) (n : nat) :
  apps = a1 ++ A :: a2 →
  (∀ a, a ∈ a1 → ServiceShareID a ≠ ServiceShareID A) →
  ServiceConnectInfoMapList A = l1 ++ {| attr_name := K; attr_value := v |} :: l2 →
  (∀ it, it ∈ l2 → attr_name it ≠ K) →
  DepServiceMapList B = d1 ++ ServiceShareID A :: d2 →
  (∀ key, key ∈ d2 → getPublicEnvByKey key apps !! K = None) →
  plain v = true →
  resolveEnvs LazyConvert NewUUID GetMemoryType keyOrder apps B n !! K = Some v.
Proof.
  intros Happs Ha1 HA Hl2 HB Hd2 Hv.
  unfold resolveEnvs. apply renderEnvs_plain; [done |].
  unfold mergeEnvs.
  destruct (fold_left _ (ServiceEnvMapList B) _) as [envs0 n'].
  rewrite HB, fold_left_app. simpl.
  pose proof (dep_fold_other apps K d2
    (dep_step LazyConvert apps
       (fold_left (dep_step LazyConvert apps) d1
          (fold_left public_step (ServiceConnectInfoMapList B) envs0, []))
       (ServiceShareID A)) Hd2) as Hkeep.
  destruct (fold_left (dep_step LazyConvert apps) d2 _) as [envs depServices].
  simpl in *. rewrite Hkeep, dep_step_envs.
  apply lookup_union_Some_l.
  rewrite Happs, getPublicEnvByKey_first, HA by done.
  by apply public_fold_last.
Qed.

End DependentEnvironment.

(** The theorem at [override_manifest]. *)
Lemma dependency_env_overrides_witness :
  resolveEnvs no_pinyin stuck_uuid small_memory listed_order
    (Components override_manifest)
    (sample "web" "2" [{| attr_name := "MYSQL_HOST"; attr_value := "localhost" |}] []
       ["1"] [] [])
    0 !! "MYSQL_HOST" = Some "10.0.0.5".
Proof.
  apply (dependency_env_overrides no_pinyin stuck_uuid small_memory listed_order
           (Components override_manifest) []
           [sample "web" "2" [{| attr_name := "MYSQL_HOST"; attr_value := "localhost" |}] []
              ["1"] [] []]
           (sample "mysql" "1" [] [{| attr_name := "MYSQL_HOST"; attr_value := "10.0.0.5" |}]
              [] [] [])
           _ [] [] [] []).
  - reflexivity.
  - intros a Ha. by apply elem_of_nil in Ha.
  - reflexivity.
  - intros it Hit. by apply elem_of_nil in Hit.
  - reflexivity.
  - intros key Hkey. by apply elem_of_nil in Hkey.
  - reflexivity.
Defined.

(** C1, as stated, fails on [override_manifest]: [web] depends on
    [mysql], both set [MYSQL_HOST], and the resolved environment of [web]
    holds the value of [mysql], not its own. *)
Lemma own_value_does_not_win :
  ∃ A B,
    Components override_manifest = [A; B] ∧
    ServiceShareID A ∈ DepServiceMapList B ∧
    {| attr_name := "MYSQL_HOST"; attr_value := "10.0.0.5" |} ∈ ServiceConnectInfoMapList A ∧
    {| attr_name := "MYSQL_HOST"; attr_value := "localhost" |} ∈ ServiceEnvMapList B ∧
    resolveEnvs no_pinyin stuck_uuid small_memory listed_order
      (Components override_manifest) B 0 !! "MYSQL_HOST" = Some "10.0.0.5".
Proof.
  eexists _, _. split; [reflexivity |].
  repeat split; try (in_head).
Qed.

(** * Further properties of the export *)

(** ** Pieces of a split *)

Lemma forallb_rev {A} (f : A → bool) (l : list A) : forallb f (rev l) = forallb f l.
Proof.
  induction l as [|a l IH]; [done |]. simpl.
  rewrite forallb_app, IH. simpl. by rewrite andb_true_r, andb_comm.
Qed.

Lemma no_char_cons (c a : ascii) (x : string) :
  no_char c (String a x) = negb (Ascii.eqb a c) && no_char c x.
Proof. reflexivity. Qed.

Lemma no_char_app (c : ascii) (x y : string) :
  no_char c (x +:+ y) = no_char c x && no_char c y.
Proof.
  induction x as [|a x IH]; [done |].
  by rewrite append_cons, !no_char_cons, IH, andb_assoc.
Qed.

Lemma no_char_of_list (c : ascii) (l : list ascii) :
  no_char c (string_of_list_ascii l) = forallb (λ a, negb (Ascii.eqb a c)) l.
Proof. unfold no_char. by rewrite list_ascii_of_string_of_list_ascii. Qed.

(** The pieces of a split hold bytes of the string only. *)
Lemma split_from_no_char (d : ascii) (sep : string) (s : string) : ∀ skip cur,
  no_char d s = true → forallb (λ a, negb (Ascii.eqb a d)) cur = true →
  Forall (λ x, no_char d x = true) (Go.split_from sep skip cur s).
Proof.
  induction s as [|a s IH]; intros skip cur Hs Hcur.
  - constructor; [| constructor].
    rewrite no_char_of_list, forallb_rev. exact Hcur.
  - rewrite no_char_cons in Hs. apply andb_prop in Hs as [Ha Hs].
    cbn -[Go.has_prefix]. destruct skip as [|k]; [| by apply IH].
    destruct (Go.has_prefix sep (String a s)).
    + constructor; [| by apply IH].
      rewrite no_char_of_list, forallb_rev. exact Hcur.
    + apply IH; [done |]. simpl. by rewrite Ha, Hcur.
Qed.

(** Splitting at one byte leaves pieces without that byte. *)
Lemma split_from_byte (c : ascii) (s : string) : ∀ cur,
  forallb (λ a, negb (Ascii.eqb a c)) cur = true →
  Forall (λ x, no_char c x = true) (Go.split_from (String c "") 0 cur s).
Proof.
  induction s as [|a s IH]; intros cur Hcur.
  - constructor; [| constructor].
    rewrite no_char_of_list, forallb_rev. exact Hcur.
  - cbn -[Ascii.eqb]. destruct (Ascii.eqb c a) eqn:E.
    + constructor; [| by apply IH].
      rewrite no_char_of_list, forallb_rev. exact Hcur.
    + apply IH. simpl. by rewrite Ascii.eqb_sym, E, Hcur.
Qed.

(** A string without the first byte of the separator is one piece. *)
Lemma split_from_absent (c : ascii) (sep' : string) (s : string) : ∀ cur,
  no_char c s = true →
  Go.split_from (String c sep') 0 cur s
  = [string_of_list_ascii (rev cur) +:+ s].
Proof.
  induction s as [|a s IH]; intros cur Hs.
  - simpl. by rewrite append_nil_r.
  - rewrite no_char_cons in Hs. apply andb_prop in Hs as [Ha Hs].
    apply negb_true_iff in Ha. cbn -[Ascii.eqb String.append].
    rewrite Ascii.eqb_sym, Ha, IH by done. simpl.
    rewrite string_of_list_ascii_app. simpl. by rewrite append_assoc.
Qed.

Lemma Split_absent (c : ascii) (sep' s : string) :
  no_char c s = true → Go.Split s (String c sep') = [s].
Proof. intros H. unfold Go.Split. by rewrite split_from_absent. Qed.

Lemma join_with_no_char (d : ascii) (new : string) (l : list string) :
  no_char d new = true → Forall (λ x, no_char d x = true) l →
  no_char d (Go.join_with new l) = true.
Proof.
  intros Hnew Hl. induction Hl as [|x l Hx Hl IH]; [done |].
  destruct l as [|y l]; [done |].
  change (Go.join_with new (x :: y :: l)) with (x +:+ new +:+ Go.join_with new (y :: l)).
  by rewrite !no_char_app, Hx, Hnew, IH.
Qed.

Lemma last_Forall {A} (P : A → Prop) (l : list A) (d : A) :
  P d → Forall P l → P (List.last l d).
Proof.
  intros Hd Hl. induction Hl as [|x l Hx Hl IH]; [done |].
  destruct l; [done | exact IH].
Qed.

(** ** [buildToLinuxFileName] *)

Lemma Replace_no_char (d : ascii) (s old new : string) :
  no_char d s = true → no_char d new = true →
  no_char d (GoStrings.Replace s old new) = true.
Proof.
  intros Hs Hnew. apply join_with_no_char; [done |].
  by apply split_from_no_char.
Qed.

Lemma Replace_byte_gone (c : ascii) (s new : string) :
  no_char c new = true → no_char c (GoStrings.Replace s (String c "") new) = true.
Proof. intros Hnew. apply join_with_no_char; [done |]. by apply split_from_byte. Qed.

Lemma Replace_absent (c : ascii) (s new : string) :
  no_char c s = true → GoStrings.Replace s (String c "") new = s.
Proof. intros H. unfold GoStrings.Replace. by rewrite Split_absent. Qed.

Lemma remove_spaces_no_char (d : ascii) (s : string) :
  no_char d s = true → no_char d (GoStrings.remove_spaces s) = true.
Proof.
  induction s as [|a s IH]; [done |].
  rewrite no_char_cons. intros [Ha Hs]%andb_prop. simpl.
  destruct (GoStrings.is_space_byte a); [by apply IH |].
  by rewrite no_char_cons, Ha, IH.
Qed.

Lemma remove_spaces_no_space (s : string) : no_space (GoStrings.remove_spaces s) = true.
Proof.
  induction s as [|a s IH]; [done |]. simpl.
  destruct (GoStrings.is_space_byte a) eqn:E; [done |].
  unfold no_space in *. simpl. by rewrite E, IH.
Qed.

Lemma remove_spaces_absent (s : string) :
  no_space s = true → GoStrings.remove_spaces s = s.
Proof.
  induction s as [|a s IH]; [done |]. unfold no_space. simpl.
  intros [Ha Hs]%andb_prop. apply negb_true_iff in Ha. rewrite Ha.
  by rewrite IH.
Qed.

Lemma buildToLinuxFileName_clean (fileName : string) :
  no_char "/" (buildToLinuxFileName fileName) = true ∧
  no_char ":" (buildToLinuxFileName fileName) = true ∧
  no_space (buildToLinuxFileName fileName) = true.
Proof.
  unfold buildToLinuxFileName.
  destruct (String.eqb fileName "") eqn:E; [apply String.eqb_eq in E; by subst |].
  set (str := List.last (Go.Split fileName "/") "").
  assert (no_char "/" str = true) as Hstr.
  { apply (last_Forall (λ x, no_char "/" x = true)); [done |].
    by apply split_from_byte. }
  set (name := if String.eqb str "" then GoStrings.Replace fileName "/" "---" else str).
  assert (no_char "/" name = true) as Hname.
  { subst name. destruct (String.eqb str ""); [by apply Replace_byte_gone | done]. }
  split; [| split].
  - by apply remove_spaces_no_char, Replace_no_char.
  - by apply remove_spaces_no_char, Replace_byte_gone.
  - apply remove_spaces_no_space.
Qed.

(** X1. The file name [buildToLinuxFileName] gives holds no slash, no
    colon and no white space. *)
Theorem buildToLinuxFileName_safe (fileName : string) :
  no_char "/" (buildToLinuxFileName fileName) = true ∧
  no_char ":" (buildToLinuxFileName fileName) = true ∧
  no_space (buildToLinuxFileName fileName) = true.
Proof. apply buildToLinuxFileName_clean. Qed.

(** X2. A name without slash, colon and white space is left as it is,
    so [buildToLinuxFileName] applied twice gives what it gives once. *)
Theorem buildToLinuxFileName_idempotent (fileName : string) :
  buildToLinuxFileName (buildToLinuxFileName fileName) = buildToLinuxFileName fileName.
Proof.
  destruct (buildToLinuxFileName_clean fileName) as (Hs & Hc & Hw).
  generalize dependent (buildToLinuxFileName fileName). intros s Hs Hc Hw.
  unfold buildToLinuxFileName.
  destruct (String.eqb s "") eqn:E; [done |].
  rewrite (Split_absent "/" "" s Hs). simpl List.last. rewrite E.
  by rewrite Replace_absent, remove_spaces_absent.
Qed.

Example buildToLinuxFileName_image :
  buildToLinuxFileName "goodrain.me/percona-mysql:5.5_latest" = "percona-mysql--5.5_latest".
Proof. reflexivity. Qed.

Example buildToLinuxFileName_slug :
  buildToLinuxFileName "/app_publish/vzrd9po6/9d2635a7c59d4974bb4dc62f04/v1.0_20180207165207.tgz"
  = "v1.0_20180207165207.tgz".
Proof. reflexivity. Qed.

Example buildToLinuxFileName_trailing_slash :
  buildToLinuxFileName "registry/ns/" = "registry---ns---".
Proof. reflexivity. Qed.

(** ** [unicode2zh] *)

(** X3. A name without a backslash holds no marker: [unicode2zh] only
    trims it. *)
Theorem unicode2zh_plain_name (uText : string) :
  no_char "\" uText = true → unicode2zh uText = Go.TrimSpace uText.
Proof.
  intros H. unfold unicode2zh.
  by rewrite (Split_absent "\" "\u" uText H).
Qed.

(** The theorem at a name with blanks around it. *)
Lemma unicode2zh_plain_name_witness : unicode2zh "  gr-web 2 " = Go.TrimSpace "  gr-web 2 ".
Proof. apply unicode2zh_plain_name. reflexivity. Defined.

Lemma all_from_spec (f : Z → bool) (n : nat) : ∀ z k,
  all_from f z n = true → z <= k < z + Z.of_nat n → f k = true.
Proof.
  induction n as [|n IH]; intros z k H Hk; [lia |].
  simpl in H. apply andb_prop in H as [Hz Hn].
  destruct (decide (k = z)) as [->|Hne]; [done |].
  apply (IH (z + 1)); [done | lia].
Qed.

Lemma escapes_decoded : all_from escape_decoded 0 (Z.to_nat 65536) = true.
Proof. vm_cast_no_check (eq_refl true). Qed.

(** X4. The escape of a code point below [0x10000] decodes to the UTF-8
    bytes of that code point, and to nothing when it is white space. *)
Theorem unicode2zh_escape (r : Z) :
  0 <= r < 65536 →
  unicode2zh (escape r) = if Go.IsSpace r then "" else Go.EncodeRune r.
Proof.
  intros Hr. apply String.eqb_eq.
  apply (all_from_spec escape_decoded (Z.to_nat 65536) 0 r escapes_decoded).
  rewrite Z2Nat.id; lia.
Qed.

(** The theorem at the code point of the first letter of the example in
    the comment of [saveApps]. *)
Lemma unicode2zh_escape_witness :
  unicode2zh (escape 0x5e94) = if Go.IsSpace 0x5e94 then "" else Go.EncodeRune 0x5e94.
Proof. apply unicode2zh_escape. lia. Defined.

Example escape_5e94 : escape 0x5e94 = "\\u5e94" ∧ Go.EncodeRune 0x5e94 = "应".
Proof. by vm_compute. Qed.

(** ** [composeName] *)

Lemma byte_val_range (c : ascii) : 0 <= Go.byte_val c < 256.
Proof.
  unfold Go.byte_val. pose proof (N_ascii_bounded c) as H. lia.
Qed.

Lemma byte_of_val (c : ascii) : Go.byte_of (Go.byte_val c) = c.
Proof.
  unfold Go.byte_of. rewrite Z.mod_small by apply byte_val_range.
  unfold Go.byte_val. by rewrite N2Z.id, ascii_N_embedding.
Qed.

Lemma byte_val_of (z : Z) : 0 <= z < 256 → Go.byte_val (Go.byte_of z) = z.
Proof.
  intros Hz. unfold Go.byte_val, Go.byte_of. rewrite Z.mod_small by done.
  rewrite N_ascii_embedding by lia. lia.
Qed.

Lemma bytes_app (a b : string) : Go.bytes (a +:+ b) = Go.bytes a ++ Go.bytes b.
Proof. induction a as [|c a IH]; [done |]. rewrite append_cons. simpl. by rewrite IH. Qed.

Lemma valid_bytes_app (a b : string) :
  valid_bytes (a +:+ b) = valid_bytes a && valid_bytes b.
Proof. unfold valid_bytes. by rewrite bytes_app, forallb_app. Qed.

Lemma valid_bytes_concat (l : list string) :
  Forall (λ p, valid_bytes p = true) l → valid_bytes (Go.concat l) = true.
Proof.
  induction 1 as [|p l Hp Hl IH]; [done |]. simpl.
  by rewrite valid_bytes_app, Hp, IH.
Qed.

(** A byte that matches the pattern is an ASCII letter, digit, dot,
    underscore or hyphen. *)
Lemma matched_range (b : Z) : matched b = true → 45 <= b <= 122.
Proof. unfold matched, Go.between. lia. Qed.

Lemma matched_not_Han (b : Z) : matched b = true → Go.IsHan b = false.
Proof.
  intros H%matched_range. unfold Go.IsHan, Go.between. lia.
Qed.

Lemma matched_not_space (b : Z) : matched b = true → Go.IsSpace b = false.
Proof. unfold matched, Go.between, Go.IsSpace. lia. Qed.

Lemma EncodeRune_ascii (b : Z) : 0 <= b < 128 → Go.EncodeRune b = String (Go.byte_of b) "".
Proof.
  intros Hb. unfold Go.EncodeRune, Go.valid_rune, Go.MaxRune.
  replace ((0 <=? b) && (b <=? 1114111) && negb ((55296 <=? b) && (b <=? 57343)))
    with true by lia.
  by replace (b <=? 127) with true by lia.
Qed.

Lemma composeName_step_valid (LazyConvert : string → list string) (res : string) (r : Z) :
  (∀ s, Forall (λ p, valid_bytes p = true) (LazyConvert s)) →
  valid_bytes res = true → Go.IsHan r = true ∨ 0 <= r < 256 →
  valid_bytes (composeName_step LazyConvert res r) = true.
Proof.
  intros HL Hres Hr. unfold composeName_step.
  destruct (Go.IsHan r) eqn:EH.
  - by rewrite valid_bytes_app, Hres, valid_bytes_concat.
  - destruct Hr as [Hr|Hr]; [done |].
    rewrite Z.mod_small by done.
    destruct (matched r) eqn:Em; simpl.
    + pose proof (matched_range r Em).
      rewrite valid_bytes_app, Hres, EncodeRune_ascii by lia.
      unfold valid_bytes. simpl. rewrite byte_val_of by lia. by rewrite Em.
    + by rewrite valid_bytes_app, Hres.
Qed.

(** X5. When the decoded name holds Han characters and code points
    below 256 only, and the pinyin of a character is made of bytes that
    match the pattern, every byte of the sanitized name matches
    [[a-zA-Z0-9._-]]. *)
Theorem composeName_valid_bytes (LazyConvert : string → list string) (uText : string) :
  (∀ s, Forall (λ p, valid_bytes p = true) (LazyConvert s)) →
  Forall (λ r, Go.IsHan r = true ∨ 0 <= r < 256) (Go.runes (unicode2zh uText)) →
  valid_bytes (composeName LazyConvert uText) = true.
Proof.
  intros HL Hr. unfold composeName.
  assert (valid_bytes "" = true) as Hres by done.
  revert Hres. generalize "". induction Hr as [|r rs Hr Hrs IH]; intros res Hres; [done |].
  simpl. apply IH. by apply composeName_step_valid.
Qed.

(** The theorem at a name with a blank, a slash and a letter of Latin-1. *)
Lemma composeName_valid_bytes_witness :
  valid_bytes (composeName no_pinyin "caf\\u00e9 web/1") = true.
Proof.
  apply composeName_valid_bytes.
  - intros s. constructor.
  - match goal with
    | |- Forall _ ?l => let l' := eval vm_compute in l in change l with l'
    end.
    repeat (constructor; [right; lia |]). constructor.
Defined.

Example composeName_cafe : composeName no_pinyin "caf\\u00e9 web/1" = "caf__web_1".
Proof. by vm_compute. Qed.

(** The runes of an ASCII string are its bytes, one byte each. *)
Lemma chunks_fuel_ascii (s : string) : ∀ fuel,
  (Go.len s <= fuel)%nat →
  Forall (λ b, b < 128) (Go.bytes s) →
  Go.chunks_fuel fuel s
  = map (λ c, (Go.byte_val c, String c "")) (list_ascii_of_string s).
Proof.
  induction s as [|c s IH]; intros fuel Hf Hs; [by destruct fuel |].
  destruct fuel as [|fuel]; [simpl in Hf; lia |].
  inversion Hs as [|? ? Hc Hs']; subst.
  cbn -[Z.ltb]. replace (Go.byte_val c <? 128) with true by lia.
  simpl. f_equal. apply IH; [simpl in Hf; lia | done].
Qed.

Lemma drop_space_none (l : list (Z * string)) :
  Forall (λ p, Go.IsSpace p.1 = false) l → Go.drop_space l = l.
Proof. destruct 1 as [|[r c] l Hr Hl]; [done |]. simpl in *. by rewrite Hr. Qed.

Lemma concat_singletons (l : list ascii) :
  Go.concat (map (λ c, String c "") l) = string_of_list_ascii l.
Proof. induction l as [|c l IH]; [done |]. simpl. by rewrite IH. Qed.

Lemma valid_bytes_chars (s : string) :
  valid_bytes s = true →
  Forall (λ c, matched (Go.byte_val c) = true) (list_ascii_of_string s).
Proof.
  unfold valid_bytes. induction s as [|c s IH]; simpl; [constructor |].
  intros [Hc Hs]%andb_prop. constructor; [done | by apply IH].
Qed.

Lemma valid_bytes_ascii (s : string) :
  valid_bytes s = true → Forall (λ b, b < 128) (Go.bytes s).
Proof.
  unfold valid_bytes. induction s as [|c s IH]; simpl; [constructor |].
  intros [Hc Hs]%andb_prop. constructor; [| by apply IH].
  apply matched_range in Hc. lia.
Qed.

Lemma valid_bytes_no_backslash (s : string) : valid_bytes s = true → no_char "\" s = true.
Proof.
  unfold valid_bytes. induction s as [|c s IH]; [done |]. simpl.
  intros [Hc Hs]%andb_prop. rewrite no_char_cons, IH by done.
  rewrite andb_true_r. apply negb_true_iff, Ascii.eqb_neq. intros ->.
  by vm_compute in Hc.
Qed.

Lemma TrimSpace_valid (s : string) : valid_bytes s = true → Go.TrimSpace s = s.
Proof.
  intros Hs. unfold Go.TrimSpace, Go.chunks.
  rewrite chunks_fuel_ascii by (done || by apply valid_bytes_ascii).
  assert (Forall (λ p : Z * string, Go.IsSpace p.1 = false)
            (map (λ c, (Go.byte_val c, String c "")) (list_ascii_of_string s))) as Hns.
  { apply Forall_map. eapply Forall_impl; [by apply valid_bytes_chars |].
    intros c Hc. by apply matched_not_space. }
  rewrite (drop_space_none _ Hns).
  rewrite drop_space_none by by apply Forall_rev.
  rewrite rev_involutive, map_map. simpl.
  by rewrite concat_singletons, string_of_list_ascii_of_string.
Qed.

Lemma composeName_fold_valid (LazyConvert : string → list string) (l : list ascii) :
  ∀ res, Forall (λ c, matched (Go.byte_val c) = true) l →
  fold_left (composeName_step LazyConvert) (map Go.byte_val l) res
  = res +:+ string_of_list_ascii l.
Proof.
  induction l as [|c l IH]; intros res Hl; simpl; [by rewrite append_nil_r |].
  inversion Hl as [|? ? Hc Hl']; subst. rewrite IH by done.
  unfold composeName_step. rewrite matched_not_Han by done.
  pose proof (byte_val_range c). pose proof (matched_range _ Hc).
  rewrite Z.mod_small, Hc by done. simpl.
  rewrite EncodeRune_ascii, byte_of_val by lia.
  by rewrite append_assoc.
Qed.

(** X6. A name made of bytes that match [[a-zA-Z0-9._-]] is its own
    sanitized name. *)
Theorem composeName_fixes_valid (LazyConvert : string → list string) (s : string) :
  valid_bytes s = true → composeName LazyConvert s = s.
Proof.
  intros Hs. unfold composeName, unicode2zh.
  rewrite (Split_absent "\" "\u" s) by by apply valid_bytes_no_backslash.
  simpl unicode2zh_loop. change (unicode2zh_step 0 "" s) with s.
  rewrite TrimSpace_valid by done.
  unfold Go.runes, Go.chunks.
  rewrite chunks_fuel_ascii by (done || by apply valid_bytes_ascii).
  rewrite map_map. simpl.
  by rewrite composeName_fold_valid, string_of_list_ascii_of_string
    by by apply valid_bytes_chars.
Qed.

(** The theorem at a name in the form of a registry entry. *)
Lemma composeName_fixes_valid_witness : composeName no_pinyin "gr-web_2.1" = "gr-web_2.1".
Proof. apply composeName_fixes_valid. reflexivity. Defined.

(** ** The registry of service names *)

Section RegistryOfNames.

Variable LazyConvert : string → list string.
Variable NewUUID : nat → string.

Lemma name_step_dom acc cpt :
  dom (name_step LazyConvert NewUUID acc cpt).1.1 = {[ServiceShareID cpt]} ∪ dom acc.1.1.
Proof.
  destruct acc as [[names set] n]. unfold name_step. simpl.
  case_bool_decide; simpl; apply dom_insert_L.
Qed.

Lemma name_fold_dom (cpts : list Component) : ∀ acc,
  dom (fold_left (name_step LazyConvert NewUUID) cpts acc).1.1
  = list_to_set (map ServiceShareID cpts) ∪ dom acc.1.1.
Proof.
  induction cpts as [|cpt cpts IH]; intros acc; simpl.
  - by rewrite (left_id_L ∅ (∪)).
  - rewrite IH, name_step_dom. by rewrite (assoc_L (∪)), (comm_L (∪) (list_to_set _)).
Qed.

(** X9. The registry holds a name for the share identifier of every
    component of the manifest, and for no other key. *)
Theorem buildServiceNames_dom (cpts : list Component) (n : nat) :
  dom (buildServiceNames LazyConvert NewUUID cpts n).1
  = list_to_set (map ServiceShareID cpts).
Proof.
  unfold buildServiceNames.
  pose proof (name_fold_dom cpts (∅, ∅, n)) as H.
  destruct (fold_left _ cpts _) as [[names set] n']. simpl in *.
  by rewrite H, dom_empty_L, (right_id_L ∅ (∪)).
Qed.

Lemma name_fold_distinct (cpts : list Component) : ∀ names (set : gset string) n,
  NoDup (map (sanitized LazyConvert) cpts) →
  (∀ c, c ∈ cpts → sanitized LazyConvert c ∉ set) →
  fold_left (name_step LazyConvert NewUUID) cpts (names, set, n)
  = (fold_left (λ m c, <[ServiceShareID c := sanitized LazyConvert c]> m) cpts names,
     list_to_set (map (sanitized LazyConvert) cpts) ∪ set, n).
Proof.
  induction cpts as [|cpt cpts IH]; intros names set n Hnd Hset.
  - simpl. by rewrite (left_id_L ∅ (∪)).
  - simpl in Hnd. apply NoDup_cons in Hnd as [Hc Hnd]. cbn [fold_left map].
    assert (name_step LazyConvert NewUUID (names, set, n) cpt
            = (<[ServiceShareID cpt := sanitized LazyConvert cpt]> names,
               {[sanitized LazyConvert cpt]} ∪ set, n)) as ->.
    { unfold name_step. fold (sanitized LazyConvert cpt).
      by rewrite bool_decide_eq_false_2 by (apply Hset; in_head). }
    rewrite IH; [| done |].
    + f_equal. f_equal. by rewrite (assoc_L (∪)), (comm_L (∪) (list_to_set _)).
    + intros c Hin [Heq%elem_of_singleton|Hs]%elem_of_union.
      * apply Hc. rewrite <- Heq. apply list_elem_of_In, in_map, list_elem_of_In, Hin.
      * apply (Hset c); [in_tail | done].
Qed.

Lemma plain_fold_frame (k : string) (cpts : list Component) : ∀ m : gmap string string,
  k ∉ map ServiceShareID cpts →
  fold_left (λ m c, <[ServiceShareID c := sanitized LazyConvert c]> m) cpts m !! k = m !! k.
Proof.
  induction cpts as [|cpt cpts IH]; intros m Hk; simpl; [done |].
  simpl in Hk. apply not_elem_of_cons in Hk as [Hne Hk].
  rewrite IH by done. by apply lookup_insert_ne.
Qed.

Lemma plain_fold_lookup (cpts : list Component) : ∀ (m : gmap string string) c,
  NoDup (map ServiceShareID cpts) → c ∈ cpts →
  fold_left (λ m c, <[ServiceShareID c := sanitized LazyConvert c]> m) cpts m
    !! ServiceShareID c = Some (sanitized LazyConvert c).
Proof.
  induction cpts as [|cpt cpts IH]; intros m c Hnd Hc; simpl.
  - by apply elem_of_nil in Hc.
  - simpl in Hnd. apply NoDup_cons in Hnd as [Hid Hnd].
    apply elem_of_cons in Hc as [->|Hc]; [| by apply IH].
    rewrite plain_fold_frame by done. apply lookup_insert_eq.
Qed.

Lemma distinct_names_registry (cpts : list Component) (n : nat) (c : Component) :
  NoDup (map (sanitized LazyConvert) cpts) →
  NoDup (map ServiceShareID cpts) →
  c ∈ cpts →
  (buildServiceNames LazyConvert NewUUID cpts n).1 !! ServiceShareID c
  = Some (sanitized LazyConvert c).
Proof.
  intros Hnames Hids Hc. unfold buildServiceNames.
  rewrite name_fold_distinct; [| done | intros c' _; apply not_elem_of_empty].
  by apply plain_fold_lookup.
Qed.

Lemma name_fold_frame (k : string) (cpts : list Component) : ∀ acc,
  k ∉ map ServiceShareID cpts →
  (fold_left (name_step LazyConvert NewUUID) cpts acc).1.1 !! k = acc.1.1 !! k.
Proof.
  induction cpts as [|cpt cpts IH]; intros acc Hk; simpl; [done |].
  simpl in Hk. apply not_elem_of_cons in Hk as [Hne Hk].
  rewrite IH by done. destruct acc as [[names set] n]. unfold name_step.
  destruct (bool_decide _); simpl; by apply lookup_insert_ne.
Qed.

(** X7. When the sanitized names of the components differ from one
    another, and so do their share identifiers, the registry maps each
    share identifier to the sanitized name as it is and no UUID is
    drawn. *)
Theorem buildServiceNames_distinct (cpts : list Component) (n : nat) :
  NoDup (map (sanitized LazyConvert) cpts) →
  NoDup (map ServiceShareID cpts) →
  (buildServiceNames LazyConvert NewUUID cpts n).2 = n ∧
  ∀ c, c ∈ cpts →
    (buildServiceNames LazyConvert NewUUID cpts n).1 !! ServiceShareID c
    = Some (sanitized LazyConvert c).
Proof.
  intros Hnames Hids. unfold buildServiceNames.
  rewrite name_fold_distinct; [| done | intros c _; apply not_elem_of_empty].
  split; [done |]. intros c Hc. by apply plain_fold_lookup.
Qed.

End RegistryOfNames.

(** The theorem at a manifest of two components. *)
Lemma buildServiceNames_distinct_witness :
  (buildServiceNames no_pinyin stuck_uuid [data_owner; data_user] 7).2 = 7%nat ∧
  ∀ c, c ∈ [data_owner; data_user] →
    (buildServiceNames no_pinyin stuck_uuid [data_owner; data_user] 7).1 !! ServiceShareID c
    = Some (sanitized no_pinyin c).
Proof.
  apply (buildServiceNames_distinct no_pinyin stuck_uuid [data_owner; data_user] 7).
  - match goal with
    | |- NoDup ?l => let l' := eval vm_compute in l in change l with l'
    end.
    apply NoDup_cons. split; [| apply NoDup_singleton].
    intros H%list_elem_of_singleton. discriminate H.
  - match goal with
    | |- NoDup ?l => let l' := eval vm_compute in l in change l with l'
    end.
    apply NoDup_cons. split; [| apply NoDup_singleton].
    intros H%list_elem_of_singleton. discriminate H.
Defined.

(** X8. Of two components of a manifest with one sanitized name, the
    later, when no component after it carries its share identifier, is
    registered under that name followed by a hyphen and the first four
    characters of a UUID drawn for it: the call of [NewUUID] that follows
    the calls made for the components before it, and after which the
    number of calls made is one more. *)
Theorem repeated_name_gets_suffix
    (LazyConvert : string → list string) (NewUUID : nat → string)
    (pre mid tail : list Component) (c1 c2 : Component) (n : nat) :
  composeName LazyConvert (ServiceCname c1) = composeName LazyConvert (ServiceCname c2) →
  ServiceShareID c2 ∉ map ServiceShareID tail →
  let k := (buildServiceNames LazyConvert NewUUID (pre ++ c1 :: mid) n).2 in
  (buildServiceNames LazyConvert NewUUID (pre ++ c1 :: mid ++ c2 :: tail) n).1
    !! ServiceShareID c2
  = Some (composeName LazyConvert (ServiceCname c2) +:+ "-" +:+ Go.take 4 (NewUUID k)) ∧
  (buildServiceNames LazyConvert NewUUID (pre ++ c1 :: mid ++ [c2]) n).2 = S k.
Proof.
  intros Heq Htail k. subst k. unfold buildServiceNames.
  assert (pre ++ c1 :: mid ++ c2 :: tail = (pre ++ c1 :: mid) ++ c2 :: tail) as ->
    by (by rewrite <- app_assoc).
  assert (pre ++ c1 :: mid ++ [c2] = (pre ++ c1 :: mid) ++ [c2]) as ->
    by (by rewrite <- app_assoc).
  rewrite !(fold_left_app _ (pre ++ c1 :: mid)).
  destruct (name_fold_set LazyConvert NewUUID (pre ++ c1 :: mid) (∅, ∅, n)) as [_ Hin].
  specialize (Hin c1). rewrite Heq in Hin.
  destruct (fold_left _ (pre ++ c1 :: mid) _) as [[names set] k]. cbn [fst snd] in *.
  assert (name_step LazyConvert NewUUID (names, set, k) c2
          = (<[ServiceShareID c2 :=
                 composeName LazyConvert (ServiceCname c2) +:+ "-" +:+ Go.take 4 (NewUUID k)]>
               names,
             {[composeName LazyConvert (ServiceCname c2) +:+ "-" +:+ Go.take 4 (NewUUID k)]}
               ∪ set, S k)) as Hstep.
  { unfold name_step.
    by rewrite bool_decide_eq_true_2 by (apply Hin, elem_of_app; right; in_head). }
  cbn [fold_left]. rewrite Hstep. split; [| reflexivity].
  pose proof (name_fold_frame LazyConvert NewUUID (ServiceShareID c2) tail
                (<[ServiceShareID c2 :=
                     composeName LazyConvert (ServiceCname c2)
                       +:+ "-" +:+ Go.take 4 (NewUUID k)]> names,
                 {[composeName LazyConvert (ServiceCname c2)
                     +:+ "-" +:+ Go.take 4 (NewUUID k)]} ∪ set, S k) Htail) as Hf.
  destruct (fold_left _ tail _) as [[names' set'] k']. cbn [fst snd] in *.
  rewrite Hf. apply lookup_insert_eq.
Qed.

(** The theorem at two components called [db] followed by a third: the
    second [db] gets the suffix of the call numbered 7, the first call
    after the seven made before. *)
Lemma repeated_name_gets_suffix_witness :
  let k := (buildServiceNames no_pinyin stuck_uuid
              ([] ++ sample "db" "1" [] [] [] [] [] :: []) 7).2 in
  (buildServiceNames no_pinyin stuck_uuid
     ([] ++ sample "db" "1" [] [] [] [] []
         :: [] ++ sample "db" "2" [] [] [] [] [] :: [sample "web" "3" [] [] [] [] []]) 7).1
    !! ServiceShareID (sample "db" "2" [] [] [] [] [])
  = Some (composeName no_pinyin (ServiceCname (sample "db" "2" [] [] [] [] []))
            +:+ "-" +:+ Go.take 4 (stuck_uuid k)) ∧
  (buildServiceNames no_pinyin stuck_uuid
     ([] ++ sample "db" "1" [] [] [] [] [] :: [] ++ [sample "db" "2" [] [] [] [] []]) 7).2
  = S k.
Proof.
  apply (repeated_name_gets_suffix no_pinyin stuck_uuid [] [] [sample "web" "3" [] [] [] [] []]
           (sample "db" "1" [] [] [] [] []) (sample "db" "2" [] [] [] [] []) 7).
  - reflexivity.
  - intros H. apply list_elem_of_singleton in H. discriminate H.
Defined.

Example repeated_name_with_suffix :
  (buildServiceNames no_pinyin stuck_uuid
     [sample "db" "1" [] [] [] [] []; sample "db" "2" [] [] [] [] [];
      sample "web" "3" [] [] [] [] []] 7).1 !! "2"
  = Some "db-5f3a".
Proof. by vm_compute. Qed.

(** ** The volumes of a service *)

Lemma buildVolume_not_empty (serviceName : string) (vol : ComponentVolume) :
  String.eqb (buildVolume serviceName vol).1.2 "" = false.
Proof.
  unfold buildVolume. destruct (String.eqb (VolumeType vol) "config-file"); simpl.
  - done.
  - by apply append_not_empty.
Qed.

Lemma own_volume_binds id sn acc vol :
  (own_volume id sn acc vol).1.1 = acc.1.1 ++ [(buildVolume sn vol).1.1].
Proof.
  destruct acc as [[volumes vlist] vmaps]. unfold own_volume.
  destruct (buildVolume sn vol) as [[svolume composeVolume] isConfig].
  by destruct (negb _).
Qed.

Lemma own_volume_fold_binds id sn (vols : list ComponentVolume) : ∀ acc,
  (fold_left (own_volume id sn) vols acc).1.1
  = acc.1.1 ++ map (λ vol, (buildVolume sn vol).1.1) vols.
Proof.
  induction vols as [|vol vols IH]; intros acc; simpl.
  - by rewrite app_nil_r.
  - by rewrite IH, own_volume_binds, <- app_assoc.
Qed.

Lemma own_volumes_component names st cpt :
  componentVolumes (own_volumes names st cpt)
  = <[ServiceShareID cpt := own_binds names cpt]> (componentVolumes st).
Proof.
  unfold own_volumes, own_binds.
  pose proof (own_volume_fold_binds (ServiceShareID cpt)
                (GetServiceName names (ServiceShareID cpt))
                (ServiceVolumeMapList cpt) ([], volumeList st, volumeMaps st)) as H.
  destruct (fold_left _ _ _) as [[volumes vlist] vmaps]. simpl in *. by rewrite H.
Qed.

Lemma own_volumes_warnings names st cpt :
  warnings (own_volumes names st cpt) = warnings st.
Proof. unfold own_volumes. by destruct (fold_left _ _ _) as [[? ?] ?]. Qed.

Lemma own_volumes_fold_warnings names cpts : ∀ st,
  warnings (fold_left (own_volumes names) cpts st) = warnings st.
Proof.
  induction cpts as [|cpt cpts IH]; intros st; simpl; [done |].
  by rewrite IH, own_volumes_warnings.
Qed.

Lemma own_volumes_fold_component names (k : string) cpts : ∀ st,
  (∀ c, c ∈ cpts → ServiceShareID c ≠ k) →
  componentVolumes (fold_left (own_volumes names) cpts st) !! k = componentVolumes st !! k.
Proof.
  induction cpts as [|cpt cpts IH]; intros st Hk; simpl; [done |].
  rewrite IH by (intros c Hc; apply Hk; in_tail).
  rewrite own_volumes_component. apply lookup_insert_ne, Hk. in_head.
Qed.

Lemma dep_volume_component_ne id (k : string) st dvol :
  id ≠ k → componentVolumes (dep_volume id st dvol) !! k = componentVolumes st !! k.
Proof.
  intros Hne. unfold dep_volume. destruct (String.eqb _ _); simpl; [done |].
  by apply lookup_insert_ne.
Qed.

Lemma dep_volume_component_eq id st dvol own :
  componentVolumes st !! id = Some own →
  componentVolumes (dep_volume id st dvol) !! id
  = Some (own ++ dep_bind (volumeMaps st) dvol).
Proof.
  intros Hown. unfold dep_volume, dep_bind, missing.
  destruct (String.eqb _ _); simpl.
  - by rewrite app_nil_r.
  - by rewrite lookup_insert_eq, Hown.
Qed.

Lemma dep_volume_warnings id st dvol :
  warnings (dep_volume id st dvol)
  = warnings st ++ (if missing (volumeMaps st) dvol then [not_found dvol] else []).
Proof.
  unfold dep_volume, missing. destruct (String.eqb _ _); simpl; [done |].
  by rewrite app_nil_r.
Qed.

Lemma dep_volume_fold_component_ne id (k : string) (l : list ComponentVolumeDep) : ∀ st,
  id ≠ k →
  componentVolumes (fold_left (dep_volume id) l st) !! k = componentVolumes st !! k.
Proof.
  induction l as [|dvol l IH]; intros st Hne; simpl; [done |].
  by rewrite IH, dep_volume_component_ne.
Qed.

Lemma dep_volume_fold_component_eq id (l : list ComponentVolumeDep) : ∀ st own,
  componentVolumes st !! id = Some own →
  componentVolumes (fold_left (dep_volume id) l st) !! id
  = Some (own ++ flat_map (dep_bind (volumeMaps st)) l).
Proof.
  induction l as [|dvol l IH]; intros st own Hown; simpl.
  - by rewrite app_nil_r.
  - rewrite (IH _ (own ++ dep_bind (volumeMaps st) dvol))
      by by apply dep_volume_component_eq.
    by rewrite dep_volume_maps, <- app_assoc.
Qed.

Lemma dep_volume_fold_warnings id (l : list ComponentVolumeDep) : ∀ st,
  warnings (fold_left (dep_volume id) l st)
  = warnings st ++ map not_found (filter (λ dvol, missing (volumeMaps st) dvol = true) l).
Proof.
  induction l as [|dvol l IH]; intros st; simpl.
  - by rewrite app_nil_r.
  - rewrite IH, dep_volume_warnings, dep_volume_maps, <- app_assoc. f_equal.
    rewrite filter_cons. by destruct (missing (volumeMaps st) dvol).
Qed.

Lemma dep_volumes_fold_component (k : string) cpts : ∀ st,
  (∀ c, c ∈ cpts → ServiceShareID c ≠ k) →
  componentVolumes (fold_left dep_volumes cpts st) !! k = componentVolumes st !! k.
Proof.
  induction cpts as [|cpt cpts IH]; intros st Hk; simpl; [done |].
  rewrite IH by (intros c Hc; apply Hk; in_tail).
  apply dep_volume_fold_component_ne, Hk. in_head.
Qed.

Lemma dep_volumes_maps st cpt : volumeMaps (dep_volumes st cpt) = volumeMaps st.
Proof. apply dep_volume_fold_maps. Qed.

Lemma dep_volumes_warnings st cpt :
  warnings (dep_volumes st cpt)
  = warnings st
    ++ map not_found
         (filter (λ dvol, missing (volumeMaps st) dvol = true) (MntReleationList cpt)).
Proof. apply dep_volume_fold_warnings. Qed.

Lemma dep_volumes_fold_warnings cpts : ∀ st,
  warnings (fold_left dep_volumes cpts st)
  = warnings st
    ++ map not_found
         (filter (λ dvol, missing (volumeMaps st) dvol = true)
            (flat_map MntReleationList cpts)).
Proof.
  induction cpts as [|cpt cpts IH]; intros st; cbn [fold_left flat_map].
  - by rewrite app_nil_r.
  - rewrite IH, dep_volumes_warnings, dep_volumes_maps, <- app_assoc. f_equal.
    by rewrite filter_app, map_app.
Qed.

Lemma service_volumes_of_component (names : gmap string string)
    (pre post : list Component) (cpt : Component) :
  (∀ c, c ∈ pre ++ post → ServiceShareID c ≠ ServiceShareID cpt) →
  let st := buildVolumes names (pre ++ cpt :: post) in
  componentVolumes st !! ServiceShareID cpt
  = Some (own_binds names cpt ++ dep_binds (volumeMaps st) cpt).
Proof.
  intros Hid st. subst st. unfold buildVolumes.
  set (st1 := fold_left (own_volumes names) (pre ++ cpt :: post) _).
  assert (componentVolumes st1 !! ServiceShareID cpt = Some (own_binds names cpt)) as Hown.
  { subst st1. rewrite fold_left_app. simpl.
    rewrite own_volumes_fold_component
      by (intros c Hc; apply Hid, elem_of_app; by right).
    rewrite own_volumes_component. apply lookup_insert_eq. }
  rewrite dep_volumes_fold_maps, fold_left_app. simpl.
  rewrite dep_volumes_fold_component
    by (intros c Hc; apply Hid, elem_of_app; by right).
  unfold dep_volumes at 1, dep_binds.
  rewrite (dep_volume_fold_component_eq _ _ _ (own_binds names cpt)).
  - by rewrite dep_volumes_fold_maps.
  - rewrite dep_volumes_fold_component
      by (intros c Hc; apply Hid, elem_of_app; by left).
    exact Hown.
Qed.

(** X10. For a component whose share identifier no other component
    carries, the volume list of its service is the binds of its own
    volumes, in their order, followed by the binds of its dependent
    volumes that are found, in their order. *)
Theorem service_volumes_own_then_dependent (names : gmap string string)
    (pre post : list Component) (cpt : Component) :
  (∀ c, c ∈ pre ++ post → ServiceShareID c ≠ ServiceShareID cpt) →
  let st := buildVolumes names (pre ++ cpt :: post) in
  componentVolumes st !! ServiceShareID cpt
  = Some (own_binds names cpt ++ dep_binds (volumeMaps st) cpt).
Proof. apply service_volumes_of_component. Qed.

(** The theorem at the manifest of [data_owner] and [data_user]. *)
Lemma service_volumes_own_then_dependent_witness :
  let st := buildVolumes {["1" := "a"; "2" := "b"]} ([data_owner] ++ data_user :: []) in
  componentVolumes st !! ServiceShareID data_user
  = Some (own_binds {["1" := "a"; "2" := "b"]} data_user
            ++ dep_binds (volumeMaps st) data_user).
Proof.
  apply (service_volumes_own_then_dependent {["1" := "a"; "2" := "b"]}
           [data_owner] [] data_user).
  intros c Hc. apply elem_of_app in Hc as [Hc|Hc].
  - apply list_elem_of_singleton in Hc as ->. discriminate.
  - by apply elem_of_nil in Hc.
Defined.

(** X11. The warnings of [buildVolumes] are the lines of the dependent
    volumes whose key the first loop has not written, in the order of the
    manifest, one line each. *)
Theorem buildVolumes_warnings (names : gmap string string) (cpts : list Component) :
  let st := buildVolumes names cpts in
  warnings st
  = map not_found
      (filter (λ dvol, missing (volumeMaps st) dvol = true)
         (flat_map MntReleationList cpts)).
Proof.
  intros st. subst st. unfold buildVolumes.
  by rewrite dep_volumes_fold_warnings, dep_volumes_fold_maps, own_volumes_fold_warnings.
Qed.

Lemma own_volume_maps id sn acc vol :
  (own_volume id sn acc vol).2 = <[id +:+ VolumeName vol := (buildVolume sn vol).1.2]> acc.2.
Proof.
  destruct acc as [[volumes vlist] vmaps]. unfold own_volume.
  pose proof (buildVolume_not_empty sn vol) as Hne.
  destruct (buildVolume sn vol) as [[svolume cv] isConfig]. simpl in *.
  by rewrite Hne.
Qed.

(** The first loop leaves under a key the value that every volume with
    that key agrees on. *)
Lemma own_volume_fold_value id sn (k v : string) (vols : list ComponentVolume) : ∀ acc,
  (∀ vol, vol ∈ vols → id +:+ VolumeName vol = k → (buildVolume sn vol).1.2 = v) →
  acc.2 !! k = Some v ∨ (∃ vol, vol ∈ vols ∧ id +:+ VolumeName vol = k) →
  (fold_left (own_volume id sn) vols acc).2 !! k = Some v.
Proof.
  induction vols as [|vol vols IH]; intros acc Hv Hk; simpl.
  - destruct Hk as [Hk|(vol & Hvol & _)]; [done | by apply elem_of_nil in Hvol].
  - apply IH; [intros vol' Hin; apply Hv; in_tail |].
    rewrite own_volume_maps.
    destruct (decide (id +:+ VolumeName vol = k)) as [Heq|Hne].
    + left. rewrite Heq, lookup_insert_eq. f_equal. apply Hv; [in_head | done].
    + rewrite lookup_insert_ne by done.
      destruct Hk as [Hk|(vol' & Hvol & Hkey)]; [by left |].
      apply elem_of_cons in Hvol as [->|Hvol]; [done |]. right. eauto.
Qed.

Lemma own_volumes_value names (k v : string) st cpt :
  (∀ vol, vol ∈ ServiceVolumeMapList cpt → ServiceShareID cpt +:+ VolumeName vol = k →
     composeVolume names cpt vol = v) →
  volumeMaps st !! k = Some v
  ∨ (∃ vol, vol ∈ ServiceVolumeMapList cpt ∧ ServiceShareID cpt +:+ VolumeName vol = k) →
  volumeMaps (own_volumes names st cpt) !! k = Some v.
Proof.
  intros Hv Hk. unfold own_volumes.
  pose proof (own_volume_fold_value (ServiceShareID cpt)
                (GetServiceName names (ServiceShareID cpt)) k v
                (ServiceVolumeMapList cpt) ([], volumeList st, volumeMaps st) Hv Hk) as H.
  by destruct (fold_left _ _ _) as [[volumes vlist] vmaps].
Qed.

Lemma own_volumes_fold_value names (k v : string) cpts : ∀ st,
  (∀ c vol, c ∈ cpts → vol ∈ ServiceVolumeMapList c →
     ServiceShareID c +:+ VolumeName vol = k → composeVolume names c vol = v) →
  volumeMaps st !! k = Some v
  ∨ (∃ c vol, c ∈ cpts ∧ vol ∈ ServiceVolumeMapList c ∧
       ServiceShareID c +:+ VolumeName vol = k) →
  volumeMaps (fold_left (own_volumes names) cpts st) !! k = Some v.
Proof.
  induction cpts as [|cpt cpts IH]; intros st Hv Hk; simpl.
  - destruct Hk as [Hk|(c & vol & Hc & _)]; [done | by apply elem_of_nil in Hc].
  - apply IH; [intros c vol Hc; apply Hv; in_tail |].
    destruct Hk as [Hk|(c & vol & Hc & Hvol & Hkey)].
    + left. apply own_volumes_value; [intros vol; apply Hv; in_head | by left].
    + apply elem_of_cons in Hc as [->|Hc]; [| right; eauto].
      left. apply own_volumes_value; [intros vol'; apply Hv; in_head |].
      right. eauto.
Qed.

(** The second loop only adds binds. *)
Lemma dep_volume_keeps (x k : string) id st dvol :
  x ∈ default [] (componentVolumes st !! k) →
  x ∈ default [] (componentVolumes (dep_volume id st dvol) !! k).
Proof.
  intros Hx. unfold dep_volume. destruct (String.eqb _ _); simpl; [done |].
  destruct (decide (id = k)) as [->|Hne].
  - rewrite lookup_insert_eq. simpl. apply elem_of_app. by left.
  - by rewrite lookup_insert_ne.
Qed.

Lemma dep_volume_fold_keeps (x k : string) id (l : list ComponentVolumeDep) : ∀ st,
  x ∈ default [] (componentVolumes st !! k) →
  x ∈ default [] (componentVolumes (fold_left (dep_volume id) l st) !! k).
Proof.
  induction l as [|dvol l IH]; intros st Hx; simpl; [done |].
  by apply IH, dep_volume_keeps.
Qed.

Lemma dep_volumes_fold_keeps (x k : string) cpts : ∀ st,
  x ∈ default [] (componentVolumes st !! k) →
  x ∈ default [] (componentVolumes (fold_left dep_volumes cpts st) !! k).
Proof.
  induction cpts as [|cpt cpts IH]; intros st Hx; simpl; [done |].
  by apply IH, dep_volume_fold_keeps.
Qed.

Lemma dep_volume_adds id st dvol (v : string) :
  volumeMaps st !! (ShareServiceUUID dvol +:+ DepVolumeName dvol) = Some v → v ≠ "" →
  (v +:+ ":" +:+ VolumeMountDir dvol)
    ∈ default [] (componentVolumes (dep_volume id st dvol) !! id).
Proof.
  intros Hv Hne. unfold dep_volume, at_key. rewrite Hv. simpl.
  apply String.eqb_neq in Hne. rewrite Hne. simpl.
  rewrite lookup_insert_eq. simpl. apply elem_of_app. right. in_head.
Qed.

(** X12. When a component asks for a volume that a component declares,
    and every volume filed under the same key has the same left side, the
    service of the asking component gets the bind of that left side at
    the mount directory asked for. *)
Theorem dependent_volume_is_bound (names : gmap string string) (cpts : list Component)
    (A B : Component) (vol : ComponentVolume) (dvol : ComponentVolumeDep) :
  A ∈ cpts → vol ∈ ServiceVolumeMapList A →
  B ∈ cpts → dvol ∈ MntReleationList B →
  ShareServiceUUID dvol = ServiceShareID A → DepVolumeName dvol = VolumeName vol →
  (∀ c' vol', c' ∈ cpts → vol' ∈ ServiceVolumeMapList c' →
     ServiceShareID c' +:+ VolumeName vol' = ServiceShareID A +:+ VolumeName vol →
     composeVolume names c' vol' = composeVolume names A vol) →
  (composeVolume names A vol +:+ ":" +:+ VolumeMountDir dvol)
    ∈ default [] (componentVolumes (buildVolumes names cpts) !! ServiceShareID B).
Proof.
  intros HA Hvol HB Hdvol Huuid Hname Hkey. unfold buildVolumes.
  set (st1 := fold_left (own_volumes names) cpts _).
  assert (volumeMaps st1 !! (ShareServiceUUID dvol +:+ DepVolumeName dvol)
          = Some (composeVolume names A vol)) as Hmap.
  { subst st1. rewrite Huuid, Hname.
    apply own_volumes_fold_value; [done |]. right. eauto. }
  clearbody st1.
  apply list_elem_of_split in HB as (pre & post & ->).
  apply list_elem_of_split in Hdvol as (d1 & d2 & Hmnt).
  rewrite fold_left_app. simpl. apply dep_volumes_fold_keeps.
  unfold dep_volumes at 1. rewrite Hmnt, fold_left_app. simpl.
  apply dep_volume_fold_keeps, dep_volume_adds.
  - by rewrite dep_volume_fold_maps, dep_volumes_fold_maps.
  - apply String.eqb_neq, buildVolume_not_empty.
Qed.

(** The theorem at the manifest of [data_owner] and [data_user], for the
    volume [data]. *)
Lemma dependent_volume_is_bound_witness :
  (composeVolume {["1" := "a"; "2" := "b"]} data_owner
     {| VolumeName := "data"; VolumeMountPath := "/var/lib/data";
        VolumeType := "share-file"; FileConent := "" |}
     +:+ ":" +:+ VolumeMountDir data_edge)
    ∈ default [] (componentVolumes
                    (buildVolumes {["1" := "a"; "2" := "b"]} [data_owner; data_user])
                  !! ServiceShareID data_user).
Proof.
  apply (dependent_volume_is_bound {["1" := "a"; "2" := "b"]} [data_owner; data_user]
           data_owner data_user
           {| VolumeName := "data"; VolumeMountPath := "/var/lib/data";
              VolumeType := "share-file"; FileConent := "" |}
           data_edge).
  - in_head.
  - in_head.
  - apply elem_of_cons. right. in_head.
  - apply elem_of_cons. right. in_head.
  - reflexivity.
  - reflexivity.
  - intros c' vol' Hc Hv Hk.
    apply elem_of_cons in Hc as [->|Hc].
    + apply list_elem_of_singleton in Hv as ->. reflexivity.
    + apply list_elem_of_singleton in Hc as ->. by apply elem_of_nil in Hv.
Defined.

Example dependent_volume_bind :
  composeVolume {["1" := "a"; "2" := "b"]} data_owner
    {| VolumeName := "data"; VolumeMountPath := "/var/lib/data";
       VolumeType := "share-file"; FileConent := "" |}
    +:+ ":" +:+ VolumeMountDir data_edge
  = "a_data:/mnt/a-data".
Proof. by vm_compute. Qed.

(** ** The environment of a service *)

Lemma getPublicEnvByKey_unknown (key : string) (apps : list Component) :
  (∀ a, a ∈ apps → ServiceShareID a ≠ key) → getPublicEnvByKey key apps = ∅.
Proof.
  induction apps as [|a apps IH]; intros Hk; simpl; [done |].
  assert (ServiceShareID a ≠ key) as Hne by (apply Hk; in_head).
  apply String.eqb_neq in Hne. rewrite Hne. apply IH.
  intros a' Ha'. apply Hk. in_tail.
Qed.

Lemma getDependedService_unknown (key : string) (apps : list Component) :
  (∀ a, a ∈ apps → ServiceShareID a ≠ key) → getDependedService key apps = "".
Proof.
  induction apps as [|a apps IH]; intros Hk; simpl; [done |].
  assert (ServiceShareID a ≠ key) as Hne by (apply Hk; in_head).
  apply not_eq_sym, String.eqb_neq in Hne. rewrite Hne. apply IH.
  intros a' Ha'. apply Hk. in_tail.
Qed.

(** X13. A dependency edge whose key no app carries imports no variable
    and adds no name to [depends_on]: the loop over the edges gives what
    it gives without that edge. *)
Theorem unknown_dependency_ignored (LazyConvert : string → list string)
    (apps : list Component) (key : string) (d1 d2 : list string)
    (acc : gmap string string * list string) :
  (∀ a, a ∈ apps → ServiceShareID a ≠ key) →
  fold_left (dep_step LazyConvert apps) (d1 ++ key :: d2) acc
  = fold_left (dep_step LazyConvert apps) (d1 ++ d2) acc.
Proof.
  intros Hk. rewrite !fold_left_app. simpl. f_equal.
  destruct (fold_left _ d1 acc) as [envs depServices]. unfold dep_step.
  rewrite getPublicEnvByKey_unknown, getDependedService_unknown by done.
  by rewrite map_fold_empty.
Qed.

(** The theorem at [override_manifest] and an edge to a share identifier
    that is not in it. *)
Lemma unknown_dependency_ignored_witness :
  fold_left (dep_step no_pinyin (Components override_manifest)) (["1"] ++ "9" :: []) (∅, [])
  = fold_left (dep_step no_pinyin (Components override_manifest)) (["1"] ++ []) (∅, []).
Proof.
  apply unknown_dependency_ignored.
  intros a Ha. apply elem_of_cons in Ha as [->|Ha]; [discriminate |].
  apply list_elem_of_singleton in Ha as ->. discriminate.
Defined.

Lemma render_step_dom (envs : gmap string string) (key : string) :
  dom (render_step envs key) = dom envs.
Proof.
  unfold render_step. destruct (envs !! key) as [value|] eqn:E; [| done].
  rewrite dom_insert_L. apply elem_of_dom_2 in E.
  by apply subseteq_union_1_L, singleton_subseteq_l.
Qed.

Lemma render_fold_dom (order : list string) (envs : gmap string string) :
  dom (renderEnvs order envs) = dom envs.
Proof.
  unfold renderEnvs. revert envs.
  induction order as [|key order IH]; intros envs; simpl; [done |].
  by rewrite IH, render_step_dom.
Qed.

(** X14. Rendering neither adds nor removes a variable: the rendered
    environment has the keys of the merged one, in whatever order the
    keys are met and whatever [ParseVariable] makes of a value. *)
Theorem renderEnvs_dom (order : list string) (envs : gmap string string) :
  dom (renderEnvs order envs) = dom envs.
Proof. apply render_fold_dom. Qed.

Section ServiceEnvironment.

Variable LazyConvert : string → list string.
Variable NewUUID : nat → string.
Variable GetMemoryType : Z → string.
Variable keyOrder : gmap string string → list string.

Lemma private_step_dom acc item (k : string) :
  k ∈ dom acc.1 → k ∈ dom (private_step NewUUID acc item).1.
Proof.
  destruct acc as [envs n]. unfold private_step. simpl. intros Hk.
  destruct (String.eqb _ _); simpl; rewrite !dom_insert_L; set_solver.
Qed.

Lemma private_fold_dom (items : list EnvItem) (k : string) : ∀ acc,
  k ∈ dom acc.1 → k ∈ dom (fold_left (private_step NewUUID) items acc).1.
Proof.
  induction items as [|item items IH]; intros acc Hk; simpl; [done |].
  by apply IH, private_step_dom.
Qed.

Lemma public_fold_dom (items : list EnvItem) (k : string) : ∀ envs : gmap string string,
  k ∈ dom envs → k ∈ dom (fold_left public_step items envs).
Proof.
  induction items as [|item items IH]; intros envs Hk; simpl; [done |].
  apply IH. unfold public_step. rewrite dom_insert_L. set_solver.
Qed.

Lemma dep_fold_dom apps (deps : list string) (k : string) : ∀ acc,
  k ∈ dom acc.1 → k ∈ dom (fold_left (dep_step LazyConvert apps) deps acc).1.
Proof.
  induction deps as [|key deps IH]; intros acc Hk; simpl; [done |].
  apply IH. rewrite dep_step_envs, dom_union_L. set_solver.
Qed.

(** X15. The environment of every service defines [MEMORY_SIZE]. *)
Theorem resolveEnvs_memory_size (apps : list Component) (app : Component) (n : nat) :
  is_Some (resolveEnvs LazyConvert NewUUID GetMemoryType keyOrder apps app n
             !! "MEMORY_SIZE").
Proof.
  apply elem_of_dom. unfold resolveEnvs. rewrite render_fold_dom. unfold mergeEnvs.
  pose proof (private_fold_dom (ServiceEnvMapList app) "MEMORY_SIZE"
                (seedEnvs GetMemoryType app, n)) as Hp.
  destruct (fold_left _ (ServiceEnvMapList app) _) as [envs0 n']. simpl in Hp.
  pose proof (dep_fold_dom apps (DepServiceMapList app) "MEMORY_SIZE"
                (fold_left public_step (ServiceConnectInfoMapList app) envs0, [])) as Hd.
  destruct (fold_left (dep_step LazyConvert apps) _ _) as [envs depServices].
  simpl in *. apply Hd, public_fold_dom, Hp.
  unfold seedEnvs. rewrite dom_insert_L. set_solver.
Qed.

Lemma private_step_count acc item :
  (private_step NewUUID acc item).2
  = (acc.2 + length (placeholders [item]))%nat.
Proof.
  destruct acc as [envs n]. unfold private_step, placeholders, at_key. simpl.
  rewrite lookup_insert_eq. simpl.
  destruct (String.eqb (attr_value item) "**None**"); simpl; lia.
Qed.

Lemma private_fold_count (items : list EnvItem) : ∀ acc,
  (fold_left (private_step NewUUID) items acc).2
  = (acc.2 + length (placeholders items))%nat.
Proof.
  induction items as [|item items IH]; intros acc; simpl; [lia |].
  rewrite IH, private_step_count. unfold placeholders. simpl.
  destruct (String.eqb (attr_value item) "**None**"); simpl; lia.
Qed.

(** X16. Building the environment of an app draws one UUID for each of
    its private entries whose value is the placeholder, and no other. *)
Theorem mergeEnvs_draws (apps : list Component) (app : Component) (n : nat) :
  (mergeEnvs LazyConvert NewUUID GetMemoryType apps app n).2
  = (n + length (placeholders (ServiceEnvMapList app)))%nat.
Proof.
  unfold mergeEnvs.
  pose proof (private_fold_count (ServiceEnvMapList app) (seedEnvs GetMemoryType app, n)) as H.
  destruct (fold_left _ (ServiceEnvMapList app) _) as [envs0 n'].
  by destruct (fold_left (dep_step LazyConvert apps) _ _).
Qed.

End ServiceEnvironment.

Example placeholder_replaced :
  let r :=
    mergeEnvs no_pinyin stuck_uuid small_memory []
      (sample "db" "1"
         [{| attr_name := "MYSQL_PASS"; attr_value := "**None**" |};
          {| attr_name := "MYSQL_USER"; attr_value := "admin" |}] [] [] [] []) 3 in
  r.1.1 !! "MYSQL_PASS" = Some "5f3a9c0e" ∧ r.1.1 !! "MYSQL_USER" = Some "admin" ∧
  r.2 = 4%nat.
Proof. by vm_compute. Qed.

(** ** A run of the export *)

Lemma run_steps_ran (h : Host) (steps : list Step) : ∀ done_ todo,
  todo = done_ ++ steps →
  (∀ s, s ∈ done_ → StepError h s = None) →
  ran h todo (run_steps h steps done_).1 (run_steps h steps done_).2.
Proof.
  induction steps as [|s steps IH]; intros done_ todo -> Hdone; simpl.
  - rewrite app_nil_r. by split.
  - destruct (StepError h s) as [e|] eqn:E; simpl.
    + exists done_, s, steps. by repeat split.
    + apply IH; [by rewrite <- app_assoc |].
      intros s' [Hs'|Hs'%list_elem_of_singleton]%elem_of_app;
        [by apply Hdone | by subst].
Qed.

(** X17. On a workspace that is not up to date an export enters its
    stages in order and stops at the first one that fails, whose error it
    returns; it returns no error only when every stage, the status update
    included, went through. *)
Theorem export_stops_at_first_error (h : Host) (i : ExportApp) :
  (isLatest h i).1 = false →
  ran h compose_stages (exportDockerCompose h i).1 (exportDockerCompose h i).2 ∧
  ran h rainbond_stages (exportRainbondAPP h i).1 (exportRainbondAPP h i).2.
Proof.
  intros H. unfold exportDockerCompose, exportRainbondAPP. rewrite H.
  split; apply run_steps_ran; try done; intros s Hs; by apply elem_of_nil in Hs.
Qed.

(** The theorem at a host on which zipping fails. *)
Lemma export_stops_at_first_error_witness :
  ran failing_host compose_stages
    (exportDockerCompose failing_host compose_task).1
    (exportDockerCompose failing_host compose_task).2 ∧
  ran failing_host rainbond_stages
    (exportRainbondAPP failing_host compose_task).1
    (exportRainbondAPP failing_host compose_task).2.
Proof. apply export_stops_at_first_error. reflexivity. Defined.

Example export_fails_at_zip :
  Run failing_host compose_task
  = (Some "zip: no space left on device",
     [DoCleanSourceDir; DoSaveComponents; DoBuildDockerComposeYaml;
      DoBuildStartScript; DoZip; DoUpdateStatus "failed"]).
Proof. reflexivity. Qed.

Lemma ran_last (h : Host) (stages : list Step) (err : option error) (trace : list Step)
    (status : string) :
  ran h (stages ++ [DoUpdateStatus status]) err trace →
  err = None → last trace = Some (DoUpdateStatus status).
Proof. intros H ->. destruct H as [-> _]. apply last_snoc. Qed.

(** X18. A run in a format [Run] knows ends with a status update,
    [success] when it returns no error and [failed] when it returns one;
    a run in any other format returns an error without entering a stage
    or updating the status. *)
Theorem Run_ends_with_status (h : Host) (i : ExportApp) :
  if supported (Format i)
  then last (Run h i).2
       = Some (DoUpdateStatus (match (Run h i).1 with None => "success" | Some _ => "failed" end))
  else Run h i = (Some ("Unsupported the format: " +:+ Format i), []).
Proof.
  assert (∀ r : option error * list Step,
            (r.1 = None → last r.2 = Some (DoUpdateStatus "success")) →
            last (on_error r).2
            = Some (DoUpdateStatus
                      (match (on_error r).1 with None => "success" | Some _ => "failed" end)))
    as Hon.
  { intros [[e|] tr] Hr; unfold on_error; simpl; [apply last_snoc | by apply Hr]. }
  unfold supported, Run.
  destruct (String.eqb (Format i) "rainbond-app") eqn:E1; simpl.
  - apply Hon. intros Hnone. unfold exportRainbondAPP in *.
    destruct (isLatest h i).1 eqn:EL; [done |].
    pose proof (run_steps_ran h rainbond_stages [] rainbond_stages eq_refl) as Hr.
    unfold rainbond_stages in *. rewrite Hnone in Hr.
    destruct Hr as [-> _]; [intros s Hs; by apply elem_of_nil in Hs | done].
  - destruct (String.eqb (Format i) "docker-compose") eqn:E2; [| done].
    apply Hon. intros Hnone. unfold exportDockerCompose in *.
    destruct (isLatest h i).1 eqn:EL; [done |].
    pose proof (run_steps_ran h compose_stages [] compose_stages eq_refl) as Hr.
    unfold compose_stages in *. rewrite Hnone in Hr.
    destruct Hr as [-> _]; [intros s Hs; by apply elem_of_nil in Hs | done].
Qed.

(** ** Staging of the components *)

Lemma find_volume_first (volumeName : string) (vols : list ComponentVolume) :
  match find_volume volumeName vols with
  | Some vol =>
      ∃ before after, vols = before ++ vol :: after ∧ VolumeName vol = volumeName ∧
        Forall (λ v, VolumeName v ≠ volumeName) before
  | None => Forall (λ v, VolumeName v ≠ volumeName) vols
  end.
Proof.
  induction vols as [|v rest IH]; cbn [find_volume].
  - constructor.
  - destruct (String.eqb_spec (VolumeName v) volumeName) as [Heq | Hne].
    + exists [], rest. split; [reflexivity | split; [exact Heq | constructor]].
    + destruct (find_volume volumeName rest) as [vol|].
      * destruct IH as (before & after & -> & Hn & Hb).
        exists (v :: before), after.
        split; [reflexivity | split; [exact Hn | constructor; assumption]].
      * constructor; assumption.
Qed.

(** X19. [findDepVolume] returns the first volume of that name among the
    volumes filed under the key, and nothing exactly when none of them
    has the name; a key that is not in the map has no volumes. *)
Theorem findDepVolume_first (allVolumes : gmap string (list ComponentVolume))
    (key volumeName : string) :
  let vols := default [] (allVolumes !! key) in
  match findDepVolume allVolumes key volumeName with
  | Some vol =>
      ∃ before after, vols = before ++ vol :: after ∧ VolumeName vol = volumeName ∧
        Forall (λ v, VolumeName v ≠ volumeName) before
  | None => Forall (λ v, VolumeName v ≠ volumeName) vols
  end.
Proof. intros vols. apply find_volume_first. Qed.

Lemma TrimRightByte_no_char (c : ascii) (s : string) :
  no_char c s = true → GoStrings.TrimRightByte c s = s.
Proof.
  induction s as [|a s IH]; [reflexivity|].
  rewrite no_char_cons. intros [Ha Hs]%andb_prop.
  cbn [GoStrings.TrimRightByte]. rewrite (IH Hs).
  apply negb_true_iff in Ha. rewrite Ha, andb_false_r. reflexivity.
Qed.

Lemma TrimRightByte_app (c : ascii) (s t : string) :
  t ≠ "" → no_char c t = true → GoStrings.TrimRightByte c (s +:+ t) = s +:+ t.
Proof.
  intros Ht Hc. induction s as [|a s IH].
  - apply TrimRightByte_no_char, Hc.
  - rewrite append_cons. cbn [GoStrings.TrimRightByte]. rewrite IH.
    destruct (s +:+ t) as [|b u] eqn:E; [|reflexivity].
    exfalso. destruct s; [apply Ht, E | discriminate E].
Qed.

Lemma buildVolume_clean_config (serviceName p : string) (comps : list string)
    (vol : ComponentVolume) :
  VolumeType vol = "config-file" →
  element serviceName = true →
  Forall (λ y, element y = true) (p :: comps) →
  VolumeMountPath vol = "/" +:+ Go.join_with "/" (p :: comps) →
  (buildVolume serviceName vol).1.1
  = "./" +:+ (serviceName +:+ VolumeMountPath vol) +:+ ":" +:+ VolumeMountPath vol.
Proof.
  intros Ht Hs Hc Hp. unfold buildVolume. rewrite Ht.
  change (String.eqb "config-file" "config-file") with true. cbn [fst snd].
  rewrite Hp, (Join_clean_absolute serviceName (p :: comps) Hs Hc).
  change (Go.join_with "/" (serviceName :: p :: comps))
    with (serviceName +:+ "/" +:+ Go.join_with "/" (p :: comps)).
  by rewrite !append_assoc.
Qed.

Lemma configFileName_element (sourceDir serviceName : string) (vol : ComponentVolume) :
  element serviceName = true →
  configFileName (sourceDir +:+ "/" +:+ serviceName) vol
  = sourceDir +:+ "/" +:+ (serviceName +:+ VolumeMountPath vol).
Proof.
  intros Hs. unfold configFileName.
  rewrite <- append_assoc.
  rewrite (TrimRightByte_app "/" (sourceDir +:+ "/") serviceName).
  - rewrite !append_assoc. reflexivity.
  - unfold element in Hs.
    apply andb_prop in Hs as [[[H1 _]%andb_prop _]%andb_prop _].
    apply negb_true_iff in H1. intros ->. discriminate H1.
  - exact (element_no_slash serviceName Hs).
Qed.

Section StagingTrace.

Variable LazyConvert : string → list string.
Variable NewUUID : nat → string.
Variable GenSaveImageName : string → string.
Variable HubUser HubPassword : Component → string.
Variable fails : Effect → option error.






Lemma export_config_files_done (serviceDir : string) (volumes : list ComponentVolume)
    (v : ComponentVolume) :
  (export_config_files fails serviceDir volumes).1 = None →
  v ∈ volumes → VolumeType v = "config-file" →
  WriteFile (configFileName serviceDir v) (FileConent v)
  ∈ (export_config_files fails serviceDir volumes).2.
Proof.
  induction volumes as [|v' rest IH]; intros Hok Hin Ht.
  - by apply elem_of_nil in Hin.
  - cbn [export_config_files] in *.
    destruct (String.eqb_spec (VolumeType v') "config-file") as [Ht' | Ht'].
    + unfold exportComponentConfigFile in *.
      destruct (fails (WriteFile _ _)); [discriminate Hok |].
      destruct (export_config_files fails serviceDir rest) as [err effects'].
      cbn [fst snd] in *.
      apply elem_of_cons in Hin as [-> | Hin].
      * apply elem_of_cons. right. apply elem_of_cons. by left.
      * apply elem_of_cons. right. apply elem_of_cons. right. by apply IH.
    + apply elem_of_cons in Hin as [-> | Hin]; [by destruct Ht' | by apply IH].
Qed.

Lemma save_loop_done (sourceDir : string) (names : gmap string string)
    (components : list Component) (c : Component) (v : ComponentVolume) :
  ∀ acc images,
  (save_loop GenSaveImageName HubUser HubPassword fails sourceDir names components acc).1
  = inl images →
  c ∈ components → v ∈ ServiceVolumeMapList c → VolumeType v = "config-file" →
  WriteFile (configFileName (sourceDir +:+ "/" +:+ GetServiceName names (ServiceShareID c)) v)
    (FileConent v)
  ∈ (save_loop GenSaveImageName HubUser HubPassword fails sourceDir names components acc).2.
Proof.
  induction components as [|c' rest IH]; intros acc images Hok Hin Hv Ht.
  - by apply elem_of_nil in Hin.
  - cbn [save_loop] in *.
    pose proof (export_config_files_done
                  (sourceDir +:+ "/" +:+ GetServiceName names (ServiceShareID c'))
                  (ServiceVolumeMapList c') v) as Hown.
    destruct (export_config_files _ _ _) as [[err|] effects]; [discriminate Hok |].
    cbn [fst snd] in Hown.
    destruct (negb (String.eqb (ShareImage c') "")).
    + destruct (pullImage _ _ _ _ c') as [[name|err] pulled]; [| discriminate Hok].
      specialize (IH (acc ++ [name])).
      destruct (save_loop _ _ _ _ _ _ rest _) as [r later]. cbn [fst snd] in *.
      apply elem_of_cons. right. apply elem_of_app.
      apply elem_of_cons in Hin as [-> | Hin]; [left; by apply Hown |].
      right. apply elem_of_app. right. by apply (IH images).
    + specialize (IH acc).
      destruct (save_loop _ _ _ _ _ _ rest _) as [r later]. cbn [fst snd] in *.
      apply elem_of_cons. right. apply elem_of_app.
      apply elem_of_cons in Hin as [-> | Hin]; [left; by apply Hown |].
      right. by apply (IH images).
Qed.

Lemma saveComponents_done (i : ExportApp) (r : RainbondApplicationConfig) (n : nat)
    (c : Component) (v : ComponentVolume) :
  (saveComponents LazyConvert NewUUID GenSaveImageName HubUser HubPassword
     fails i (inl r) n).1 = None →
  c ∈ Components r → v ∈ ServiceVolumeMapList c → VolumeType v = "config-file" →
  WriteFile
    (configFileName
       (SourceDir i +:+ "/"
        +:+ GetServiceName (buildServiceNames LazyConvert NewUUID (Components r) n).1
              (ServiceShareID c)) v)
    (FileConent v)
  ∈ (saveComponents LazyConvert NewUUID GenSaveImageName HubUser HubPassword
       fails i (inl r) n).2.
Proof.
  unfold saveComponents, newDockerCompose.
  destruct (buildServiceNames LazyConvert NewUUID (Components r) n) as [names n'].
  cbn [fst serviceNames].
  pose proof (save_loop_done (SourceDir i) names (Components r) c v []) as Hd.
  destruct (save_loop _ _ _ _ _ _ _ _) as [[images | err] effects]; cbn [fst snd] in *.
  - intros _ Hc Hv Ht. apply elem_of_app. left. by apply (Hd images).
  - discriminate.
Qed.


Lemma export_config_files_writes (serviceDir : string) (volumes : list ComponentVolume) :
  Forall (λ e, match e with
               | WriteFile filename content =>
                   ∃ vol, vol ∈ volumes ∧ VolumeType vol = "config-file" ∧
                     filename = configFileName serviceDir vol ∧ content = FileConent vol
               | MkdirAll _ => True
               | _ => False
               end)
    (export_config_files fails serviceDir volumes).2.
Proof.
  induction volumes as [|v rest IH]; [constructor|].
  assert (∀ e : Effect,
            match e with
            | WriteFile filename content =>
                ∃ vol, vol ∈ rest ∧ VolumeType vol = "config-file" ∧
                  filename = configFileName serviceDir vol ∧ content = FileConent vol
            | MkdirAll _ => True
            | _ => False
            end →
            match e with
            | WriteFile filename content =>
                ∃ vol, vol ∈ v :: rest ∧ VolumeType vol = "config-file" ∧
                  filename = configFileName serviceDir vol ∧ content = FileConent vol
            | MkdirAll _ => True
            | _ => False
            end) as Hw.
  { intros [| f c | | | |]; try done.
    intros (vol & Hin & H). exists vol. split; [by apply elem_of_cons; right | exact H]. }
  cbn [export_config_files].
  destruct (String.eqb_spec (VolumeType v) "config-file") as [Ht | _].
  - assert (Forall (λ e, match e with
               | WriteFile filename content =>
                   ∃ vol, vol ∈ v :: rest ∧ VolumeType vol = "config-file" ∧
                     filename = configFileName serviceDir vol ∧ content = FileConent vol
               | MkdirAll _ => True
               | _ => False
               end)
              [MkdirAll (Dir (configFileName serviceDir v));
               WriteFile (configFileName serviceDir v) (FileConent v)]) as Hv.
    { constructor; [exact I |]. constructor; [| constructor].
      exists v. split; [apply elem_of_cons; by left | done]. }
    unfold exportComponentConfigFile.
    destruct (fails (WriteFile _ _)); [exact Hv |].
    destruct (export_config_files fails serviceDir rest) as [err effects'].
    cbn [snd] in *. apply Forall_app. split; [exact Hv |].
    eapply Forall_impl; [exact IH | exact Hw].
  - eapply Forall_impl; [exact IH | exact Hw].
Qed.

Lemma config_write_cons (sourceDir : string) (names : gmap string string)
    (c : Component) (rest : list Component) (e : Effect) :
  config_write sourceDir names rest e → config_write sourceDir names (c :: rest) e.
Proof.
  destruct e; try done. intros (c' & vol & Hin & H).
  exists c', vol. split; [by apply elem_of_cons; right | exact H].
Qed.

Lemma pullImage_writes (sourceDir : string) (names : gmap string string)
    (components : list Component) (component : Component) :
  Forall (config_write sourceDir names components)
    (pullImage GenSaveImageName HubUser HubPassword fails component).2.
Proof.
  unfold pullImage. destruct (fails (ImagePull _ _ _)).
  - by repeat constructor.
  - destruct (fails (ImageTag _ _)); by repeat constructor.
Qed.

Lemma save_loop_writes (sourceDir : string) (names : gmap string string)
    (components : list Component) (acc : list string) :
  Forall (config_write sourceDir names components)
    (save_loop GenSaveImageName HubUser HubPassword fails sourceDir names components acc).2.
Proof.
  revert acc. induction components as [|c rest IH]; intros acc; [constructor|].
  cbn [save_loop].
  pose proof (export_config_files_writes
                (sourceDir +:+ "/" +:+ GetServiceName names (ServiceShareID c))
                (ServiceVolumeMapList c)) as Hf.
  assert (∀ effects,
            Forall (λ e, match e with
               | WriteFile filename content =>
                   ∃ vol, vol ∈ ServiceVolumeMapList c ∧ VolumeType vol = "config-file" ∧
                     filename = configFileName
                       (sourceDir +:+ "/" +:+ GetServiceName names (ServiceShareID c)) vol ∧
                     content = FileConent vol
               | MkdirAll _ => True
               | _ => False
               end) effects →
            Forall (config_write sourceDir names (c :: rest)) effects) as Hown.
  { intros effects H. eapply Forall_impl; [exact H |].
    intros [| f t | | | |]; try done.
    intros (vol & Hin & H'). exists c, vol. split; [apply elem_of_cons; by left |].
    split; [exact Hin | exact H']. }
  assert (∀ effects,
            Forall (config_write sourceDir names rest) effects →
            Forall (config_write sourceDir names (c :: rest)) effects) as Hrest.
  { intros effects H. eapply Forall_impl; [exact H |]. apply config_write_cons. }
  destruct (export_config_files _ _ _) as [[err|] effects]; cbn [snd] in Hf.
  - cbn [snd]. constructor; [exact I | by apply Hown].
  - destruct (negb (String.eqb (ShareImage c) "")).
    + pose proof (pullImage_writes sourceDir names (c :: rest) c) as Hp.
      destruct (pullImage _ _ _ _ c) as [[name|err] pulled]; cbn [snd] in Hp.
      * specialize (IH (acc ++ [name])).
        destruct (save_loop _ _ _ _ _ _ rest _) as [r later]. cbn [snd] in *.
        constructor; [exact I |].
        apply Forall_app. split; [by apply Hown |].
        apply Forall_app. split; [exact Hp | by apply Hrest].
      * cbn [snd]. constructor; [exact I |].
        apply Forall_app. split; [by apply Hown | exact Hp].
    + specialize (IH acc).
      destruct (save_loop _ _ _ _ _ _ rest _) as [r later]. cbn [snd] in *.
      constructor; [exact I |].
      apply Forall_app. split; [by apply Hown | by apply Hrest].
Qed.

(** X22. The only files [saveComponents] writes are config files: every
    write puts the content of a volume of type config-file of some
    component of the manifest at the mount path of that volume below the
    directory of the component; volumes of other types leave no file. *)
Theorem saveComponents_writes_config_files (i : ExportApp) (r : RainbondApplicationConfig)
    (n : nat) :
  let names := (buildServiceNames LazyConvert NewUUID (Components r) n).1 in
  Forall (config_write (SourceDir i) names (Components r))
    (saveComponents LazyConvert NewUUID GenSaveImageName HubUser HubPassword
       fails i (inl r) n).2.
Proof.
  intros names. subst names. unfold saveComponents, newDockerCompose.
  destruct (buildServiceNames LazyConvert NewUUID (Components r) n) as [names n'].
  cbn [fst serviceNames].
  pose proof (save_loop_writes (SourceDir i) names (Components r) []) as Hw.
  destruct (save_loop _ _ _ _ _ _ _ _) as [[images | err] effects]; cbn [snd] in *.
  - apply Forall_app. split; [exact Hw | by repeat constructor].
  - exact Hw.
Qed.

End StagingTrace.

(** X20. In a manifest whose components have sanitized names that differ
    from one another, and share identifiers that differ from one another,
    a config file is written where the compose file looks for it,
    whatever calls of [NewUUID] were made before the two stages.  For a
    config-file volume of a component whose sanitized name is one path
    element, with a clean absolute mount path: when [saveComponents]
    returns no error it has written the content of the volume to the
    export directory followed by a slash, the sanitized name and the
    mount path, and the volume list of the service in the compose file
    binds [./], the sanitized name and the mount path to the mount
    path. *)
Theorem config_file_written_where_bound
    (LazyConvert : string → list string) (NewUUID : nat → string)
    (GenSaveImageName : string → string) (HubUser HubPassword : Component → string)
    (fails : Effect → option error)
    (i : ExportApp) (r : RainbondApplicationConfig) (n1 n2 : nat)
    (c : Component) (vol : ComponentVolume) (p : string) (comps : list string) :
  NoDup (map (sanitized LazyConvert) (Components r)) →
  NoDup (map ServiceShareID (Components r)) →
  c ∈ Components r → vol ∈ ServiceVolumeMapList c →
  VolumeType vol = "config-file" →
  element (sanitized LazyConvert c) = true →
  Forall (λ y, element y = true) (p :: comps) →
  VolumeMountPath vol = "/" +:+ Go.join_with "/" (p :: comps) →
  (saveComponents LazyConvert NewUUID GenSaveImageName HubUser HubPassword
     fails i (inl r) n1).1 = None →
  let relative := sanitized LazyConvert c +:+ VolumeMountPath vol in
  WriteFile (SourceDir i +:+ "/" +:+ relative) (FileConent vol)
  ∈ (saveComponents LazyConvert NewUUID GenSaveImageName HubUser HubPassword
       fails i (inl r) n1).2 ∧
  "./" +:+ relative +:+ ":" +:+ VolumeMountPath vol
  ∈ GetServiceVolumes (newDockerCompose LazyConvert NewUUID r n2).1.1 (ServiceShareID c).
Proof.
  intros Hnames Hids Hc Hvol Ht Hs Hp Hm Hok relative. subst relative. split.
  - pose proof (saveComponents_done LazyConvert NewUUID GenSaveImageName HubUser
                  HubPassword fails i r n1 c vol Hok Hc Hvol Ht) as Hw.
    unfold GetServiceName, at_key in Hw.
    rewrite (distinct_names_registry LazyConvert NewUUID (Components r) n1 c Hnames Hids Hc)
      in Hw.
    cbn [default] in Hw. by rewrite configFileName_element in Hw.
  - unfold newDockerCompose, GetServiceVolumes.
    pose proof (distinct_names_registry LazyConvert NewUUID (Components r) n2 c
                  Hnames Hids Hc) as Hname.
    destruct (buildServiceNames LazyConvert NewUUID (Components r) n2) as [names n'].
    cbn [fst snd serviceVolumes] in *.
    destruct (list_elem_of_split _ _ Hc) as (pre & post & Hsplit).
    rewrite Hsplit in Hids |- *.
    rewrite service_volumes_of_component.
    + cbn [default]. apply elem_of_app. left. unfold own_binds.
      apply list_elem_of_fmap. exists vol. split; [| exact Hvol].
      unfold GetServiceName, at_key. rewrite Hname. cbn [default].
      symmetry. by apply (buildVolume_clean_config _ p comps).
    + intros c' Hc' Heq.
      rewrite map_app in Hids. cbn [map] in Hids.
      apply NoDup_app in Hids as (_ & Hpre & Hpost).
      apply NoDup_cons in Hpost as [Hpost _].
      apply elem_of_app in Hc' as [Hc' | Hc'].
      * apply (Hpre (ServiceShareID c')).
        -- apply list_elem_of_fmap. by exists c'.
        -- rewrite Heq. apply elem_of_cons. by left.
      * apply Hpost. rewrite <- Heq. apply list_elem_of_fmap. by exists c'.
Qed.

(** The theorem at [config_manifest], staged before any call of
    [NewUUID] and composed after five. *)
Lemma config_file_written_where_bound_witness :
  let i := {| EventID := "e1"; Format := "docker-compose";
              SourceDir := "/grdata/app/demo" |} in
  let c := nginx_with [nginx_conf; nginx_logs] in
  let relative := sanitized no_pinyin c +:+ VolumeMountPath nginx_conf in
  WriteFile (SourceDir i +:+ "/" +:+ relative) (FileConent nginx_conf)
  ∈ (saveComponents no_pinyin stuck_uuid same_image no_credentials no_credentials
       never_fails i (inl config_manifest) 0).2 ∧
  "./" +:+ relative +:+ ":" +:+ VolumeMountPath nginx_conf
  ∈ GetServiceVolumes (newDockerCompose no_pinyin stuck_uuid config_manifest 5).1.1
      (ServiceShareID c).
Proof.
  intros i c.
  apply (config_file_written_where_bound no_pinyin stuck_uuid same_image no_credentials
           no_credentials never_fails i config_manifest 0 5 c nginx_conf
           "etc" ["nginx"; "nginx.conf"]).
  - apply NoDup_singleton.
  - apply NoDup_singleton.
  - in_head.
  - in_head.
  - reflexivity.
  - vm_compute. reflexivity.
  - repeat (constructor; [reflexivity |]). constructor.
  - reflexivity.
  - vm_compute. reflexivity.
Defined.

(** Without distinct names the two stages need not agree: the second of
    two components called [db] is staged under the suffix of one call of
    [NewUUID] and composed under the suffix of a later call, so its
    config file is written to [db-aaaa] and bound from [db-bbbb]. *)
Example config_file_of_suffixed_component :
  let i := {| EventID := "e1"; Format := "docker-compose";
              SourceDir := "/grdata/app/demo" |} in
  let staged := saveComponents no_pinyin two_uuids same_image no_credentials
                  no_credentials never_fails i (inl twin_conf_manifest) 0 in
  staged.1 = None ∧
  WriteFile "/grdata/app/demo/db-aaaa/etc/my.cnf" "[mysqld]" ∈ staged.2 ∧
  GetServiceVolumes (newDockerCompose no_pinyin two_uuids twin_conf_manifest 1).1.1 "2"
  = ["./db-bbbb/etc/my.cnf:/etc/my.cnf"].
Proof.
  intros i staged. subst staged.
  split; [by vm_compute |]. split; [| by vm_compute].
  match goal with
  | |- _ ∈ ?l => let l' := eval vm_compute in l in change l with l'
  end.
  do 5 (apply elem_of_cons; right). apply elem_of_cons. by left.
Qed.

(** The staging of [staging_manifest] when nothing fails. *)
Example saveComponents_trace :
  saveComponents no_pinyin stuck_uuid (λ image, "goodrain.me/" +:+ image)
    no_credentials no_credentials never_fails
    {| EventID := "e1"; Format := "docker-compose"; SourceDir := "/grdata/app/demo" |}
    (inl staging_manifest) 0
  = (None,
     [MkdirAll "/grdata/app/demo/nginx";
      MkdirAll "/grdata/app/demo/nginx/etc/nginx";
      WriteFile "/grdata/app/demo/nginx/etc/nginx/nginx.conf" "worker_processes 1;";
      ImagePull "goodrain.me/nginx" "" "";
      ImageTag "goodrain.me/nginx" "goodrain.me/goodrain.me/nginx";
      MkdirAll "/grdata/app/demo/job";
      MultiImageSave "/grdata/app/demo/component-images.tar"
        ["goodrain.me/goodrain.me/nginx"]]).
Proof. vm_compute. reflexivity. Qed.

(** ** The scrape configuration *)

Lemma fold_left_snoc {A : Type} (l acc : list A) :
  fold_left (λ ts e, ts ++ [e]) l acc = acc ++ l.
Proof.
  revert acc. induction l as [|x l IH]; intros acc; cbn [fold_left].
  - by rewrite app_nil_r.
  - rewrite IH, <- app_assoc. reflexivity.
Qed.

(** X23. The scrape configuration has one static group whose targets are
    the stored endpoints, each once and in the stored order; so whatever
    [UpdateEndpoints] publishes lists exactly the endpoints the callback
    holds afterwards. *)
Theorem toScrape_copies_endpoints
    (gjson_Get : string → string → string)
    (TrimAndSort : list Callback.Endpoint → list string)
    (m : Callback.Mq) (endpoints : list Callback.Endpoint) :
  Callback.Targets <$> Callback.StaticConfigs (Callback.toScrape m)
  = [Callback.sortedEndpoints m] ∧
  let r := Callback.UpdateEndpoints gjson_Get TrimAndSort m endpoints in
  Forall (λ cfg, Callback.Targets <$> Callback.StaticConfigs cfg
                 = [Callback.sortedEndpoints r.1]) r.2.
Proof.
  assert (∀ m', Callback.Targets <$> Callback.StaticConfigs (Callback.toScrape m')
                = [Callback.sortedEndpoints m']) as H.
  { intros m'. unfold Callback.toScrape. cbn [Callback.StaticConfigs fmap list_fmap
      Callback.Targets]. by rewrite fold_left_snoc. }
  split; [apply H |].
  intros r. subst r. unfold Callback.UpdateEndpoints.
  destruct (Callback.ArrCompare _ _); cbn [fst snd]; [constructor |].
  constructor; [apply H | constructor].
Qed.

(** ** Staging of the apps, the plugins and the runner image *)

Section AttachmentTrace.

Variable Result : Type.
Variable gjson_Array : string → string → list Result.
Variable get : Result → string → string.
Variable array : Result → string → list Result.
Variable GetImageUserInfo : string → string → string * string.
Variable GenSaveImageName : string → string.
Variable RUNNERIMAGENAME REGISTRYUSER REGISTRYPASS : string.
Variable fails : Effect → option error.
Variable h : Host.

Lemma perform_app (a b : list Effect) :
  perform fails (a ++ b)
  = match perform fails a with
    | (Some err, done) => (Some err, done)
    | (None, done) => let '(err, later) := perform fails b in (err, done ++ later)
    end.
Proof.
  induction a as [|e a IH]; cbn [app perform].
  - by destruct (perform fails b).
  - destruct (match e with MkdirAll _ => None | _ => fails e end); [reflexivity|].
    rewrite IH. destruct (perform fails a) as [[err|] done]; [reflexivity|].
    by destruct (perform fails b).
Qed.

(** [perform] carries out the whole plan, or stops at the first
    operation that fails and returns its error. *)
Lemma perform_carried_out (plan : list Effect) :
  carried_out fails plan (perform fails plan).
Proof.
  unfold carried_out.
  induction plan as [|e plan IH]; cbn [perform]; [by split|].
  fold (outcome fails e). destruct (outcome fails e) as [err|] eqn:E.
  - exists [], e, plan. by repeat split.
  - destruct (perform fails plan) as [[err|] done].
    + destruct IH as (before & e' & after & -> & -> & Hf & Hb).
      exists (e :: before), e', after. repeat split; try done. by constructor.
    + destruct IH as [-> Hall]. split; [reflexivity | by constructor].
Qed.

Lemma perform_Forall (P : Effect → Prop) (plan : list Effect) :
  Forall P plan → Forall P (perform fails plan).2.
Proof.
  induction 1 as [|e plan He Hp IH]; cbn [perform]; [constructor|].
  destruct (match e with MkdirAll _ => None | _ => fails e end).
  - by repeat constructor.
  - destruct (perform fails plan) as [err done]. by constructor.
Qed.

Lemma export_volumes_perform (serviceDir : string) (volumes : list Result) :
  export_volumes Result get fails serviceDir volumes
  = perform fails (flat_map (volume_plan Result get serviceDir) volumes).
Proof.
  induction volumes as [|v rest IH]; [reflexivity|].
  cbn [export_volumes flat_map]. unfold exportConfigFile, volume_plan.
  cbn [app perform]. rewrite IH.
  destruct (fails (WriteFile _ _)); [reflexivity|].
  by destruct (perform fails _).
Qed.

Lemma exportImage_perform (serviceDir : string) (app : Result) :
  exportImage Result get GetImageUserInfo GenSaveImageName RUNNERIMAGENAME fails
    serviceDir app
  = perform fails
      (MkdirAll serviceDir
       :: (if checkIsRunner RUNNERIMAGENAME (get app "share_image") then []
           else image_plan GenSaveImageName serviceDir (get app "share_image")
                  (GetImageUserInfo (get app "service_image.hub_user")
                     (get app "service_image.hub_password")).1
                  (GetImageUserInfo (get app "service_image.hub_user")
                     (get app "service_image.hub_password")).2)).
Proof.
  unfold exportImage, image_plan.
  destruct (GetImageUserInfo _ _) as [user pass]. cbn [fst snd].
  destruct (checkIsRunner _ _); [reflexivity|].
  cbn [perform].
  destruct (fails (ImagePull _ _ _)); [reflexivity|].
  destruct (fails (ImageTag _ _)); [reflexivity|].
  by destruct (fails (ImageSave _ _)).
Qed.

Lemma save_apps_perform (sourceDir : string) (apps : list Result) :
  save_apps Result get array GetImageUserInfo GenSaveImageName RUNNERIMAGENAME fails
    sourceDir apps
  = perform fails
      (flat_map (app_plan Result get array GetImageUserInfo GenSaveImageName
                   RUNNERIMAGENAME sourceDir) apps).
Proof.
  induction apps as [|app rest IH]; [reflexivity|].
  cbn [save_apps flat_map]. unfold app_plan at 1.
  rewrite <- app_comm_cons. cbn [perform].
  rewrite <- app_assoc, perform_app, <- export_volumes_perform.
  destruct (export_volumes _ _ _ _ _) as [[err|] effects]; [reflexivity|].
  destruct (String.eqb (get app "share_image") ""); cbn [negb].
  - cbn [Datatypes.app]. rewrite <- IH. by destruct (save_apps _ _ _ _ _ _ _ _ _).
  - rewrite perform_app, <- exportImage_perform.
    destruct (exportImage _ _ _ _ _ _ _ _) as [[err|] exported]; [reflexivity|].
    rewrite <- IH. by destruct (save_apps _ _ _ _ _ _ _ _ _).
Qed.

(** X24. [saveApps] does nothing when the manifest cannot be read or
    lists no app.  Otherwise it carries out, in the order of the manifest,
    for each app: its directory, a file for every volume whatever the type
    of the volume, and, when the app has an image other than the runner
    image, the pull, the tag and the save of that image.  It stops at the
    first of these operations that fails and returns its error; the
    outcome of making a directory is not looked at. *)
Theorem saveApps_stops_at_first_failure (i : ExportApp) :
  let result := saveApps Result gjson_Array get array GetImageUserInfo GenSaveImageName
                  RUNNERIMAGENAME fails h i in
  match parseApps Result gjson_Array h i with
  | inr err => result = (Some err, [])
  | inl apps =>
      carried_out fails
        (flat_map (app_plan Result get array GetImageUserInfo GenSaveImageName
                     RUNNERIMAGENAME (SourceDir i)) apps) result
  end.
Proof.
  intros result. subst result. unfold saveApps.
  destruct (parseApps _ _ _ _); [| reflexivity].
  rewrite save_apps_perform. apply perform_carried_out.
Qed.

Lemma app_plan_spares_runner (sourceDir : string) (apps : list Result) (app : Result) :
  app ∈ apps →
  Forall (spares_runner get GenSaveImageName RUNNERIMAGENAME sourceDir apps)
    (app_plan Result get array GetImageUserInfo GenSaveImageName RUNNERIMAGENAME
       sourceDir app).
Proof.
  intros Hin. unfold app_plan. constructor; [exact I|].
  apply Forall_app. split.
  - apply Forall_flat_map, Forall_forall. intros v _. by repeat constructor.
  - destruct (String.eqb _ ""); [constructor|]. constructor; [exact I|].
    destruct (checkIsRunner _ _) eqn:E; [constructor|].
    unfold image_plan. constructor; [exact E|]. constructor; [exact E|].
    constructor; [|constructor]. by exists app.
Qed.

(** X25. [saveApps] leaves the runner image alone: whatever fails, it
    pulls and tags only images whose name does not contain the name of
    the runner image, and every archive it saves is the image of such an
    app of the manifest, saved under its name to save in the directory of
    that app; it never saves several images into one archive. *)
Theorem saveApps_spares_runner (i : ExportApp) :
  let apps := match parseApps Result gjson_Array h i with
              | inl apps => apps
              | inr _ => []
              end in
  Forall (spares_runner get GenSaveImageName RUNNERIMAGENAME (SourceDir i) apps)
    (saveApps Result gjson_Array get array GetImageUserInfo GenSaveImageName
       RUNNERIMAGENAME fails h i).2.
Proof.
  intros apps. subst apps. unfold saveApps.
  destruct (parseApps _ _ _ _) as [apps | err]; [|constructor].
  rewrite save_apps_perform. apply perform_Forall.
  apply Forall_flat_map, Forall_forall. intros app Hin.
  by apply app_plan_spares_runner.
Qed.

Lemma save_plugins_perform (sourceDir : string) (plugins : list Result) :
  save_plugins Result get GetImageUserInfo GenSaveImageName fails sourceDir plugins
  = perform fails
      (flat_map (plugin_plan Result get GetImageUserInfo GenSaveImageName sourceDir)
         plugins).
Proof.
  induction plugins as [|plugin rest IH]; [reflexivity|].
  cbn [save_plugins flat_map]. unfold plugin_plan at 1, image_plan.
  destruct (GetImageUserInfo _ _) as [user pass]. cbn [fst snd app perform].
  destruct (fails (ImagePull _ _ _)); [reflexivity|].
  destruct (fails (ImageTag _ _)); [reflexivity|].
  destruct (fails (ImageSave _ _)); [reflexivity|].
  rewrite <- IH. by destruct (save_plugins _ _ _ _ _ _ _).
Qed.

(** X26. [savePlugins] does nothing when the manifest cannot be read.
    Otherwise it carries out, in the order of the manifest, for each
    plugin: its directory, then the pull, the tag and the save of its
    image into that directory; unlike an app, a plugin is staged whatever
    its image is.  It stops at the first of these operations that fails
    and returns its error. *)
Theorem savePlugins_stops_at_first_failure (i : ExportApp) :
  let result := savePlugins Result gjson_Array get GetImageUserInfo GenSaveImageName
                  fails h i in
  match ReadFile h (SourceDir i +:+ "/metadata.json") with
  | inr err => result = (Some err, [])
  | inl data =>
      carried_out fails
        (flat_map (plugin_plan Result get GetImageUserInfo GenSaveImageName
                     (SourceDir i)) (gjson_Array data "plugins")) result
  end.
Proof.
  intros result. subst result. unfold savePlugins.
  destruct (ReadFile _ _); [| reflexivity].
  rewrite save_plugins_perform. apply perform_carried_out.
Qed.

Lemma find_runner_first (apps : list Result) :
  match find_runner Result get RUNNERIMAGENAME apps with
  | None => Forall (λ app, uses_runner Result get RUNNERIMAGENAME app = false) apps
  | Some image =>
      ∃ before app after, apps = before ++ app :: after ∧
        Forall (λ app, uses_runner Result get RUNNERIMAGENAME app = false) before ∧
        uses_runner Result get RUNNERIMAGENAME app = true ∧ image = get app "image"
  end.
Proof.
  induction apps as [|app rest IH]; cbn [find_runner]; [constructor|].
  destruct (uses_runner _ _ _ app) eqn:E.
  - exists [], app, rest. by repeat split.
  - destruct (find_runner _ _ _ rest) as [image|].
    + destruct IH as (before & app' & after & -> & Hb & Hu & ->).
      exists (app :: before), app', after. repeat split; try done. by constructor.
    + by constructor.
Qed.

(** X27. [exportRunnerImage] exports the image of the first app of the
    manifest that is not built from a Dockerfile and whose image is the
    runner image, and does nothing when there is none.  The image is
    pulled and then saved into the export directory; the outcome of the
    pull does not matter: the save is attempted all the same, and the
    error returned is that of the save alone. *)
Theorem exportRunnerImage_first_runner (i : ExportApp) :
  let result := exportRunnerImage Result gjson_Array get RUNNERIMAGENAME REGISTRYUSER
                  REGISTRYPASS fails h i in
  match parseApps Result gjson_Array h i with
  | inr err => result = (Some err, [])
  | inl apps =>
      (Forall (λ app, uses_runner Result get RUNNERIMAGENAME app = false) apps ∧
       result = (None, [])) ∨
      (∃ before app after save, apps = before ++ app :: after ∧
         Forall (λ app, uses_runner Result get RUNNERIMAGENAME app = false) before ∧
         uses_runner Result get RUNNERIMAGENAME app = true ∧
         save = ImageSave (get app "image")
                  (SourceDir i +:+ "/" +:+ buildToLinuxFileName (get app "image")
                   +:+ ".image.tar") ∧
         result = (fails save,
                   [ImagePull (get app "image") REGISTRYUSER REGISTRYPASS; save]))
  end.
Proof.
  intros result. subst result. unfold exportRunnerImage.
  destruct (parseApps _ _ _ _) as [apps | err]; [|reflexivity].
  pose proof (find_runner_first apps) as Hf.
  destruct (find_runner _ _ _ apps) as [image|].
  - right. destruct Hf as (before & app & after & -> & Hb & Hu & ->).
    exists before, app, after. eexists. repeat split; try done.
  - left. by split.
Qed.

End AttachmentTrace.

(** The apps of [runner_apps] staged: the image of [web] is the runner
    image and is left out. *)
Example saveApps_trace :
  saveApps Fields runner_array field no_array same_login same_image "/runner"
    never_fails runner_host
    {| EventID := "e1"; Format := "rainbond-app"; SourceDir := "/grdata/app/demo" |}
  = (None,
     [MkdirAll "/grdata/app/demo/built"; MkdirAll "/grdata/app/demo/built";
      ImagePull "goodrain.me/built:v1" "" "";
      ImageTag "goodrain.me/built:v1" "goodrain.me/built:v1";
      ImageSave "goodrain.me/built:v1" "/grdata/app/demo/built/built--v1.image.tar";
      MkdirAll "/grdata/app/demo/web"; MkdirAll "/grdata/app/demo/web";
      MkdirAll "/grdata/app/demo/db"; MkdirAll "/grdata/app/demo/db";
      ImagePull "goodrain.me/mysql:5.7" "" "";
      ImageTag "goodrain.me/mysql:5.7" "goodrain.me/mysql:5.7";
      ImageSave "goodrain.me/mysql:5.7" "/grdata/app/demo/db/mysql--5.7.image.tar"]).
Proof. vm_compute. reflexivity. Qed.

(** The runner image is that of [web], the first app not built from a
    Dockerfile; it is saved although the pull failed. *)
Example exportRunnerImage_pull_fails :
  exportRunnerImage Fields runner_array field "/runner" "" "" pull_fails runner_host
    {| EventID := "e1"; Format := "rainbond-app"; SourceDir := "/grdata/app/demo" |}
  = (None,
     [ImagePull "goodrain.me/runner:latest" "" "";
      ImageSave "goodrain.me/runner:latest" "/grdata/app/demo/runner--latest.image.tar"]).
Proof. vm_compute. reflexivity. Qed.

(** ** The services of the compose file *)

Section ComposeServices.

Variable LazyConvert : string → list string.
Variable NewUUID : nat → string.
Variable GetMemoryType : Z → string.
Variable GenSaveImageName : string → string.
Variable keyOrder : gmap string string → list string.

Lemma service_step_inserts (d : dockerCompose) (apps : list Component)
    (acc : gmap string Service * nat) (c : Component) :
  ∃ svc,
    (service_step LazyConvert NewUUID GetMemoryType GenSaveImageName keyOrder d apps acc c).1
    = <[GetServiceName (serviceNames d) (ServiceShareID c) := svc]> acc.1 ∧
    ContainerName svc = GetServiceName (serviceNames d) (ServiceShareID c) ∧
    Image svc = GenSaveImageName (ShareImage c) ∧ Command svc = Cmd c ∧
    Volumes svc = GetServiceVolumes d (ServiceShareID c).
Proof.
  destruct acc as [services n]. unfold service_step.
  destruct (mergeEnvs _ _ _ _ _ _) as [[envs depServices] n'].
  eexists. split; [reflexivity |]. by repeat split.
Qed.

Lemma service_fold (d : dockerCompose) (apps cpts todo : list Component) :
  ∀ acc : gmap string Service * nat,
  todo ⊆ cpts →
  map_Forall (describes GenSaveImageName d cpts) acc.1 →
  let services :=
    (fold_left (service_step LazyConvert NewUUID GetMemoryType GenSaveImageName keyOrder
                  d apps) todo acc).1 in
  dom services
  = dom acc.1
    ∪ list_to_set (map (λ c, GetServiceName (serviceNames d) (ServiceShareID c)) todo) ∧
  map_Forall (describes GenSaveImageName d cpts) services.
Proof.
  induction todo as [|c todo IH]; intros acc Hsub Hacc; cbn [fold_left map list_to_set].
  - split; [by rewrite (right_id_L ∅ (∪)) | exact Hacc].
  - destruct (service_step_inserts d apps acc c) as (svc & Hs & Hn & Hi & Hc & Hv).
    destruct (IH (service_step LazyConvert NewUUID GetMemoryType GenSaveImageName keyOrder
                    d apps acc c)) as [Hdom Hall].
    + intros x Hx. apply Hsub. by apply elem_of_cons; right.
    + rewrite Hs. apply map_Forall_insert_2; [| exact Hacc].
      split; [exact Hn |]. exists c. split; [apply Hsub; by apply elem_of_cons; left |].
      by repeat split.
    + split; [| exact Hall].
      rewrite Hdom, Hs, dom_insert_L.
      by rewrite (assoc_L (∪)), (comm_L (∪) {[_]}).
Qed.

(** X28. The compose file has one service for each registered name of a
    component of the manifest and no other; every service is filed under
    its own container name and takes the image under its name to save,
    the command and the volumes of a component registered under that
    name. *)
Theorem composeYaml_services (r : RainbondApplicationConfig) (n : nat) :
  let d := (newDockerCompose LazyConvert NewUUID r n).1.1 in
  let yaml := composeYaml LazyConvert NewUUID GetMemoryType GenSaveImageName keyOrder r n in
  dom (Services yaml)
  = list_to_set (map (λ c, GetServiceName (serviceNames d) (ServiceShareID c))
                   (Components r)) ∧
  map_Forall (describes GenSaveImageName d (Components r)) (Services yaml).
Proof.
  intros d yaml. subst d yaml. unfold composeYaml.
  destruct (newDockerCompose LazyConvert NewUUID r n) as [[d w] n']. cbn [fst].
  pose proof (service_fold d (Components r) (Components r) (Components r) (∅, n')) as H.
  cbn zeta in H.
  destruct (fold_left _ (Components r) _) as [services k]. cbn [fst Services] in *.
  destruct H as [Hdom Hall]; [done | apply map_Forall_empty |].
  split; [| exact Hall].
  by rewrite Hdom, dom_empty_L, (left_id_L ∅ (∪)).
Qed.

End ComposeServices.
